(** * The dubbing player: PCM decoding, WAV encoding and the mixing transport

    A shallow embedding of [services/audioUtils.ts] ([decodeAudioData],
    [createWavBlob]) and of the [DubbedPlayer] component (transport, mixer,
    export pipeline), with the properties of the design document proved or
    refuted on it.

    Conventions.
    - A [Uint8Array] is a [list byte]; the arrays the program handles come
      from [base64ToUint8Array], which allocates a fresh buffer of exactly
      the array's length, so [data.buffer] holds the array's bytes and
      nothing else.
    - A JavaScript number that holds an integer (a length, a sample rate, a
      header field) is a [Z]; the 32- and 16-bit conversions of [DataView]
      are written out as wrap-around.
    - A JavaScript number that holds a time, a gain or a sample is the
      rational it denotes ([Q]).  The program only compares such numbers,
      takes the remainder [%] (exact on doubles) and divides a 16-bit integer
      by 32768 (exact in single precision); the one place where a number is
      rounded is the store into the [value] of an [AudioParam], which keeps
      single precision ([fround]).
    - A JavaScript string is a [string] of 8-bit characters.  Its
      [toLowerCase], [toUpperCase] and [trim], [atob] and the text of the
      engine's [TypeError]s are the platform's: the service and the
      application are embedded over a [Platform] that provides them, and
      what is proved of them holds for every platform.
    - What [JSON.parse] returns is not checked against the response schema,
      so the values read from it are modelled as JavaScript values
      ([JsValue]), not as strings.

    After the player come the closed forms of its handlers and, from
    [constants.ts], [components/VideoUploader.tsx],
    [services/geminiService.ts] and [App.tsx], the language tables, the
    uploader, the error handling and the result shaping of the service,
    and the application as a state machine over its events, among them the
    settling of the two calls [handleDubbing] waits for. *)

From Stdlib Require Import ZArith QArith Qround Qabs Qpower Lqa Lia List DecimalString.
From Stdlib.Strings Require Import String Ascii Byte.
From stdpp Require Import base option list.
Import ListNotations.

Local Open Scope Z_scope.

(** ** JavaScript values shared by both files *)

Inductive JsError :=
| RangeError          (* typed-array and DataView bounds and alignment *)
| EncodingError       (* the platform decoder rejects the file *)
| InvalidStateError   (* [stop()] on a source that was never started *)
| NotSupportedError.  (* [createBuffer] with arguments out of range *)

Inductive result (A : Type) :=
| Ok (a : A)
| Err (e : JsError).
Arguments Ok {A} a.
Arguments Err {A} e.

(** A thrown exception ends the function: the error monad, with stdpp's
    [x ← e; k] for sequencing. *)
#[global] Instance result_ret : MRet result := fun A a => Ok a.
#[global] Instance result_bind : MBind result := fun A B k r =>
  match r with
  | Ok a => k a
  | Err e => Err e
  end.

(** [AudioBuffer]: the sample rate and one sample array per channel. *)
Record AudioBuffer := mkAudioBuffer {
  ab_sampleRate : Z;
  ab_channels : list (list Q)
}.

Definition numberOfChannels (b : AudioBuffer) : nat := length (ab_channels b).

(** [buffer.length]: the number of sample frames. *)
Definition ab_length (b : AudioBuffer) : nat :=
  match ab_channels b with
  | [] => 0%nat
  | c :: _ => length c
  end.

(** [buffer.duration] = frames / sample rate (the sample rate of a buffer is
    positive). *)
Definition duration (b : AudioBuffer) : Q :=
  (inject_Z (Z.of_nat (ab_length b)) / inject_Z (ab_sampleRate b))%Q.

Module AudioUtils.

(** *** Bytes and typed arrays *)

Definition byte_to_Z (b : byte) : Z := Z.of_N (Byte.to_N b).

(** The store of a number into a [Uint8] slot keeps its low eight bits. *)
Definition byte_of_Z (z : Z) : byte :=
  match Byte.of_N (Z.to_N (Z.land z 255)) with
  | Some b => b
  | None => x00
  end.

Definition charCodeAt (c : ascii) : Z := Z.of_N (N_of_ascii c).

(** [new Int16Array(buffer)]: the element at index [i] is read from bytes
    [2i] and [2i+1] as a two's complement 16-bit value, low byte first (typed
    arrays use the byte order of the platform, which is little-endian
    wherever a browser runs). *)
Definition int16_of_bytes (lo hi : byte) : Z :=
  let u := Z.lor (byte_to_Z lo) (Z.shiftl (byte_to_Z hi) 8) in
  if u <? 32768 then u else u - 65536.

Fixpoint int16_elements (l : list byte) : list Z :=
  match l with
  | lo :: hi :: rest => int16_of_bytes lo hi :: int16_elements rest
  | _ => []
  end.

(** The constructor throws a RangeError when the buffer's byte length is not
    a multiple of the element size. *)
Definition newInt16Array (buffer : list byte) : result (list Z) :=
  if (Z.of_nat (length buffer) mod 2 =? 0) then Ok (int16_elements buffer)
  else Err RangeError.

(** The conversion of a 16-bit sample to floating point. *)
Definition toFloat (v : Z) : Q := (inject_Z v / 32768)%Q.

(** What the audio context supports.  Every implementation takes buffers
    of 1 to 32 channels and sample rates from 8000 to 96000; it may take
    more. *)
Record ContextLimits := mkLimits {
  maxChannels : nat;
  minSampleRate : Z;
  maxSampleRate : Z
}.

(** The least every implementation supports. *)
Definition webAudioLimits : ContextLimits := mkLimits 32 8000 96000.

(** The sample rates the context supports. *)
Definition supportsRate (ctx : ContextLimits) (sampleRate : Z) : Prop :=
  minSampleRate ctx <= sampleRate <= maxSampleRate ctx.

(** [ctx.createBuffer(numChannels, frameCount, sampleRate)]: zero-filled
    channels.  It throws a NotSupportedError when the number of channels is
    zero or more than the context supports, when there is no frame, or when
    the sample rate is outside the range the context supports. *)
Definition createBuffer (ctx : ContextLimits) (numChannels frameCount : nat)
    (sampleRate : Z) : result AudioBuffer :=
  if (1 <=? numChannels)%nat && (numChannels <=? maxChannels ctx)%nat
     && (1 <=? frameCount)%nat
     && (minSampleRate ctx <=? sampleRate) && (sampleRate <=? maxSampleRate ctx)
  then Ok (mkAudioBuffer sampleRate
             (replicate numChannels (replicate frameCount 0%Q)))
  else Err NotSupportedError.

(** The inner loop of [decodeAudioData]:
    [channelData[i] = dataInt16[i * numChannels + channel] / 32768.0]
    for [i] from [i0] up to [frameCount]. *)
Fixpoint fill_channel (dataInt16 : list Z) (numChannels channel : nat)
    (i0 count : nat) (channelData : list Q) : list Q :=
  match count with
  | O => channelData
  | S n =>
      let channelData' :=
        match dataInt16 !! (i0 * numChannels + channel)%nat with
        | Some v => <[i0 := (inject_Z v / 32768)%Q]> channelData
        | None => channelData
        end in
      fill_channel dataInt16 numChannels channel (S i0) n channelData'
  end.

(** The outer loop over the channels, from [channel] upwards. *)
Fixpoint fill_channels (dataInt16 : list Z) (numChannels frameCount : nat)
    (channel : nat) (chans : list (list Q)) : list (list Q) :=
  match chans with
  | [] => []
  | c :: rest =>
      fill_channel dataInt16 numChannels channel 0 frameCount c
        :: fill_channels dataInt16 numChannels frameCount (S channel) rest
  end.

(** [frameCount] is used as a buffer length and as a loop bound; in both
    places only its integer part matters, hence the division on [nat].  The
    player calls with [numChannels = 1]. *)
Definition decodeAudioData (data : list byte) (ctx : ContextLimits)
    (sampleRate : Z) (numChannels : nat) : result AudioBuffer :=
  dataInt16 ← newInt16Array data;
  let frameCount := (length dataInt16 / numChannels)%nat in
  buffer ← createBuffer ctx numChannels frameCount sampleRate;
  Ok (mkAudioBuffer (ab_sampleRate buffer)
        (fill_channels dataInt16 numChannels frameCount 0 (ab_channels buffer))).

(** The call of the player: both defaults but the sample rate. *)
Definition decodeVoice (data : list byte) (ctx : ContextLimits)
    (sampleRate : Z) : result AudioBuffer :=
  decodeAudioData data ctx sampleRate 1.

(** *** DataView and the WAV file *)

(** [view.setUint8(offset, v)] *)
Definition setUint8 (view : list byte) (offset : nat) (v : Z)
  : result (list byte) :=
  if (offset + 1 <=? length view)%nat
  then Ok (<[offset := byte_of_Z v]> view)
  else Err RangeError.

(** [view.setUint16(offset, v, true)]: low byte first. *)
Definition setUint16 (view : list byte) (offset : nat) (v : Z)
  : result (list byte) :=
  if (offset + 2 <=? length view)%nat
  then Ok (<[(offset + 1)%nat := byte_of_Z (Z.shiftr v 8)]>
          (<[offset := byte_of_Z v]> view))
  else Err RangeError.

(** [view.setUint32(offset, v, true)]: the value modulo 2^32, low byte
    first. *)
Definition setUint32 (view : list byte) (offset : nat) (v : Z)
  : result (list byte) :=
  if (offset + 4 <=? length view)%nat
  then Ok (<[(offset + 3)%nat := byte_of_Z (Z.shiftr v 24)]>
          (<[(offset + 2)%nat := byte_of_Z (Z.shiftr v 16)]>
          (<[(offset + 1)%nat := byte_of_Z (Z.shiftr v 8)]>
          (<[offset := byte_of_Z v]> view))))
  else Err RangeError.

Definition getUint16 (view : list byte) (offset : nat) : result Z :=
  match view !! offset, view !! (offset + 1)%nat with
  | Some b0, Some b1 => Ok (Z.lor (byte_to_Z b0) (Z.shiftl (byte_to_Z b1) 8))
  | _, _ => Err RangeError
  end.

Definition getUint32 (view : list byte) (offset : nat) : result Z :=
  match view !! offset, view !! (offset + 1)%nat,
        view !! (offset + 2)%nat, view !! (offset + 3)%nat with
  | Some b0, Some b1, Some b2, Some b3 =>
      Ok (Z.lor (Z.lor (byte_to_Z b0) (Z.shiftl (byte_to_Z b1) 8))
            (Z.lor (Z.shiftl (byte_to_Z b2) 16) (Z.shiftl (byte_to_Z b3) 24)))
  | _, _, _, _ => Err RangeError
  end.

Fixpoint writeString (view : list byte) (offset : nat) (s : string)
  : result (list byte) :=
  match s with
  | EmptyString => Ok view
  | String c s' =>
      view' ← setUint8 view offset (charCodeAt c);
      writeString view' (S offset) s'
  end.

(** [new Uint8Array(buffer, byteOffset).set(source)] *)
Definition typedArraySet (buffer : list byte) (byteOffset : nat)
    (source : list byte) : result (list byte) :=
  if (byteOffset + length source <=? length buffer)%nat
  then Ok (take byteOffset buffer ++ source
             ++ drop (byteOffset + length source) buffer)
  else Err RangeError.

Record Blob := mkBlob { blob_bytes : list byte; blob_type : string }.

Definition createWavBlob (samples : list byte) (sampleRate : Z) : result Blob :=
  let buffer := replicate (44 + length samples) x00 in
  let len := Z.of_nat (length samples) in
  (* RIFF chunk descriptor *)
  view ← writeString buffer 0 "RIFF";
  view ← setUint32 view 4 (36 + len);
  view ← writeString view 8 "WAVE";
  (* fmt sub-chunk *)
  view ← writeString view 12 "fmt ";
  view ← setUint32 view 16 16;
  view ← setUint16 view 20 1;
  view ← setUint16 view 22 1;
  view ← setUint32 view 24 sampleRate;
  view ← setUint32 view 28 (sampleRate * 2);
  view ← setUint16 view 32 2;
  view ← setUint16 view 34 16;
  (* data sub-chunk *)
  view ← writeString view 36 "data";
  view ← setUint32 view 40 len;
  (* audio data *)
  view ← typedArraySet view 44 samples;
  Ok (mkBlob view "audio/wav").

(** The 44 bytes in front of the samples, for a payload of [len] bytes. *)
Definition le32 (v : Z) : list byte :=
  [byte_of_Z v; byte_of_Z (Z.shiftr v 8);
   byte_of_Z (Z.shiftr v 16); byte_of_Z (Z.shiftr v 24)].

Definition le16 (v : Z) : list byte :=
  [byte_of_Z v; byte_of_Z (Z.shiftr v 8)].

Definition ascii_bytes (s : string) : list byte :=
  map (fun c => byte_of_Z (charCodeAt c)) (list_ascii_of_string s).

Definition wavHeader (len sampleRate : Z) : list byte :=
  ascii_bytes "RIFF" ++ le32 (36 + len) ++ ascii_bytes "WAVE"
  ++ ascii_bytes "fmt " ++ le32 16 ++ le16 1 ++ le16 1
  ++ le32 sampleRate ++ le32 (sampleRate * 2) ++ le16 2 ++ le16 16
  ++ ascii_bytes "data" ++ le32 len.

End AudioUtils.

(** ** The player component *)

Module Player.

Inductive Channel := Voice | Background | Original.

(** The argument of [performExport]: ['video'] or ['audio']. *)
Inductive ExportType := ExportVideo | ExportAudio.

(** Where a gain node is connected to: [ctx.destination], or the
    [MediaStreamAudioDestinationNode] of an export, named by its number in
    creation order. *)
Inductive Output := Speakers | Capture (dest : nat).

#[global] Instance Output_eq_dec : EqDecision Output.
Proof. solve_decision. Defined.

Record GainNode := mkGain {
  gain_value : Q;
  gain_outputs : list Output
}.

(** An [AudioBufferSourceNode]. [src_started] is the offset handed to
    [start(0, offset)], if [start] was called. *)
Record SourceNode := mkSource {
  src_buffer : AudioBuffer;
  src_loop : bool;
  src_output : option Channel;
  src_started : option Q;
  src_stopped : bool
}.

(** The value of the element's [onended] property: never assigned, the
    handler installed by an export (it closes over its recorder), or the
    handler that one leaves behind. *)
Inductive EndedHandler := EndedUnset | EndedExport (recorder : nat) | EndedPlain.

Record Video := mkVideo {
  v_currentTime : Q;
  v_paused : bool;
  v_onended : EndedHandler;
  (** whether [captureStream] or [mozCaptureStream] yields a stream *)
  v_captureStream : bool
}.

Inductive RecorderState :=
| RecInactive     (* created, [start] not yet called *)
| RecRecording
| RecStopping     (* [stop] called, [onstop] not yet delivered *)
| RecDone.

(** A [MediaRecorder] with what its [onstop] closure captured. *)
Record Recorder := mkRecorder {
  rec_type : ExportType;
  rec_dest : nat;
  rec_state : RecorderState
}.

(** The objects created from the audio context. Source nodes are named by
    their position in [sources], in creation order. *)
Record AudioGraph := mkGraph {
  ctx_suspended : bool;
  voiceGain : GainNode;
  bgGain : GainNode;
  originalGain : GainNode;
  sources : list SourceNode;
  destinations : nat;     (* capture destinations created so far *)
  ctx_limits : AudioUtils.ContextLimits
}.

(** The [useRef] cells. *)
Record Refs := mkRefs {
  voiceSourceRef : option nat;
  bgSourceRef : option nat;
  voiceBufferRef : option AudioBuffer;
  bgBufferRef : option AudioBuffer;
  destRef : option nat;
  mediaRecorderRef : option nat
}.

(** The [useState] cells of the transport and of the export. *)
Record Hooks := mkHooks {
  isPlaying : bool;
  isReady : bool;
  isRendering : bool;
  renderType : option ExportType;
  currentTime : Q
}.

(** The [useState] cells of the mixer. *)
Record Mixer := mkMixer {
  volume : Q;
  bgVolume : Q;
  originalVolume : Q;
  isVoiceMuted : bool;
  isBgMuted : bool;
  isOriginalMuted : bool
}.

(** What the page has seen: the recorders, the downloads triggered (by file
    name, latest first) and the alerts shown. *)
Record Page := mkPage {
  recorders : list Recorder;
  downloads : list string;
  alerts : list string
}.

(** The mounted component: the video element, the audio context and the
    three gain nodes exist from the first effect on and are never cleared,
    so the null checks on them always pass. *)
Record State := mkState {
  video : Video;
  graph : AudioGraph;
  refs : Refs;
  hooks : Hooks;
  mixer : Mixer;
  page : Page;
  (** the [backgroundAudioFile] prop is set *)
  hasBackgroundFile : bool
}.

(** *** Field updates *)

Definition with_video (f : Video -> Video) (s : State) : State :=
  mkState (f (video s)) (graph s) (refs s) (hooks s) (mixer s) (page s)
    (hasBackgroundFile s).
Definition with_graph (f : AudioGraph -> AudioGraph) (s : State) : State :=
  mkState (video s) (f (graph s)) (refs s) (hooks s) (mixer s) (page s)
    (hasBackgroundFile s).
Definition with_refs (f : Refs -> Refs) (s : State) : State :=
  mkState (video s) (graph s) (f (refs s)) (hooks s) (mixer s) (page s)
    (hasBackgroundFile s).
Definition with_hooks (f : Hooks -> Hooks) (s : State) : State :=
  mkState (video s) (graph s) (refs s) (f (hooks s)) (mixer s) (page s)
    (hasBackgroundFile s).
Definition with_mixer (f : Mixer -> Mixer) (s : State) : State :=
  mkState (video s) (graph s) (refs s) (hooks s) (f (mixer s)) (page s)
    (hasBackgroundFile s).
Definition with_page (f : Page -> Page) (s : State) : State :=
  mkState (video s) (graph s) (refs s) (hooks s) (mixer s) (f (page s))
    (hasBackgroundFile s).

Definition set_v_currentTime (t : Q) (v : Video) : Video :=
  mkVideo t (v_paused v) (v_onended v) (v_captureStream v).
Definition set_v_paused (b : bool) (v : Video) : Video :=
  mkVideo (v_currentTime v) b (v_onended v) (v_captureStream v).
Definition set_v_onended (h : EndedHandler) (v : Video) : Video :=
  mkVideo (v_currentTime v) (v_paused v) h (v_captureStream v).

Definition set_ctx_suspended (b : bool) (g : AudioGraph) : AudioGraph :=
  mkGraph b (voiceGain g) (bgGain g) (originalGain g) (sources g)
    (destinations g) (ctx_limits g).
Definition set_voiceGain (n : GainNode) (g : AudioGraph) : AudioGraph :=
  mkGraph (ctx_suspended g) n (bgGain g) (originalGain g) (sources g)
    (destinations g) (ctx_limits g).
Definition set_bgGain (n : GainNode) (g : AudioGraph) : AudioGraph :=
  mkGraph (ctx_suspended g) (voiceGain g) n (originalGain g) (sources g)
    (destinations g) (ctx_limits g).
Definition set_originalGain (n : GainNode) (g : AudioGraph) : AudioGraph :=
  mkGraph (ctx_suspended g) (voiceGain g) (bgGain g) n (sources g)
    (destinations g) (ctx_limits g).
Definition set_sources (l : list SourceNode) (g : AudioGraph) : AudioGraph :=
  mkGraph (ctx_suspended g) (voiceGain g) (bgGain g) (originalGain g) l
    (destinations g) (ctx_limits g).
Definition set_destinations (n : nat) (g : AudioGraph) : AudioGraph :=
  mkGraph (ctx_suspended g) (voiceGain g) (bgGain g) (originalGain g)
    (sources g) n (ctx_limits g).

Definition set_voiceSourceRef (r : option nat) (x : Refs) : Refs :=
  mkRefs r (bgSourceRef x) (voiceBufferRef x) (bgBufferRef x) (destRef x)
    (mediaRecorderRef x).
Definition set_bgSourceRef (r : option nat) (x : Refs) : Refs :=
  mkRefs (voiceSourceRef x) r (voiceBufferRef x) (bgBufferRef x) (destRef x)
    (mediaRecorderRef x).
Definition set_voiceBufferRef (r : option AudioBuffer) (x : Refs) : Refs :=
  mkRefs (voiceSourceRef x) (bgSourceRef x) r (bgBufferRef x) (destRef x)
    (mediaRecorderRef x).
Definition set_bgBufferRef (r : option AudioBuffer) (x : Refs) : Refs :=
  mkRefs (voiceSourceRef x) (bgSourceRef x) (voiceBufferRef x) r (destRef x)
    (mediaRecorderRef x).
Definition set_destRef (r : option nat) (x : Refs) : Refs :=
  mkRefs (voiceSourceRef x) (bgSourceRef x) (voiceBufferRef x) (bgBufferRef x)
    r (mediaRecorderRef x).
Definition set_mediaRecorderRef (r : option nat) (x : Refs) : Refs :=
  mkRefs (voiceSourceRef x) (bgSourceRef x) (voiceBufferRef x) (bgBufferRef x)
    (destRef x) r.

Definition setIsPlaying (b : bool) (s : State) : State :=
  with_hooks (fun h => mkHooks b (isReady h) (isRendering h) (renderType h)
                         (currentTime h)) s.
Definition setIsReady (b : bool) (s : State) : State :=
  with_hooks (fun h => mkHooks (isPlaying h) b (isRendering h) (renderType h)
                         (currentTime h)) s.
Definition setIsRendering (b : bool) (s : State) : State :=
  with_hooks (fun h => mkHooks (isPlaying h) (isReady h) b (renderType h)
                         (currentTime h)) s.
Definition setRenderType (t : option ExportType) (s : State) : State :=
  with_hooks (fun h => mkHooks (isPlaying h) (isReady h) (isRendering h) t
                         (currentTime h)) s.
Definition setCurrentTime (t : Q) (s : State) : State :=
  with_hooks (fun h => mkHooks (isPlaying h) (isReady h) (isRendering h)
                         (renderType h) t) s.

Definition setVolume (v : Q) (s : State) : State :=
  with_mixer (fun m => mkMixer v (bgVolume m) (originalVolume m)
                         (isVoiceMuted m) (isBgMuted m) (isOriginalMuted m)) s.
Definition setBgVolume (v : Q) (s : State) : State :=
  with_mixer (fun m => mkMixer (volume m) v (originalVolume m)
                         (isVoiceMuted m) (isBgMuted m) (isOriginalMuted m)) s.
Definition setOriginalVolume (v : Q) (s : State) : State :=
  with_mixer (fun m => mkMixer (volume m) (bgVolume m) v
                         (isVoiceMuted m) (isBgMuted m) (isOriginalMuted m)) s.
Definition setIsVoiceMuted (b : bool) (s : State) : State :=
  with_mixer (fun m => mkMixer (volume m) (bgVolume m) (originalVolume m)
                         b (isBgMuted m) (isOriginalMuted m)) s.
Definition setIsBgMuted (b : bool) (s : State) : State :=
  with_mixer (fun m => mkMixer (volume m) (bgVolume m) (originalVolume m)
                         (isVoiceMuted m) b (isOriginalMuted m)) s.
Definition setIsOriginalMuted (b : bool) (s : State) : State :=
  with_mixer (fun m => mkMixer (volume m) (bgVolume m) (originalVolume m)
                         (isVoiceMuted m) (isBgMuted m) b) s.

(** *** Numbers *)

Definition Qltb (a b : Q) : bool := negb (Qle_bool b a).

(** The integer part of a rational, rounded towards zero. *)
Definition Qtrunc (q : Q) : Z := Z.quot (Qnum q) (Zpos (Qden q)).

(** [a % b] on finite numbers with [b] not zero: [a - b * trunc (a / b)],
    kept in lowest terms. *)
Definition js_rem (a b : Q) : Q :=
  Qred (a - b * inject_Z (Qtrunc (a / b))).

(** [Math.fround]: the nearest single-precision number, ties to the even
    significand.  [pow2 k] is 2 to the [k]; [ilog2 q] is the exponent of the
    binade of [q], which is not zero; the spacing of the single-precision
    numbers around [q] is [pow2 (ilog2 q - 23)], and [pow2 (-149)] below the
    least normal number.  The numbers rounded here are slider positions,
    between 0 and 1.5; a number beyond the largest finite single-precision
    number is not a value an [AudioParam] takes. *)
Definition pow2 (k : Z) : Q := (2 ^ k)%Q.

Definition ilog2 (q : Q) : Z :=
  let e := (Z.log2 (Z.abs (Qnum q)) - Z.log2 (Zpos (Qden q)))%Z in
  if Qle_bool (pow2 e) (Qabs q) then e else (e - 1)%Z.

(** The nearest integer to [q], which is not negative; the even one of the
    two when [q] is half-way. *)
Definition roundHalfEven (q : Q) : Z :=
  let f := Qfloor q in
  match (q - inject_Z f ?= 1 # 2)%Q with
  | Lt => f
  | Gt => (f + 1)%Z
  | Eq => if Z.even f then f else (f + 1)%Z
  end.

Definition fround (q : Q) : Q :=
  if Qeq_bool q 0 then 0%Q
  else
    let ulp := pow2 (Z.max (ilog2 q) (-126) - 23) in
    let m := roundHalfEven (Qabs q / ulp) in
    Qred (inject_Z (Z.sgn (Qnum q) * m) * ulp).
Arguments fround : simpl never.

(** *** Playback logic *)

(** [try { node.stop() } catch (e) {}; node.disconnect()]: [stop] throws on a
    node that was never started and the exception is swallowed. *)
Definition stopNode (n : SourceNode) : SourceNode :=
  mkSource (src_buffer n) (src_loop n) None (src_started n)
    (match src_started n with Some _ => true | None => src_stopped n end).

Definition stopSources (s : State) : State :=
  let s :=
    match voiceSourceRef (refs s) with
    | Some i =>
        with_refs (set_voiceSourceRef None)
          (with_graph (fun g => set_sources (alter stopNode i (sources g)) g) s)
    | None => s
    end in
  match bgSourceRef (refs s) with
  | Some i =>
      with_refs (set_bgSourceRef None)
        (with_graph (fun g => set_sources (alter stopNode i (sources g)) g) s)
  | None => s
  end.

(** [ctx.createBufferSource()] with what the caller then sets on the node;
    the new node's name is returned with the state. *)
Definition createBufferSource (n : SourceNode) (s : State) : nat * State :=
  (length (sources (graph s)),
   with_graph (fun g => set_sources (sources g ++ [n]) g) s).

(** [play]. The wait for [ctx.resume()] is taken as one step with the rest
    of the function; everything after it runs without interruption. *)
Definition play (s : State) : State :=
  let s := if ctx_suspended (graph s)
           then with_graph (set_ctx_suspended false) s else s in
  let s := stopSources s in
  let currentVidTime := v_currentTime (video s) in
  (* Start Voice *)
  let s :=
    match voiceBufferRef (refs s) with
    | Some b =>
        let source :=
          mkSource b false (Some Voice)
            (if Qltb currentVidTime (duration b)
             then Some currentVidTime else None)
            false in
        let '(id, s) := createBufferSource source s in
        with_refs (set_voiceSourceRef (Some id)) s
    | None => s
    end in
  (* Start Background *)
  let s :=
    match bgBufferRef (refs s) with
    | Some b =>
        let bgOffset := js_rem currentVidTime (duration b) in
        let source := mkSource b true (Some Background) (Some bgOffset) false in
        let '(id, s) := createBufferSource source s in
        with_refs (set_bgSourceRef (Some id)) s
    | None => s
    end in
  let s := with_video (set_v_paused false) s in
  setIsPlaying true s.

Definition pause (s : State) : State :=
  let s := with_video (set_v_paused true) s in
  let s := stopSources s in
  setIsPlaying false s.

Definition togglePlay (s : State) : State :=
  if isPlaying (hooks s) then pause s else play s.

Definition handleSeek (time : Q) (s : State) : State :=
  let s := setCurrentTime time s in
  let s := with_video (set_v_currentTime time) s in
  if isPlaying (hooks s) then play s else s.

(** *** Volume and mute effects *)

(** [node.gain.value = v]: the value of an [AudioParam] is a
    single-precision number, so what the node holds and what is read back
    is [v] rounded. *)
Definition set_gain_value (v : Q) (n : GainNode) : GainNode :=
  mkGain (fround v) (gain_outputs n).

Definition voiceGainEffect (s : State) : State :=
  with_graph (fun g =>
    set_voiceGain
      (set_gain_value (if isVoiceMuted (mixer s) then 0%Q else volume (mixer s))
         (voiceGain g)) g) s.

Definition bgGainEffect (s : State) : State :=
  with_graph (fun g =>
    set_bgGain
      (set_gain_value (if isBgMuted (mixer s) then 0%Q else bgVolume (mixer s))
         (bgGain g)) g) s.

Definition originalGainEffect (s : State) : State :=
  with_graph (fun g =>
    set_originalGain
      (set_gain_value
         (if isOriginalMuted (mixer s) then 0%Q else originalVolume (mixer s))
         (originalGain g)) g) s.

(** The slider of a channel: the state setter, then the effect that depends
    on it. *)
Definition changeVolume (c : Channel) (v : Q) (s : State) : State :=
  match c with
  | Voice => voiceGainEffect (setVolume v s)
  | Background => bgGainEffect (setBgVolume v s)
  | Original => originalGainEffect (setOriginalVolume v s)
  end.

(** The MUTE / UNMUTE button of a channel. *)
Definition toggleMute (c : Channel) (s : State) : State :=
  match c with
  | Voice => voiceGainEffect (setIsVoiceMuted (negb (isVoiceMuted (mixer s))) s)
  | Background => bgGainEffect (setIsBgMuted (negb (isBgMuted (mixer s))) s)
  | Original =>
      originalGainEffect
        (setIsOriginalMuted (negb (isOriginalMuted (mixer s))) s)
  end.

(** The stored gain of a channel, its mute flag and the value on its
    node. *)
Definition storedGain (c : Channel) (s : State) : Q :=
  match c with
  | Voice => volume (mixer s)
  | Background => bgVolume (mixer s)
  | Original => originalVolume (mixer s)
  end.

Definition muted (c : Channel) (s : State) : bool :=
  match c with
  | Voice => isVoiceMuted (mixer s)
  | Background => isBgMuted (mixer s)
  | Original => isOriginalMuted (mixer s)
  end.

Definition gainNode (c : Channel) (s : State) : GainNode :=
  match c with
  | Voice => voiceGain (graph s)
  | Background => bgGain (graph s)
  | Original => originalGain (graph s)
  end.

Definition effectiveGain (c : Channel) (s : State) : Q :=
  gain_value (gainNode c s).

(** *** Decoding effects *)

(** [decodeTTS]: a rejected decode is logged and nothing else happens. *)
Definition decodeTTS (audioData : list byte) (sampleRate : Z) (s : State)
  : State :=
  match AudioUtils.decodeVoice audioData (ctx_limits (graph s)) sampleRate with
  | Ok buffer =>
      setIsReady true (with_refs (set_voiceBufferRef (Some buffer)) s)
  | Err _ => s
  end.

(** [loadBg]: [file] is the new [backgroundAudioFile] prop, given with the
    outcome of the platform's decoder on it. *)
Definition loadBg (file : option (result AudioBuffer)) (s : State) : State :=
  let s := mkState (video s) (graph s) (refs s) (hooks s) (mixer s) (page s)
             (bool_decide (is_Some file)) in
  match file with
  | None => with_refs (set_bgBufferRef None) s
  | Some (Ok buffer) => with_refs (set_bgBufferRef (Some buffer)) s
  | Some (Err _) => s
  end.

(** *** Export logic *)

(** [node.connect(dest)] adds the connection unless it is there already;
    [node.disconnect(dest)] removes it. *)
Definition connect (o : Output) (n : GainNode) : GainNode :=
  mkGain (gain_value n)
    (if bool_decide (o ∈ gain_outputs n) then gain_outputs n
     else gain_outputs n ++ [o]).

Definition disconnect (o : Output) (n : GainNode) : GainNode :=
  mkGain (gain_value n) (filter (fun x => x ≠ o) (gain_outputs n)).

Definition connectGains (o : Output) (g : AudioGraph) : AudioGraph :=
  set_originalGain (connect o (originalGain g))
    (set_bgGain (connect o (bgGain g))
       (set_voiceGain (connect o (voiceGain g)) g)).

Definition disconnectGains (o : Output) (g : AudioGraph) : AudioGraph :=
  set_originalGain (disconnect o (originalGain g))
    (set_bgGain (disconnect o (bgGain g))
       (set_voiceGain (disconnect o (voiceGain g)) g)).

Definition set_rec_state (st : RecorderState) (r : Recorder) : Recorder :=
  mkRecorder (rec_type r) (rec_dest r) st.

(** [recorder.start()] and [recorder.stop()] *)
Definition recorderStart (r : Recorder) : Recorder :=
  match rec_state r with
  | RecInactive => set_rec_state RecRecording r
  | _ => r
  end.

Definition recorderStopCall (r : Recorder) : Recorder :=
  match rec_state r with
  | RecRecording => set_rec_state RecStopping r
  | _ => r
  end.

Definition set_recorders (l : list Recorder) (p : Page) : Page :=
  mkPage l (downloads p) (alerts p).
Definition triggerDownload (name : string) (p : Page) : Page :=
  mkPage (recorders p) (name :: downloads p) (alerts p).
Definition alert (msg : string) (p : Page) : Page :=
  mkPage (recorders p) (downloads p) (msg :: alerts p).

Definition exportFileName (type : ExportType) : string :=
  match type with
  | ExportVideo => "dubbed_video_export.webm"
  | ExportAudio => "dubbed_audio_mix.webm"
  end.

Definition performExport (type : ExportType) (s : State) : State :=
  match voiceBufferRef (refs s) with
  | None => s
  | Some _ =>
      let s := setIsRendering true s in
      let s := setRenderType (Some type) s in
      let s := pause s in
      (* const dest = ctx.createMediaStreamDestination() *)
      let dest := destinations (graph s) in
      let s := with_graph (set_destinations (S dest)) s in
      let s := with_refs (set_destRef (Some dest)) s in
      (* Route Gains to Recorder Destination *)
      let s := with_graph (connectGains (Capture dest)) s in
      match type, v_captureStream (video s) with
      | ExportVideo, false =>
          let s :=
            with_page
              (alert "Video capture is not supported in this browser.") s in
          setIsRendering false s
      | _, _ =>
          let recorder := length (recorders (page s)) in
          let s :=
            with_page (fun p =>
              set_recorders (recorders p ++ [mkRecorder type dest RecInactive])
                p) s in
          let s := with_refs (set_mediaRecorderRef (Some recorder)) s in
          let s :=
            with_page (fun p =>
              set_recorders (alter recorderStart recorder (recorders p)) p) s in
          (* Play full *)
          let s := with_video (set_v_currentTime 0%Q) s in
          let s := play s in
          with_video (set_v_onended (EndedExport recorder)) s
      end
  end.

(** [recorder.onstop] of recorder [r], delivered after its [stop()]. *)
Definition recorderOnStop (r : nat) (s : State) : State :=
  match recorders (page s) !! r with
  | Some rc =>
      match rec_state rc with
      | RecStopping =>
          let s :=
            with_page (fun p =>
              set_recorders (alter (set_rec_state RecDone) r (recorders p)) p)
              s in
          let s := with_page (triggerDownload (exportFileName (rec_type rc))) s in
          (* Cleanup routing *)
          let s := with_graph (disconnectGains (Capture (rec_dest rc))) s in
          let s := setIsRendering false s in
          setRenderType None s
      | _ => s
      end
  | None => s
  end.

(** The element reaches the end of the media: it pauses itself (its [pause]
    event runs [onPause]), then [ended] runs the [onEnded] prop and the
    [onended] property. *)
Definition videoEnded (s : State) : State :=
  let rendering := isRendering (hooks s) in
  let s := with_video (set_v_paused true) s in
  let s := setIsPlaying false s in
  let s := if rendering then s else stopSources (setIsPlaying false s) in
  match v_onended (video s) with
  | EndedUnset => s
  | EndedExport recorder =>
      let s :=
        with_page (fun p =>
          set_recorders (alter recorderStopCall recorder (recorders p)) p) s in
      let s := stopSources s in
      let s := setIsPlaying false s in
      with_video (set_v_onended EndedPlain) s
  | EndedPlain => stopSources (setIsPlaying false s)
  end.

(** [onTimeUpdate]: the element's clock has moved on to [t]. *)
Definition timeUpdate (t : Q) (s : State) : State :=
  setCurrentTime t (with_video (set_v_currentTime t) s).

(** *** The component as a state machine *)

(** The [max] of the slider of a channel; the [min] is 0 for all three. *)
Definition sliderMax (c : Channel) : Q :=
  match c with
  | Voice => (15 # 10)%Q
  | Background | Original => 1%Q
  end.

(** A range input delivers no value outside its [min] and [max]. *)
Definition inSliderRange (c : Channel) (v : Q) : bool :=
  Qle_bool 0 v && Qle_bool v (sliderMax c).

(** The state after the mount effects, for a context that supports [limits],
    an element that can ([capture]) or cannot be captured and a context that
    starts [suspended] or not.  The first effect and the three gain effects
    have stored the initial volumes into the gain nodes. *)
Definition mounted (limits : AudioUtils.ContextLimits)
    (capture suspended : bool) : State :=
  mkState
    (mkVideo 0%Q true EndedUnset capture)
    (mkGraph suspended (mkGain (fround 1) [Speakers])
       (mkGain (fround (2 # 10)) [Speakers])
       (mkGain (fround (5 # 10)) [Speakers]) [] 0 limits)
    (mkRefs None None None None None None)
    (mkHooks false false false None 0%Q)
    (mkMixer 1%Q (2 # 10)%Q (5 # 10)%Q false false false)
    (mkPage [] [] [])
    false.

Inductive Event :=
| ClickOverlay                       (* the play overlay on the picture *)
| ClickPlayButton
| Seek (t : Q)
| ClickExport (type : ExportType)
| VideoEnded
| TimeUpdate (t : Q)
| RecorderStopped (r : nat)
| Slider (c : Channel) (v : Q)
| ClickMute (c : Channel)
| VoiceArrived (audioData : list byte) (sampleRate : Z)
| BackgroundFile (file : option (result AudioBuffer))
| ElementPlay      (* the element starts playing, not by a call of [play] *)
| ElementPause.    (* the element pauses, not by a call of [pause] *)

(** One event, run to completion.  A control that is disabled or not
    rendered in the current state ignores the event.  The element has no
    [controls], but the browser can still start and pause it (media keys,
    picture-in-picture, the context menu); the component hears of it through
    [onPlay] and [onPause] only. *)
Definition step (s : State) (e : Event) : State :=
  let h := hooks s in
  match e with
  | ClickOverlay =>
      if negb (isPlaying h) && isReady h && negb (isRendering h)
      then play s else s
  | ClickPlayButton =>
      if negb (isReady h) || isRendering h then s else togglePlay s
  | Seek t => if isRendering h then s else handleSeek t s
  | ClickExport type =>
      if isRendering h || negb (isReady h) then s else performExport type s
  | VideoEnded => if v_paused (video s) then s else videoEnded s
  | TimeUpdate t => if v_paused (video s) then s else timeUpdate t s
  | RecorderStopped r => recorderOnStop r s
  | Slider c v =>
      let disabled :=
        match c with
        | Voice => isVoiceMuted (mixer s)
        | Background => negb (hasBackgroundFile s) || isBgMuted (mixer s)
        | Original => isOriginalMuted (mixer s)
        end in
      if disabled || negb (inSliderRange c v) then s else changeVolume c v s
  | ClickMute c =>
      let disabled :=
        match c with
        | Background => negb (hasBackgroundFile s)
        | _ => false
        end in
      if disabled then s else toggleMute c s
  | VoiceArrived audioData sampleRate => decodeTTS audioData sampleRate s
  | BackgroundFile file => loadBg file s
  | ElementPlay =>
      if v_paused (video s)
      then setIsPlaying true (with_video (set_v_paused false) s) else s
  | ElementPause =>
      if v_paused (video s)
      then s else setIsPlaying false (with_video (set_v_paused true) s)
  end.

Definition run (s : State) (es : list Event) : State := fold_left step es s.

Inductive reachable : State -> Prop :=
| reach_mounted limits capture suspended :
    reachable (mounted limits capture suspended)
| reach_step s e : reachable s -> reachable (step s e).

(** The events of the element that no handler of the component caused. *)
Definition elementEvent (e : Event) : bool :=
  match e with
  | ElementPlay | ElementPause => true
  | _ => false
  end.

(** The states reached while the element is started and paused by the
    component alone. *)
Inductive driven : State -> Prop :=
| driven_mounted limits capture suspended :
    driven (mounted limits capture suspended)
| driven_step s e : driven s -> elementEvent e = false -> driven (step s e).

End Player.

(** ** Properties of the player *)

Module PlayerSpec.
Import Player.

(** *** The mixer *)

(** The mixer cells and the values on the three gain nodes. *)
Definition levels (s : State) : Mixer * Q * Q * Q :=
  (mixer s, gain_value (voiceGain (graph s)), gain_value (bgGain (graph s)),
   gain_value (originalGain (graph s))).

(** The value on each gain node is what the node keeps of 0 if the channel
    is muted and of the stored gain otherwise. *)
Definition gainsSynced (s : State) : Prop :=
  forall c,
    effectiveGain c s = fround (if muted c s then 0%Q else storedGain c s).

(** The finite single-precision numbers: a significand of 24 bits and an
    exponent from -149 to 104. *)
Definition isSingle (x : Q) : Prop :=
  exists m e : Z,
    Z.abs m < 2 ^ 24 /\ -149 <= e <= 104 /\ (x == inject_Z m * 2 ^ e)%Q.

(** [x] is a single-precision number, and none is nearer to [q]. *)
Definition nearestSingle (q x : Q) : Prop :=
  isSingle x /\ forall y, isSingle y -> (Qabs (x - q) <= Qabs (y - q))%Q.

(** Every stored gain is a position of its slider. *)
Definition gainsInRange (s : State) : Prop :=
  forall c, inSliderRange c (storedGain c s) = true.

(** *** The playback session *)

(** A source node counts as a live sound-source instance while it is wired
    to a gain node or has been started and not stopped. *)
Definition live (n : SourceNode) : bool :=
  bool_decide (is_Some (src_output n))
  || (bool_decide (is_Some (src_started n)) && negb (src_stopped n)).

(** Every live source is the one named by the cell of its channel. *)
Definition sessionOK (s : State) : Prop :=
  forall i n,
    sources (graph s) !! i = Some n -> live n = true ->
    (voiceSourceRef (refs s) = Some i /\ src_output n = Some Voice)
    \/ (bgSourceRef (refs s) = Some i /\ src_output n = Some Background).

(** No session: both cells are empty and no source is live. *)
Definition quiet (s : State) : Prop :=
  voiceSourceRef (refs s) = None /\ bgSourceRef (refs s) = None
  /\ forall i n, sources (graph s) !! i = Some n -> live n = false.

(** The part of the state the session lives in. *)
Definition sessionView (s : State) : list SourceNode * option nat * option nat :=
  (sources (graph s), voiceSourceRef (refs s), bgSourceRef (refs s)).

(** [play] in three parts: what precedes the new sources, the Voice source,
    the Background source; the rest touches neither sources nor cells. *)
Definition startVoice (t : Q) (s : State) : State :=
  match voiceBufferRef (refs s) with
  | Some b =>
      with_refs (set_voiceSourceRef (Some (length (sources (graph s)))))
        (with_graph (fun g =>
           set_sources
             (sources g
              ++ [mkSource b false (Some Voice)
                    (if Qltb t (duration b) then Some t else None) false]) g) s)
  | None => s
  end.

Definition startBackground (t : Q) (s : State) : State :=
  match bgBufferRef (refs s) with
  | Some b =>
      with_refs (set_bgSourceRef (Some (length (sources (graph s)))))
        (with_graph (fun g =>
           set_sources
             (sources g
              ++ [mkSource b true (Some Background)
                    (Some (js_rem t (duration b))) false]) g) s)
  | None => s
  end.

(** [if (ctx.state === 'suspended') await ctx.resume()] *)
Definition resumeContext (s : State) : State :=
  if ctx_suspended (graph s) then with_graph (set_ctx_suspended false) s else s.

(** The state [play] builds on: the one left by [stopSources]. *)
Definition torn (s : State) : State := stopSources (resumeContext s).

(** *** Concrete states *)

(** A context that takes every sample rate from 1 Hz on, which keeps the
    buffers of the examples short. *)
Definition wideLimits : AudioUtils.ContextLimits :=
  AudioUtils.mkLimits 32 1 96000.

(** The scenario of the design document: a Voice buffer of 5 s (ten zero
    bytes at 1 Hz), a Background buffer of 3 s, the video moved to 6 s. *)
Definition voice5 : list byte := replicate 10 x00.
Definition decoded5 : AudioBuffer :=
  mkAudioBuffer 1 [replicate 5 (inject_Z 0 / 32768)%Q].
Definition bg3 : AudioBuffer := mkAudioBuffer 1 [[0; 0; 0]%Q].
Definition scenario : State :=
  run (mounted wideLimits true false)
    [VoiceArrived voice5 1; BackgroundFile (Some (Ok bg3)); Seek 6%Q].

(** The player on a platform without video capture, once the voice has
    arrived. *)
Definition noCapture : State :=
  run (mounted wideLimits false false) [VoiceArrived voice5 1].

(** *** Seeking and teardown *)

(** The component with the video, and the slider, positioned at [t]. *)
Definition positioned (t : Q) (s : State) : State :=
  with_video (set_v_currentTime t) (setCurrentTime t s).

(** No source of [s] is live in [s']. *)
Definition tearsDown (s s' : State) : Prop :=
  forall i n,
    (i < length (sources (graph s)))%nat ->
    sources (graph s') !! i = Some n -> live n = false.

(** *** Frames *)

(** The two decoded buffers. *)
Definition buffersView (s : State) : option AudioBuffer * option AudioBuffer :=
  (voiceBufferRef (refs s), bgBufferRef (refs s)).

(** Everything but the sources and their two cells. *)
Definition rest (s : State) :=
  (video s, hooks s, mixer s, page s, hasBackgroundFile s,
   (voiceGain (graph s), bgGain (graph s), originalGain (graph s),
    destinations (graph s), ctx_suspended (graph s), ctx_limits (graph s)),
   (voiceBufferRef (refs s), bgBufferRef (refs s), destRef (refs s),
    mediaRecorderRef (refs s))).

(** *** Export jobs *)

(** A recorder is in flight from [start()] until its [onstop] has run. *)
Definition inFlight (r : Recorder) : bool :=
  match rec_state r with
  | RecRecording | RecStopping => true
  | _ => false
  end.

(** The number of recorders in flight. *)
Fixpoint jobs (l : list Recorder) : nat :=
  match l with
  | [] => 0
  | r :: l' => (if inFlight r then 1 else 0) + jobs l'
  end.

Definition jobsInFlight (s : State) : nat := jobs (recorders (page s)).

(** What the export pipeline shows: the recorders, the downloads and the
    [isRendering] flag. *)
Definition ExportView : Type := list Recorder * list string * bool.

Definition exportView (s : State) : ExportView :=
  (recorders (page s), downloads (page s), isRendering (hooks s)).

(** The moves of the pipeline: nothing; the video ends and [stop()] is
    called on a recorder; a stopped recorder delivers [onstop] and the file
    is downloaded; a click on an export button is accepted. *)
Inductive exportStep (e : Event) : ExportView -> ExportView -> Prop :=
| es_same v : exportStep e v v
| es_stopCall R D r i :
    (forall k, e <> ClickExport k) ->
    exportStep e (R, D, r) (alter recorderStopCall i R, D, r)
| es_done R D r i rc :
    (forall k, e <> ClickExport k) ->
    R !! i = Some rc -> rec_state rc = RecStopping ->
    exportStep e (R, D, r)
      (alter (set_rec_state RecDone) i R, exportFileName (rec_type rc) :: D,
       false)
| es_accept R D k d :
    e = ClickExport k ->
    exportStep e (R, D, false) (R ++ [mkRecorder k d RecRecording], D, true).

(** Idle means no job in flight, and there is never more than one. *)
Definition okV (v : ExportView) : Prop :=
  let '(R, _, r) := v in (r = false -> jobs R = 0%nat) /\ (jobs R <= 1)%nat.

(** The downloads made plus those still to come from the jobs in flight. *)
Definition potV (v : ExportView) : nat :=
  let '(R, D, _) := v in (length D + jobs R)%nat.

Definition exportOK (s : State) : Prop := okV (exportView s).

Definition potential (s : State) : nat := potV (exportView s).

Definition notExportClick (e : Event) : Prop := forall k, e <> ClickExport k.

End PlayerSpec.

(** ** The playback handlers in closed form *)

Module PlayerForms.
Import Player PlayerSpec.

(** [stopSources] on the list of source nodes, given the two cells. *)
Definition stopAll (rv rb : option nat) (l : list SourceNode)
  : list SourceNode :=
  let l := match rv with Some i => alter stopNode i l | None => l end in
  match rb with Some i => alter stopNode i l | None => l end.

Definition stoppedSources (s : State) : list SourceNode :=
  stopAll (voiceSourceRef (refs s)) (bgSourceRef (refs s))
    (sources (graph s)).

Definition clearSourceRefs (r : Refs) : Refs :=
  set_bgSourceRef None (set_voiceSourceRef None r).

(** The nodes [play] creates at video time [t]. *)
Definition voiceNode (b : AudioBuffer) (t : Q) : SourceNode :=
  mkSource b false (Some Voice) (if Qltb t (duration b) then Some t else None)
    false.

Definition backgroundNode (b : AudioBuffer) (t : Q) : SourceNode :=
  mkSource b true (Some Background) (Some (js_rem t (duration b))) false.

Definition addVoice (vb : option AudioBuffer) (t : Q) (l : list SourceNode)
  : list SourceNode :=
  match vb with Some b => l ++ [voiceNode b t] | None => l end.

Definition addBackground (bb : option AudioBuffer) (t : Q)
    (l : list SourceNode) : list SourceNode :=
  match bb with Some b => l ++ [backgroundNode b t] | None => l end.

(** The cell of a node created at the end of [l], if its buffer is there. *)
Definition cellFor (buf : option AudioBuffer) (l : list SourceNode)
  : option nat :=
  match buf with Some _ => Some (length l) | None => None end.

(** The source nodes and the two cells after [play]. *)
Definition playSources (s : State) : list SourceNode :=
  addBackground (bgBufferRef (refs s)) (v_currentTime (video s))
    (addVoice (voiceBufferRef (refs s)) (v_currentTime (video s))
       (stoppedSources s)).

Definition playVoiceRef (s : State) : option nat :=
  cellFor (voiceBufferRef (refs s)) (stoppedSources s).

Definition playBgRef (s : State) : option nat :=
  cellFor (bgBufferRef (refs s))
    (addVoice (voiceBufferRef (refs s)) (v_currentTime (video s))
       (stoppedSources s)).

(** *** What holds of the controls in every state *)

(** The [isPlaying] flag follows the element; [isReady] means the voice is
    decoded; the [onended] handler of an export is only there while the
    export is rendering, and its recorder is recording. *)
Definition transportOK (s : State) : Prop :=
  isPlaying (hooks s) = negb (v_paused (video s))
  /\ (isReady (hooks s) = true -> is_Some (voiceBufferRef (refs s)))
  /\ (forall r, v_onended (video s) = EndedExport r ->
      isRendering (hooks s) = true
      /\ (exists rc, recorders (page s) !! r = Some rc
                     /\ rec_state rc = RecRecording)
      /\ forall i rc, recorders (page s) !! i = Some rc ->
                      rec_state rc <> RecStopping).

(** *** What holds of them while the component alone starts and pauses the
    element *)

Definition controlOK (s : State) : Prop :=
  isPlaying (hooks s) = negb (v_paused (video s))
  /\ (isReady (hooks s) = true -> is_Some (voiceBufferRef (refs s)))
  /\ (isPlaying (hooks s) = true ->
      isReady (hooks s) = true /\ ctx_suspended (graph s) = false
      /\ is_Some (voiceSourceRef (refs s)))
  /\ (isPlaying (hooks s) = false ->
      voiceSourceRef (refs s) = None /\ bgSourceRef (refs s) = None)
  /\ (forall r, v_onended (video s) = EndedExport r ->
      isRendering (hooks s) = true /\ isPlaying (hooks s) = true
      /\ (exists rc, recorders (page s) !! r = Some rc
                     /\ rec_state rc = RecRecording)
      /\ forall i rc, recorders (page s) !! i = Some rc ->
                      rec_state rc <> RecStopping)
  /\ (isRendering (hooks s) = true -> isPlaying (hooks s) = true ->
      exists r, v_onended (video s) = EndedExport r).

(** Each cell holds a node that is wired to the gain node of its channel
    and has not been stopped. *)
Definition cellsOK (s : State) : Prop :=
  (forall i, voiceSourceRef (refs s) = Some i ->
     exists n, sources (graph s) !! i = Some n
               /\ src_output n = Some Voice /\ src_loop n = false
               /\ src_stopped n = false)
  /\ (forall i, bgSourceRef (refs s) = Some i ->
       exists n, sources (graph s) !! i = Some n
                 /\ src_output n = Some Background /\ src_loop n = true
                 /\ src_stopped n = false /\ is_Some (src_started n)).

(** *** Routing *)

(** Where the three gain nodes are connected to, and the number of capture
    destinations created so far. *)
Definition routes (s : State)
  : list Output * list Output * list Output * nat :=
  (gain_outputs (voiceGain (graph s)), gain_outputs (bgGain (graph s)),
   gain_outputs (originalGain (graph s)), destinations (graph s)).

(** The three channels are routed alike, always to the speakers, and only
    to capture destinations that exist. *)
Definition routingOK (s : State) : Prop :=
  let '(v, b, o, n) := routes s in
  v = b /\ b = o /\ Speakers ∈ v /\ forall d, Capture d ∈ v -> (d < n)%nat.

(** *** The life of a source node *)

(** A node is as it was, or it has been stopped and disconnected. *)
Definition ages (n n' : SourceNode) : Prop := n' = n \/ n' = stopNode n.

(** A node as [play] creates it. *)
Definition created (n : SourceNode) : Prop :=
  exists b t, n = voiceNode b t \/ n = backgroundNode b t.

(** From one list of source nodes to a later one: the nodes that were
    there have aged, the others were created by [play] and have aged
    since. *)
Definition evolve (l l' : list SourceNode) : Prop :=
  (forall i n, l !! i = Some n -> exists n', l' !! i = Some n' /\ ages n n')
  /\ (forall i n', l' !! i = Some n' -> l !! i = None ->
       exists n, created n /\ ages n n').

(** What holds of every source node the player creates. *)
Definition nodeOK (n : SourceNode) : Prop :=
  src_output n <> Some Original
  /\ (src_output n = Some Voice -> src_loop n = false)
  /\ (src_output n = Some Background -> src_loop n = true)
  /\ (src_loop n = true -> is_Some (src_started n))
  /\ (src_stopped n = true ->
      src_output n = None /\ is_Some (src_started n))
  /\ (src_loop n = false ->
      forall t, src_started n = Some t -> (t < duration (src_buffer n))%Q).

(** *** The mixer events *)

Definition mixerEvent (e : Event) : Prop :=
  (exists c v, e = Slider c v) \/ (exists c, e = ClickMute c).

(** *** Save Voice *)

(** [handleDownloadTTS], the handler of the Save Voice button, on the props
    [audioData] and [sampleRate]: the file that is made, and the page with
    the download triggered.  An exception from [createWavBlob] would leave
    the handler before anything is downloaded. *)
Definition handleDownloadTTS (audioData : list byte) (sampleRate : Z)
    (s : State) : result (AudioUtils.Blob * State) :=
  blob ← AudioUtils.createWavBlob audioData sampleRate;
  Ok (blob, with_page (triggerDownload "tts_voice_raw.wav") s).

End PlayerForms.

(** ** The constants *)

Module Constants.

(** Max video size in bytes (1GB) *)
Definition MAX_FILE_SIZE : Z := 1024 * 1024 * 1024.

Record SourceLanguage := mkSourceLanguage {
  sl_code : string;
  sl_name : string
}.

Record Language := mkLanguage {
  code : string;
  name : string;
  voiceMale : string;
  voiceFemale : string
}.

Definition SOURCE_LANGUAGES : list SourceLanguage :=
  [ mkSourceLanguage "auto" "Auto-Detect";
    mkSourceLanguage "hi" "Hindi";
    mkSourceLanguage "bn" "Bengali";
    mkSourceLanguage "en" "English";
    mkSourceLanguage "zh" "Chinese (Mandarin)";
    mkSourceLanguage "ko" "Korean";
    mkSourceLanguage "ja" "Japanese";
    mkSourceLanguage "es" "Spanish";
    mkSourceLanguage "fr" "French";
    mkSourceLanguage "de" "German";
    mkSourceLanguage "ru" "Russian" ].

Definition SUPPORTED_LANGUAGES : list Language :=
  [ mkLanguage "hi" "Hindi" "Puck" "Kore";
    mkLanguage "bn" "Bengali" "Fenrir" "Charon";
    mkLanguage "en" "English" "Puck" "Kore";
    mkLanguage "zh" "Chinese" "Fenrir" "Charon";
    mkLanguage "ko" "Korean" "Puck" "Kore";
    mkLanguage "es" "Spanish" "Fenrir" "Kore";
    mkLanguage "fr" "French" "Fenrir" "Charon";
    mkLanguage "de" "German" "Puck" "Kore";
    mkLanguage "it" "Italian" "Puck" "Kore";
    mkLanguage "ja" "Japanese" "Fenrir" "Kore";
    mkLanguage "pt" "Portuguese" "Fenrir" "Charon" ].

End Constants.

(** ** The video uploader *)

Module Uploader.
Import Constants.

(** What the program reads of a [File]. *)
Record File := mkFile {
  file_name : string;
  file_type : string;
  file_size : Z
}.

(** What a handler of the uploader does: nothing, an [alert], or the call
    of the [onFileSelected] prop. *)
Inductive Outcome :=
| Ignored
| Alerted (msg : string)
| Uploaded (file : File).

(** The text of an integer in a template literal. *)
Definition numberToString (n : Z) : string :=
  NilZero.string_of_int (Z.to_int n).

Definition validateAndUpload (file : File) : Outcome :=
  (* Basic video type check *)
  if negb (String.prefix "video/" (file_type file))
  then Alerted "Please upload a valid video file."
  else if MAX_FILE_SIZE <? file_size file
  then Alerted ("File size exceeds the limit of "
                ++ numberToString (MAX_FILE_SIZE / (1024 * 1024))
                ++ "MB for this demo.")%string
  else Uploaded file.

(** [files] is [e.dataTransfer.files]. *)
Definition handleDrop (isLoading : bool) (files : list File) : Outcome :=
  if isLoading then Ignored
  else match files with
       | file :: _ => validateAndUpload file
       | [] => Ignored
       end.

(** [files] is [e.target.files]. *)
Definition handleChange (files : list File) : Outcome :=
  match files with
  | file :: _ => validateAndUpload file
  | [] => Ignored
  end.

End Uploader.

(** ** The Gemini service *)

Module Service.
Import Constants.

(** What the program reads of a thrown value: its [message], whether it is
    a [SyntaxError], and its [toString()]. *)
Record Thrown := mkThrown {
  message : option string;
  isSyntaxError : bool;
  toString : string
}.

(** [new Error(m)] *)
Definition newError (m : string) : Thrown :=
  mkThrown (Some m) false
    (if (m =? "")%string then "Error" else ("Error: " ++ m)%string).

(** [x || d] on a string that may be undefined: the empty string is
    falsy. *)
Definition orElse (x : option string) (d : string) : string :=
  match x with
  | Some s => if (s =? "")%string then d else s
  | None => d
  end.

(** [s.includes(needle)] *)
Fixpoint includes (s needle : string) : bool :=
  String.prefix needle s
  || match s with
     | EmptyString => false
     | String _ s' => includes s' needle
     end.

(** A JavaScript value as far as the program looks at it: [undefined],
    [null], a string, or any other value (a number, a boolean, an object,
    an array), of which the program only uses whether it is truthy and the
    string a template literal or a [Blob] makes of it. *)
Inductive JsValue :=
| Undefined
| Null
| Str (s : string)
| Other (isTruthy : bool) (shown : string).

Definition truthy (v : JsValue) : bool :=
  match v with
  | Undefined | Null => false
  | Str s => negb (s =? "")%string
  | Other t _ => t
  end.

(** [String(v)] *)
Definition show (v : JsValue) : string :=
  match v with
  | Undefined => "undefined"
  | Null => "null"
  | Str s => s
  | Other _ shown => shown
  end.

(** [x || d] *)
Definition orDefault (x : JsValue) (d : string) : JsValue :=
  if truthy x then x else Str d.

(** What makes the engine throw a [TypeError] here: a property read on
    [null], or a call of something that is not a function. *)
Inductive TypeErrorCause :=
| ReadOfNull (property : string)
| NotAFunction (callee : string).

(** The string and base64 functions of the platform, and the text of its
    [TypeError]s. *)
Class Platform := {
  toLowerCase : string -> string;
  toUpperCase : string -> string;
  trim : string -> string;
  atob : string -> Thrown + string;
  typeErrorMessage : TypeErrorCause -> string
}.

Inductive Gender := MALE | FEMALE.

Definition genderName (g : Gender) : string :=
  match g with MALE => "MALE" | FEMALE => "FEMALE" end.

(** What [JSON.parse] returned, if it is not [null], as far as it is read:
    the values of four properties.  A property that is missing reads as
    [undefined]; so do all four on a number, a string, a boolean or an
    array.  The response schema asks for strings, but nothing checks what
    the model sent. *)
Record Json := mkJson {
  speaker_gender : JsValue;
  voice_style : JsValue;
  original_transcript : JsValue;
  translated_text : JsValue
}.

(** The result of [analyzeAndTranslate].  The three texts are declared as
    strings; they hold whatever the response held. *)
Record Analysis := mkAnalysis {
  transcript : JsValue;
  an_translatedText : JsValue;
  gender : Gender;
  an_voiceStyle : JsValue
}.

Record DubbingResult := mkDubbingResult {
  originalTranscript : JsValue;
  translatedText : JsValue;
  audioData : option (list byte);
  audioSampleRate : Z;
  detectedGender : Gender;
  voiceStyle : JsValue
}.

(** The request of [generateSpeech] to the model. *)
Record TtsRequest := mkTtsRequest {
  voiceName : string;
  finalPrompt : string
}.

(** The loop of [base64ToUint8Array]: [bytes[i] = binaryString.charCodeAt(i)]
    from [i] on. *)
Fixpoint fill_bytes (binaryString : string) (i : nat) (bytes : list byte)
  : list byte :=
  match binaryString with
  | EmptyString => bytes
  | String c rest =>
      fill_bytes rest (S i)
        (<[i := AudioUtils.byte_of_Z (AudioUtils.charCodeAt c)]> bytes)
  end.

Section WithPlatform.
Context `{Platform}.

(** The [TypeError] the engine throws. *)
Definition newTypeError (cause : TypeErrorCause) : Thrown :=
  let m := typeErrorMessage cause in
  mkThrown (Some m) false
    (if (m =? "")%string then "TypeError" else ("TypeError: " ++ m)%string).

(** [v?.toUpperCase()]: [undefined] on [undefined] and [null], the method
    of a string, and a [TypeError] on any other value, which has no such
    method. *)
Definition optionalToUpperCase (callee : string) (v : JsValue)
  : Thrown + option string :=
  match v with
  | Undefined | Null => inr None
  | Str s => inr (Some (toUpperCase s))
  | Other _ _ => inl (newTypeError (NotAFunction callee))
  end.

(** [v.trim()] on a value that is truthy. *)
Definition trimOf (callee : string) (v : JsValue) : Thrown + string :=
  match v with
  | Str s => inr (trim s)
  | _ => inl (newTypeError (NotAFunction callee))
  end.

Definition base64ToUint8Array (base64 : string) : Thrown + list byte :=
  match atob base64 with
  | inl e => inl e
  | inr binaryString =>
      let len := String.length binaryString in
      let bytes := replicate len x00 in
      inr (fill_bytes binaryString 0 bytes)
  end.

(** [handleError] never returns: the result is the error it throws. *)
Definition handleError (e : Thrown) (context : string) : Thrown :=
  let msg := toLowerCase (orElse (message e) (toString e)) in
  if includes msg "401" || includes msg "api key" then
    newError "Invalid API Key. Please check your configuration."
  else if includes msg "403" || includes msg "permission" then
    newError
      "Permission denied. Your API key may not have access to this model."
  else if includes msg "429" || includes msg "quota"
          || includes msg "resource exhausted" then
    newError "API Quota exceeded. Please try again later."
  else if includes msg "500" || includes msg "internal" then
    newError "Gemini internal server error. Please retry."
  else if includes msg "503" || includes msg "overloaded" then
    newError
      "Gemini service is currently overloaded. Please try again in a moment."
  else if includes msg "safety" || includes msg "blocked" then
    newError
      "The content was blocked by safety filters. Please ensure the video is appropriate."
  else if includes msg "location"
          || includes msg "not supported in your region" then
    newError "Gemini API is not available in your region."
  else if includes msg "candidate" && includes msg "finishreason" then
    newError "Model stopped generating unexpectedly (Safety/Recitation)."
  else
    newError
      ("Failed to " ++ context ++ ". "
       ++ orElse (substring 0 100 <$> message e) "Unknown error"
       ++ "...")%string.

Definition sourceInstruction (sourceLangName : string) : string :=
  if negb (sourceLangName =? "Auto-Detect")%string
  then ("The video audio is in " ++ sourceLangName ++ ".")%string
  else "Detect the language of the video audio automatically.".

(** [analyzeAndTranslate], from the outcome of its [try] block up to
    [JSON.parse]: a thrown value, or what was parsed, [None] for [null].
    What the rest of the [try] block throws is caught like the rest. *)
Definition analyzeAndTranslate (parsed : Thrown + option Json)
  : Thrown + Analysis :=
  let tried : Thrown + Analysis :=
    match parsed with
    | inl e => inl e
    | inr None => inl (newTypeError (ReadOfNull "speaker_gender"))
    | inr (Some json) =>
        match
          optionalToUpperCase "json.speaker_gender?.toUpperCase"
            (speaker_gender json)
        with
        | inl e => inl e
        | inr genderStr =>
            let gender :=
              match genderStr with
              | Some g => if (g =? "FEMALE")%string then FEMALE else MALE
              | None => MALE
              end in
            inr (mkAnalysis
                   (orDefault (original_transcript json)
                      "No transcript detected.")
                   (orDefault (translated_text json)
                      "No translation generated.")
                   gender
                   (orDefault (voice_style json) "neutral"))
        end
    end in
  match tried with
  | inr analysis => inr analysis
  | inl e =>
      (* Specific JSON parse error handling *)
      if isSyntaxError e then
        inl (newError
          "Failed to parse AI response. The model might have been interrupted.")
      else inl (handleError e "analyze video")
  end.

(** [generateSpeech]; [api] is the call of the model, which throws or
    returns the inline data of the first part of the first candidate, if
    there is one. *)
Definition generateSpeech (api : TtsRequest -> Thrown + option string)
    (text : JsValue) (targetLang : Language) (gender : Gender)
    (voiceStyle : JsValue) (useCloning : bool) : Thrown + DubbingResult :=
  let tried : Thrown + DubbingResult :=
    if negb (truthy text) then
      inl (newError "No text to generate speech from.")
    else
      match trimOf "text.trim" text with
      | inl e => inl e
      | inr trimmed =>
          if (String.length trimmed =? 0)%nat then
            inl (newError "No text to generate speech from.")
          else
            (* Select voice based on gender *)
            let voiceName :=
              match gender with
              | FEMALE => voiceFemale targetLang
              | MALE => voiceMale targetLang
              end in
            let finalPrompt :=
              if useCloning
              then ("(Speaking in a " ++ show voiceStyle ++ " tone) "
                    ++ show text)%string
              else show text in
            match api (mkTtsRequest voiceName finalPrompt) with
            | inl e => inl e
            | inr base64Audio =>
                match base64Audio with
                | None | Some EmptyString =>
                    inl (newError "No audio data returned from Gemini.")
                | Some base64 =>
                    match base64ToUint8Array base64 with
                    | inl e => inl e
                    | inr audioData =>
                        inr (mkDubbingResult (Str "") text (Some audioData)
                               24000 gender voiceStyle)
                    end
                end
            end
      end in
  match tried with
  | inl e => inl (handleError e "generate speech")
  | inr r => inr r
  end.

End WithPlatform.

(** *** A platform for texts in ASCII *)

Definition asciiLower (c : ascii) : ascii :=
  let n := nat_of_ascii c in
  if (65 <=? n)%nat && (n <=? 90)%nat then ascii_of_nat (n + 32) else c.

Definition asciiUpper (c : ascii) : ascii :=
  let n := nat_of_ascii c in
  if (97 <=? n)%nat && (n <=? 122)%nat then ascii_of_nat (n - 32) else c.

Fixpoint mapString (f : ascii -> ascii) (s : string) : string :=
  match s with
  | EmptyString => EmptyString
  | String c s' => String (f c) (mapString f s')
  end.

Definition isSpace (c : ascii) : bool :=
  let n := nat_of_ascii c in
  ((9 <=? n)%nat && (n <=? 13)%nat) || (n =? 32)%nat.

Fixpoint trimStart (s : string) : string :=
  match s with
  | String c s' => if isSpace c then trimStart s' else s
  | EmptyString => EmptyString
  end.

Fixpoint trimEnd (s : string) : string :=
  match s with
  | EmptyString => EmptyString
  | String c s' =>
      match trimEnd s' with
      | EmptyString => if isSpace c then EmptyString else String c EmptyString
      | t => String c t
      end
  end.

(** [atob] is taken here on text that is its own decoding; only the shape
    of the result matters to the program.  The messages are those of V8. *)
Definition asciiPlatform : Platform :=
  {| toLowerCase := mapString asciiLower;
     toUpperCase := mapString asciiUpper;
     trim := fun s => trimEnd (trimStart s);
     atob := fun s => inr s;
     typeErrorMessage := fun cause =>
       match cause with
       | ReadOfNull property =>
           ("Cannot read properties of null (reading '" ++ property ++ "')")%string
       | NotAFunction callee => (callee ++ " is not a function")%string
       end |}.

End Service.

(** ** The application *)

Module App.
Import Constants Uploader Service.

Inductive AppState := IDLE | ANALYZING | GENERATING_AUDIO | READY | ERROR.

Record VideoFile := mkVideoFile {
  file : File;
  previewUrl : nat       (* the object URL made for the file *)
}.

(** What a call of [handleDubbing] holds on to while it waits: the values
    of the render in which the button was clicked. *)
Record Closure := mkClosure {
  c_file : File;
  c_targetLang : Language;
  c_sourceLangName : string;
  c_isCloningEnabled : bool
}.

(** A call of [handleDubbing]: waiting for the analysis, waiting for the
    speech, or over. *)
Inductive Job :=
| Analyzing (c : Closure)
| Speaking (c : Closure) (analysis : Analysis)
| Over.

Record State := mkState {
  state : AppState;
  videoFile : option VideoFile;
  targetLang : Language;
  sourceLangCode : string;
  isCloningEnabled : bool;
  bgAudioFile : option File;
  result : option DubbingResult;
  errorMsg : option string;
  progressMsg : string;
  (* outside the component *)
  jobs : list Job;
  objectUrls : nat;
  alerts : list string;
  downloads : list (string * string)      (* file name, text *)
}.

Definition setState (v : AppState) (a : State) : State :=
  mkState v (videoFile a) (targetLang a) (sourceLangCode a)
    (isCloningEnabled a) (bgAudioFile a) (result a) (errorMsg a)
    (progressMsg a) (jobs a) (objectUrls a) (alerts a) (downloads a).
Definition setVideoFile (v : option VideoFile) (a : State) : State :=
  mkState (state a) v (targetLang a) (sourceLangCode a)
    (isCloningEnabled a) (bgAudioFile a) (result a) (errorMsg a)
    (progressMsg a) (jobs a) (objectUrls a) (alerts a) (downloads a).
Definition setTargetLang (v : Language) (a : State) : State :=
  mkState (state a) (videoFile a) v (sourceLangCode a)
    (isCloningEnabled a) (bgAudioFile a) (result a) (errorMsg a)
    (progressMsg a) (jobs a) (objectUrls a) (alerts a) (downloads a).
Definition setSourceLangCode (v : string) (a : State) : State :=
  mkState (state a) (videoFile a) (targetLang a) v
    (isCloningEnabled a) (bgAudioFile a) (result a) (errorMsg a)
    (progressMsg a) (jobs a) (objectUrls a) (alerts a) (downloads a).
Definition setIsCloningEnabled (v : bool) (a : State) : State :=
  mkState (state a) (videoFile a) (targetLang a) (sourceLangCode a)
    v (bgAudioFile a) (result a) (errorMsg a)
    (progressMsg a) (jobs a) (objectUrls a) (alerts a) (downloads a).
Definition setBgAudioFile (v : option File) (a : State) : State :=
  mkState (state a) (videoFile a) (targetLang a) (sourceLangCode a)
    (isCloningEnabled a) v (result a) (errorMsg a)
    (progressMsg a) (jobs a) (objectUrls a) (alerts a) (downloads a).
Definition setResult (v : option DubbingResult) (a : State) : State :=
  mkState (state a) (videoFile a) (targetLang a) (sourceLangCode a)
    (isCloningEnabled a) (bgAudioFile a) v (errorMsg a)
    (progressMsg a) (jobs a) (objectUrls a) (alerts a) (downloads a).
Definition setErrorMsg (v : option string) (a : State) : State :=
  mkState (state a) (videoFile a) (targetLang a) (sourceLangCode a)
    (isCloningEnabled a) (bgAudioFile a) (result a) v
    (progressMsg a) (jobs a) (objectUrls a) (alerts a) (downloads a).
Definition setProgressMsg (v : string) (a : State) : State :=
  mkState (state a) (videoFile a) (targetLang a) (sourceLangCode a)
    (isCloningEnabled a) (bgAudioFile a) (result a) (errorMsg a)
    v (jobs a) (objectUrls a) (alerts a) (downloads a).
Definition set_jobs (v : list Job) (a : State) : State :=
  mkState (state a) (videoFile a) (targetLang a) (sourceLangCode a)
    (isCloningEnabled a) (bgAudioFile a) (result a) (errorMsg a)
    (progressMsg a) v (objectUrls a) (alerts a) (downloads a).
Definition set_objectUrls (v : nat) (a : State) : State :=
  mkState (state a) (videoFile a) (targetLang a) (sourceLangCode a)
    (isCloningEnabled a) (bgAudioFile a) (result a) (errorMsg a)
    (progressMsg a) (jobs a) v (alerts a) (downloads a).
Definition alert (msg : string) (a : State) : State :=
  mkState (state a) (videoFile a) (targetLang a) (sourceLangCode a)
    (isCloningEnabled a) (bgAudioFile a) (result a) (errorMsg a)
    (progressMsg a) (jobs a) (objectUrls a) (msg :: alerts a) (downloads a).

Definition handleFileSelected (file : File) (a : State) : State :=
  let url := objectUrls a in
  let a := set_objectUrls (S url) a in
  let a := setVideoFile (Some (mkVideoFile file url)) a in
  let a := setResult None a in
  let a := setState IDLE a in
  setErrorMsg None a.

(** [files] is [e.target.files]. *)
Definition handleBgAudioSelected (files : list File) (a : State) : State :=
  match files with
  | f :: _ => setBgAudioFile (Some f) a
  | [] => a
  end.

(** [SOURCE_LANGUAGES.find(s => s.code === sourceLangCode)?.name
     || 'Auto-Detect'] *)
Definition sourceLangName (sourceLangCode : string) : string :=
  orElse
    (sl_name
       <$> find (fun s => (sl_code s =? sourceLangCode)%string) SOURCE_LANGUAGES)
    "Auto-Detect".

(** [handleDubbing] up to its first [await]. *)
Definition handleDubbing (a : State) : State :=
  match videoFile a with
  | None => a
  | Some vf =>
      let closure :=
        mkClosure (file vf) (targetLang a) (sourceLangName (sourceLangCode a))
          (isCloningEnabled a) in
      let a := setState ANALYZING a in
      let a := setErrorMsg None a in
      let a :=
        setProgressMsg
          "Analyzing video, detecting speaker gender & style, and cleaning transcript..."
          a in
      set_jobs (jobs a ++ [Analyzing closure]) a
  end.

(** The [catch] of [handleDubbing]. *)
Definition dubbingFailed (e : Thrown) (a : State) : State :=
  let a := setErrorMsg (Some (orElse (message e) "An unknown error occurred")) a in
  setState ERROR a.

Definition handleReset (a : State) : State :=
  let a := setState IDLE a in
  let a := setVideoFile None a in
  let a := setResult None a in
  let a := setErrorMsg None a in
  setBgAudioFile None a.

(** [text] is the string the [Blob] holds. *)
Definition downloadText (text filename : string) (a : State) : State :=
  mkState (state a) (videoFile a) (targetLang a) (sourceLangCode a)
    (isCloningEnabled a) (bgAudioFile a) (result a) (errorMsg a)
    (progressMsg a) (jobs a) (objectUrls a) (alerts a)
    ((filename, text) :: downloads a).

Section WithPlatform.
Context `{Platform}.

(** [handleDubbing] from the analysis that settled ([tried]) to the second
    [await]. *)
Definition analysisSettled (j : nat) (c : Closure)
    (parsed : Thrown + option Json) (a : State) : State :=
  match analyzeAndTranslate parsed with
  | inr analysis =>
      let a :=
        setProgressMsg
          ("Generating voice: " ++ genderName (gender analysis)
           ++ " / Style: " ++ String "034" (show (an_voiceStyle analysis))
           ++ String "034" "...")%string a in
      let a := setState GENERATING_AUDIO a in
      set_jobs (<[j := Speaking c analysis]> (jobs a)) a
  | inl e => dubbingFailed e (set_jobs (<[j := Over]> (jobs a)) a)
  end.

(** [handleDubbing] from the speech that settled to its end. *)
Definition speechSettled (j : nat) (c : Closure) (analysis : Analysis)
    (api : TtsRequest -> Thrown + option string) (a : State) : State :=
  let a := set_jobs (<[j := Over]> (jobs a)) a in
  match
    generateSpeech api (an_translatedText analysis) (c_targetLang c)
      (gender analysis) (an_voiceStyle analysis) (c_isCloningEnabled c)
  with
  | inr dubbingResult =>
      let dubbingResult :=
        mkDubbingResult (transcript analysis) (translatedText dubbingResult)
          (audioData dubbingResult) (audioSampleRate dubbingResult)
          (detectedGender dubbingResult) (voiceStyle dubbingResult) in
      let a := setResult (Some dubbingResult) a in
      setState READY a
  | inl e => dubbingFailed e a
  end.

Inductive Event :=
| DropFiles (files : list File)
| ChooseFiles (files : list File)
| ChooseBackground (files : list File)
| SelectSource (value : string)
| SelectTarget (value : string)
| ToggleCloning
| ClickDub
| ClickChangeVideo
| ClickDownloadOriginal
| ClickDownloadTranslated
| AnalysisSettled (j : nat) (parsed : Thrown + option Json)
| SpeechSettled (j : nat) (api : TtsRequest -> Thrown + option string).

(** The settings are enabled in the states [IDLE] and [READY] only. *)
Definition settingsEnabled (a : State) : bool :=
  match state a with
  | IDLE | READY => true
  | _ => false
  end.

(** [value] is the value of one of the options of a select. *)
Definition isOption (value : string) (values : list string) : bool :=
  existsb (String.eqb value) values.

Definition uploaded (o : Outcome) (a : State) : State :=
  match o with
  | Ignored => a
  | Alerted msg => alert msg a
  | Uploaded f => handleFileSelected f a
  end.

(** One event, run to completion.  The uploader is on the page while no
    video is chosen, the settings panel while one is, the transcript panel
    while there is a result as well; a control that is not on the page or
    is disabled ignores the event, and so does a select for a value that is
    not among its options. *)
Definition step (a : State) (e : Event) : State :=
  match e with
  | DropFiles files =>
      match videoFile a with
      | Some _ => a
      | None => uploaded (handleDrop false files) a
      end
  | ChooseFiles files =>
      match videoFile a with
      | Some _ => a
      | None => uploaded (handleChange files) a
      end
  | ChooseBackground files =>
      match videoFile a with
      | Some _ =>
          if settingsEnabled a then handleBgAudioSelected files a else a
      | None => a
      end
  | SelectSource value =>
      match videoFile a with
      | Some _ =>
          if settingsEnabled a && isOption value (sl_code <$> SOURCE_LANGUAGES)
          then setSourceLangCode value a else a
      | None => a
      end
  | SelectTarget value =>
      match videoFile a with
      | Some _ =>
          if settingsEnabled a && isOption value (code <$> SUPPORTED_LANGUAGES)
          then match
                 find (fun lang => (code lang =? value)%string)
                   SUPPORTED_LANGUAGES
               with
               | Some l => setTargetLang l a
               | None => a
               end
          else a
      | None => a
      end
  | ToggleCloning =>
      match videoFile a with
      | Some _ =>
          if settingsEnabled a
          then setIsCloningEnabled (negb (isCloningEnabled a)) a else a
      | None => a
      end
  | ClickDub =>
      match videoFile a with
      | Some _ =>
          match state a with
          | ANALYZING | GENERATING_AUDIO => a
          | _ => handleDubbing a
          end
      | None => a
      end
  | ClickChangeVideo =>
      match videoFile a with
      | Some _ => handleReset a
      | None => a
      end
  | ClickDownloadOriginal =>
      match videoFile a, result a with
      | Some _, Some r =>
          downloadText (show (originalTranscript r))
            "original_transcript.txt" a
      | _, _ => a
      end
  | ClickDownloadTranslated =>
      match videoFile a, result a with
      | Some _, Some r =>
          downloadText (show (translatedText r))
            ("translated_" ++ code (targetLang a) ++ ".txt")%string a
      | _, _ => a
      end
  | AnalysisSettled j parsed =>
      match jobs a !! j with
      | Some (Analyzing c) => analysisSettled j c parsed a
      | _ => a
      end
  | SpeechSettled j api =>
      match jobs a !! j with
      | Some (Speaking c analysis) => speechSettled j c analysis api a
      | _ => a
      end
  end.

Definition run (a : State) (es : list Event) : State := fold_left step es a.

End WithPlatform.

(** [SUPPORTED_LANGUAGES[0]] *)
Definition firstLanguage : Language :=
  match SUPPORTED_LANGUAGES with
  | l :: _ => l
  | [] => mkLanguage "" "" "" ""
  end.

Definition initial : State :=
  mkState IDLE None firstLanguage "auto" false None None None "" [] 0 [] [].

Inductive reachable `{Platform} : State -> Prop :=
| reach_initial : reachable initial
| reach_step a e : reachable a -> reachable (step a e).

(** A run that ends with a result: a video and a background file are
    chosen, the analysis returns a translation, the speech returns two
    bytes. *)
Definition dubbedOnce : State :=
  @run asciiPlatform initial
    [ ChooseFiles [mkFile "clip.mp4" "video/mp4" 1000];
      ChooseBackground [mkFile "music.mp3" "audio/mpeg" 2000];
      ClickDub;
      AnalysisSettled 0
        (inr (Some (mkJson (Str "female") Undefined Null (Str "Namaste"))));
      SpeechSettled 0 (fun _ => inr (Some "AB"%string)) ].

(** The error box is on the page: it sits in the panel that is there while
    a video is chosen, under [state === AppState.ERROR && errorMsg]. *)
Definition errorBoxShown (a : State) : Prop :=
  is_Some (videoFile a) /\ state a = ERROR
  /\ exists m, errorMsg a = Some m /\ m <> ""%string.

(** The player is on the page. *)
Definition playerMounted (a : State) : Prop :=
  is_Some (videoFile a) /\ is_Some (result a).

(** The state shows a spinner. *)
Definition busy (a : State) : Prop :=
  state a = ANALYZING \/ state a = GENERATING_AUDIO.

Definition inFlight (j : Job) : Prop :=
  match j with
  | Over => False
  | _ => True
  end.

(** What holds of the application in every state. *)
Definition appOK (a : State) : Prop :=
  (state a = READY -> is_Some (result a))
  /\ (state a = ERROR -> exists m, errorMsg a = Some m /\ m <> ""%string)
  /\ (forall r, result a = Some r ->
        is_Some (audioData r) /\ audioSampleRate r = 24000)
  /\ (busy a -> exists j job, jobs a !! j = Some job /\ inFlight job)
  /\ targetLang a ∈ SUPPORTED_LANGUAGES
  /\ isOption (sourceLangCode a) (sl_code <$> SOURCE_LANGUAGES) = true.

End App.

Module AudioUtilsFacts.
Import AudioUtils.

(** *** Bytes *)

Lemma byte_to_of_Z (z : Z) : byte_to_Z (byte_of_Z z) = Z.land z (Z.ones 8).
Proof.
  unfold byte_to_Z, byte_of_Z. change 255 with (Z.ones 8).
  assert (Hr : 0 <= Z.land z (Z.ones 8) < 256).
  { rewrite Z.land_ones by lia. apply Z.mod_pos_bound. lia. }
  destruct (Byte.of_N (Z.to_N (Z.land z (Z.ones 8)))) as [b|] eqn:E.
  - apply Byte.to_of_N in E. rewrite E. lia.
  - apply Byte.of_N_None_iff in E. lia.
Qed.

Lemma byte_to_Z_range (b : byte) : 0 <= byte_to_Z b < 256.
Proof.
  unfold byte_to_Z. pose proof (Byte.to_N_bounded b). lia.
Qed.

Lemma byte_of_to_Z (b : byte) : byte_of_Z (byte_to_Z b) = b.
Proof. destruct b; reflexivity. Qed.

(** Bit [n] of a stored byte. *)
Lemma byte_bit (z n : Z) :
  0 <= n ->
  Z.testbit (byte_to_Z (byte_of_Z z)) n = Z.testbit z n && (n <? 8).
Proof.
  intros Hn. rewrite byte_to_of_Z, Z.land_spec, Z.testbit_ones_nonneg by lia.
  reflexivity.
Qed.

Ltac bit_cases n :=
  repeat match goal with
  | |- context [Z.testbit (Z.shiftl _ ?k) n] =>
      destruct (Z.le_gt_cases k n);
      [ rewrite (Z.shiftl_spec _ k n) by lia
      | rewrite (Z.shiftl_spec_low _ k n) by lia ]
  | |- context [Z.testbit (byte_to_Z (byte_of_Z _)) ?m] =>
      rewrite (byte_bit _ m) by lia
  | |- context [Z.testbit (Z.shiftr _ ?k) ?m] =>
      rewrite (Z.shiftr_spec _ k m) by lia
  | |- context [?a <? ?b] => destruct (Z.ltb_spec a b); try lia
  end.

Lemma le16_value (v : Z) :
  Z.lor (byte_to_Z (byte_of_Z v))
        (Z.shiftl (byte_to_Z (byte_of_Z (Z.shiftr v 8))) 8)
  = v mod 2 ^ 16.
Proof.
  rewrite <- Z.land_ones by lia.
  apply Z.bits_inj'. intros n Hn.
  rewrite Z.lor_spec, Z.land_spec, Z.testbit_ones_nonneg by lia.
  bit_cases n;
    rewrite ?Z.sub_add, ?andb_true_r, ?andb_false_r, ?orb_false_r,
      ?orb_false_l; reflexivity.
Qed.

Lemma le32_value (v : Z) :
  Z.lor (Z.lor (byte_to_Z (byte_of_Z v))
               (Z.shiftl (byte_to_Z (byte_of_Z (Z.shiftr v 8))) 8))
        (Z.lor (Z.shiftl (byte_to_Z (byte_of_Z (Z.shiftr v 16))) 16)
               (Z.shiftl (byte_to_Z (byte_of_Z (Z.shiftr v 24))) 24))
  = v mod 2 ^ 32.
Proof.
  rewrite <- Z.land_ones by lia.
  apply Z.bits_inj'. intros n Hn.
  rewrite !Z.lor_spec, Z.land_spec, Z.testbit_ones_nonneg by lia.
  bit_cases n;
    rewrite ?Z.sub_add, ?andb_true_r, ?andb_false_r, ?orb_false_r,
      ?orb_false_l; reflexivity.
Qed.

(** *** The WAV file *)

Lemma typedArraySet_tail (pre source : list byte) (x : byte) :
  typedArraySet (pre ++ replicate (length source) x) (length pre) source
  = Ok (pre ++ source).
Proof.
  unfold typedArraySet.
  rewrite length_app, length_replicate, Nat.leb_refl.
  rewrite take_app_length.
  rewrite drop_ge by (rewrite length_app, length_replicate; lia).
  rewrite app_nil_r. reflexivity.
Qed.

Lemma createWavBlob_layout (samples : list byte) (sampleRate : Z) :
  createWavBlob samples sampleRate
  = Ok (mkBlob (wavHeader (Z.of_nat (length samples)) sampleRate ++ samples)
          "audio/wav").
Proof.
  unfold createWavBlob.
  cbn -[byte_of_Z Z.shiftr Z.add Z.mul Z.of_nat charCodeAt typedArraySet].
  match goal with
  | |- context [typedArraySet ?b 44 samples] =>
      change b with (wavHeader (Z.of_nat (length samples)) sampleRate
                       ++ replicate (length samples) x00)
  end.
  change 44%nat with (length (wavHeader (Z.of_nat (length samples)) sampleRate)).
  rewrite typedArraySet_tail. reflexivity.
Qed.

Lemma wavHeader_length (len sampleRate : Z) :
  length (wavHeader len sampleRate) = 44%nat.
Proof. reflexivity. Qed.

Lemma getUint32_header (len sampleRate : Z) (samples : list byte) (off : nat) (v : Z) :
  (off + 4 <= 44)%nat ->
  take 4 (drop off (wavHeader len sampleRate)) = le32 v ->
  getUint32 (wavHeader len sampleRate ++ samples) off = Ok (v mod 2 ^ 32).
Proof.
  intros Hoff Hf. unfold getUint32.
  assert (Hl : forall k, (k < 4)%nat ->
            (wavHeader len sampleRate ++ samples) !! (off + k)%nat
            = le32 v !! k).
  { intros k Hk. rewrite <- Hf, lookup_take_lt, lookup_drop by lia.
    apply lookup_app_l. rewrite wavHeader_length. lia. }
  rewrite <- (Nat.add_0_r off) at 1.
  rewrite !Hl by lia. cbn [le32 lookup list_lookup].
  rewrite le32_value. reflexivity.
Qed.

Lemma getUint16_header (len sampleRate : Z) (samples : list byte) (off : nat) (v : Z) :
  (off + 2 <= 44)%nat ->
  take 2 (drop off (wavHeader len sampleRate)) = le16 v ->
  getUint16 (wavHeader len sampleRate ++ samples) off = Ok (v mod 2 ^ 16).
Proof.
  intros Hoff Hf. unfold getUint16.
  assert (Hl : forall k, (k < 2)%nat ->
            (wavHeader len sampleRate ++ samples) !! (off + k)%nat
            = le16 v !! k).
  { intros k Hk. rewrite <- Hf, lookup_take_lt, lookup_drop by lia.
    apply lookup_app_l. rewrite wavHeader_length. lia. }
  rewrite <- (Nat.add_0_r off) at 1.
  rewrite !Hl by lia. cbn [le16 lookup list_lookup].
  rewrite le16_value. reflexivity.
Qed.

(** The four fields of the header as they parse back, whatever the inputs:
    each is the value written, modulo the width of the field. *)
Lemma wav_fields_mod (samples : list byte) (sampleRate : Z) :
  let len := Z.of_nat (length samples) in
  let file := wavHeader len sampleRate ++ samples in
  getUint32 file 4 = Ok ((36 + len) mod 2 ^ 32)
  /\ getUint32 file 40 = Ok (len mod 2 ^ 32)
  /\ getUint32 file 24 = Ok (sampleRate mod 2 ^ 32)
  /\ getUint32 file 28 = Ok ((sampleRate * 2) mod 2 ^ 32)
  /\ getUint16 file 32 = Ok 2.
Proof.
  intros len file. unfold file.
  split; [| split; [| split; [| split]]];
    try (apply getUint32_header; [lia | reflexivity]).
  apply (getUint16_header _ _ _ 32%nat 2); [lia | reflexivity].
Qed.

(** *** Decoding *)

Lemma list_pair_ind {A} (P : list A -> Prop) :
  P [] -> (forall x, P [x]) -> (forall x y l, P l -> P (x :: y :: l)) ->
  forall l, P l.
Proof.
  intros H0 H1 H2 l.
  assert (H : P l /\ forall x, P (x :: l)).
  { induction l as [|a l [IH1 IH2]]; split; auto. }
  apply H.
Qed.

Lemma int16_elements_length (data : list byte) :
  length (int16_elements data) = (length data / 2)%nat.
Proof.
  induction data as [| x | x y l IH] using list_pair_ind; [reflexivity.. |].
  cbn [int16_elements length]. rewrite IH.
  change (S (S (length l))) with (1 * 2 + length l)%nat.
  rewrite Nat.div_add_l by lia. reflexivity.
Qed.

Lemma int16_elements_lookup (data : list byte) (i : nat) (lo hi : byte) :
  data !! (2 * i)%nat = Some lo -> data !! (2 * i + 1)%nat = Some hi ->
  int16_elements data !! i = Some (int16_of_bytes lo hi).
Proof.
  revert i. induction data as [| x | x y l IH] using list_pair_ind;
    intros i Hlo Hhi.
  - discriminate.
  - destruct i; [discriminate |].
    replace (2 * S i)%nat with (S (S (2 * i))) in Hlo by lia. discriminate.
  - destruct i as [|i].
    + cbn in Hlo, Hhi. injection Hlo as ->. injection Hhi as ->. reflexivity.
    + replace (2 * S i)%nat with (S (S (2 * i))) in Hlo by lia.
      replace (2 * S i + 1)%nat with (S (S (2 * i + 1))) in Hhi by lia.
      cbn [int16_elements]. cbn in Hlo, Hhi |- *. apply IH; assumption.
Qed.

(** The value is the two's complement reading of [lo + 256 * hi]. *)
Lemma lor_shiftl_8 (a b : Z) :
  0 <= a < 256 -> Z.lor a (Z.shiftl b 8) = a + 256 * b.
Proof.
  intros Ha.
  assert (Hz : Z.land a (Z.shiftl b 8) = 0).
  { apply Z.bits_inj'. intros n Hn.
    rewrite Z.land_spec, Z.bits_0.
    destruct (Z.le_gt_cases 8 n).
    - replace (Z.testbit a n) with false; [reflexivity |].
      symmetry. apply Z.bits_above_log2; [lia |].
      destruct (Z.eq_dec a 0) as [-> | Hne]; [cbn; lia |].
      apply Z.lt_le_trans with 8; [| assumption].
      apply Z.log2_lt_pow2; [lia | change (2 ^ 8) with 256; lia].
    - rewrite (Z.shiftl_spec_low b 8 n) by lia. apply andb_false_r. }
  pose proof (Z.add_lor_land a (Z.shiftl b 8)) as Hadd.
  rewrite Hz in Hadd. rewrite Z.shiftl_mul_pow2 in Hadd |- * by lia.
  change (2 ^ 8) with 256 in Hadd |- *. lia.
Qed.

Lemma int16_of_bytes_value (lo hi : byte) :
  let u := byte_to_Z lo + 256 * byte_to_Z hi in
  int16_of_bytes lo hi = (if u <? 32768 then u else u - 65536)
  /\ -32768 <= int16_of_bytes lo hi <= 32767.
Proof.
  intros u. unfold int16_of_bytes.
  pose proof (byte_to_Z_range lo) as Hlo.
  pose proof (byte_to_Z_range hi) as Hhi.
  rewrite lor_shiftl_8 by assumption. fold u.
  split; [reflexivity |].
  destruct (Z.ltb_spec u 32768); unfold u in *; lia.
Qed.

Lemma int16_elements_range (data : list byte) (v : Z) :
  v ∈ int16_elements data -> -32768 <= v <= 32767.
Proof.
  induction data as [| x | x y l IH] using list_pair_ind; cbn [int16_elements].
  - intros H. inversion H.
  - intros H. inversion H.
  - intros [-> | H]%elem_of_cons; [| auto].
    apply int16_of_bytes_value.
Qed.

Lemma fill_channel_mono (d : list Z) (count i0 : nat) (cd : list Q) :
  (i0 + count)%nat = length d -> length cd = length d ->
  fill_channel d 1 0 i0 count cd = take i0 cd ++ (toFloat <$> drop i0 d).
Proof.
  revert i0 cd. induction count as [|n IH]; intros i0 cd Hi Hc.
  - cbn. rewrite drop_ge, take_ge by lia. cbn. rewrite app_nil_r. reflexivity.
  - cbn [fill_channel]. rewrite Nat.mul_1_r, Nat.add_0_r.
    destruct (lookup_lt_is_Some_2 d i0) as [v Hv]; [lia |].
    rewrite Hv, IH by (rewrite ?length_insert; lia).
    erewrite take_S_r by (apply list_lookup_insert_eq; lia).
    rewrite take_insert_ge by lia.
    rewrite (drop_S d v i0 Hv), fmap_cons.
    rewrite <- app_assoc. reflexivity.
Qed.

Lemma newInt16Array_even (data : list byte) :
  (length data mod 2 = 0)%nat -> newInt16Array data = Ok (int16_elements data).
Proof.
  intros Hev. unfold newInt16Array.
  replace (Z.of_nat (length data) mod 2 =? 0) with true; [reflexivity |].
  symmetry. apply Z.eqb_eq.
  change 2 with (Z.of_nat 2). rewrite <- Nat2Z.inj_mod, Hev. reflexivity.
Qed.

(** [createBuffer] succeeds exactly on arguments in range. *)
Lemma createBuffer_Ok (ctx : ContextLimits) (numChannels frameCount : nat)
    (sampleRate : Z) :
  (1 <= numChannels <= maxChannels ctx)%nat -> (1 <= frameCount)%nat ->
  supportsRate ctx sampleRate ->
  createBuffer ctx numChannels frameCount sampleRate
  = Ok (mkAudioBuffer sampleRate
          (replicate numChannels (replicate frameCount 0%Q))).
Proof.
  intros [Hc1 Hc2] Hf [Hr1 Hr2]. unfold createBuffer.
  destruct (Nat.leb_spec 1 numChannels); [| lia].
  destruct (Nat.leb_spec numChannels (maxChannels ctx)); [| lia].
  destruct (Nat.leb_spec 1 frameCount); [| lia].
  destruct (Z.leb_spec (minSampleRate ctx) sampleRate); [| lia].
  destruct (Z.leb_spec sampleRate (maxSampleRate ctx)); [| lia].
  reflexivity.
Qed.

Lemma createBuffer_inv (ctx : ContextLimits) (numChannels frameCount : nat)
    (sampleRate : Z) (b : AudioBuffer) :
  createBuffer ctx numChannels frameCount sampleRate = Ok b ->
  (1 <= numChannels <= maxChannels ctx)%nat /\ (1 <= frameCount)%nat
  /\ supportsRate ctx sampleRate.
Proof.
  unfold createBuffer, supportsRate.
  destruct (Nat.leb_spec 1 numChannels); [| discriminate].
  destruct (Nat.leb_spec numChannels (maxChannels ctx)); [| discriminate].
  destruct (Nat.leb_spec 1 frameCount); [| discriminate].
  destruct (Z.leb_spec (minSampleRate ctx) sampleRate); [| discriminate].
  destruct (Z.leb_spec sampleRate (maxSampleRate ctx)); [| discriminate].
  intros _. lia.
Qed.

Lemma createBuffer_Err (ctx : ContextLimits) (numChannels frameCount : nat)
    (sampleRate : Z) (e : JsError) :
  createBuffer ctx numChannels frameCount sampleRate = Err e ->
  e = NotSupportedError.
Proof.
  unfold createBuffer. destruct (_ && _); [discriminate | congruence].
Qed.

Lemma decodeVoice_even (data : list byte) (ctx : ContextLimits)
    (sampleRate : Z) :
  (length data mod 2 = 0)%nat -> data <> [] ->
  (1 <= maxChannels ctx)%nat -> supportsRate ctx sampleRate ->
  decodeVoice data ctx sampleRate
  = Ok (mkAudioBuffer sampleRate [toFloat <$> int16_elements data]).
Proof.
  intros Hev Hne Hch Hrate. unfold decodeVoice, decodeAudioData.
  rewrite newInt16Array_even by exact Hev.
  cbn [mbind result_bind]. rewrite Nat.div_1_r.
  assert (Hlen : (1 <= length (int16_elements data))%nat).
  { rewrite int16_elements_length.
    destruct data as [| x [| y l]]; [congruence | discriminate |].
    cbn [length]. change (S (S (length l))) with (1 * 2 + length l)%nat.
    rewrite Nat.div_add_l by lia. lia. }
  rewrite createBuffer_Ok by first [exact Hrate | lia].
  cbn [mbind result_bind ab_sampleRate ab_channels replicate fill_channels].
  rewrite fill_channel_mono by (rewrite ?length_replicate; lia).
  rewrite take_0, drop_0. reflexivity.
Qed.

(** A decoded voice comes from bytes of even length that are not empty, at a
    sample rate the context supports. *)
Lemma decodeVoice_inv (data : list byte) (ctx : ContextLimits)
    (sampleRate : Z) (b : AudioBuffer) :
  decodeVoice data ctx sampleRate = Ok b ->
  (length data mod 2 = 0)%nat /\ data <> [] /\ (1 <= maxChannels ctx)%nat
  /\ supportsRate ctx sampleRate.
Proof.
  unfold decodeVoice, decodeAudioData, newInt16Array.
  destruct (Z.eqb_spec (Z.of_nat (length data) mod 2) 0) as [Hev |];
    [| discriminate].
  cbn [mbind result_bind]. rewrite Nat.div_1_r.
  destruct (createBuffer _ _ _ _) as [buf | e] eqn:Hb; [| discriminate].
  intros _. apply createBuffer_inv in Hb as ([_ Hc] & Hf & Hr).
  split; [| split; [| split; assumption]].
  - apply Nat2Z.inj. rewrite Nat2Z.inj_mod. exact Hev.
  - intros ->. cbn in Hf. lia.
Qed.

(** No frame, no buffer: on the empty input [createBuffer] throws. *)
Lemma decodeVoice_nil (ctx : ContextLimits) (sampleRate : Z) :
  decodeVoice [] ctx sampleRate = Err NotSupportedError.
Proof.
  unfold decodeVoice, decodeAudioData, createBuffer.
  destruct ctx as [mc lo hi]. cbn. destruct mc; reflexivity.
Qed.

Lemma decodeAudioData_odd (data : list byte) (ctx : ContextLimits)
    (sampleRate : Z) (numChannels : nat) :
  (length data mod 2 = 1)%nat ->
  decodeAudioData data ctx sampleRate numChannels = Err RangeError.
Proof.
  intros Hodd. unfold decodeAudioData, newInt16Array.
  replace (Z.of_nat (length data) mod 2 =? 0) with false; [reflexivity |].
  symmetry. apply Z.eqb_neq.
  change 2 with (Z.of_nat 2). rewrite <- Nat2Z.inj_mod, Hodd. discriminate.
Qed.

Lemma toFloat_range (v : Z) :
  -32768 <= v <= 32767 -> (-1 <= toFloat v <= 1)%Q.
Proof.
  intros Hv. unfold toFloat, Qle, Qdiv, Qmult, Qinv. cbn. lia.
Qed.

(** *** The encoder and the decoder, as the design document states them *)

(** C6 (as amended). For every sample rate [R] with [0 <= R] and
    [R * 2 < 2^32] and every PCM byte string of length [L] with
    [36 + L < 2^32] (of even length or not), [createWavBlob] succeeds, its
    output is a 44-byte header followed by the input bytes unmodified, and
    the header parses back to RIFF chunk size [36 + L], data sub-chunk size
    [L], sample rate [R], byte rate [R * 2] and block align 2. *)
Theorem createWavBlob_roundtrip (samples : list byte) (R : Z) :
  let L := Z.of_nat (length samples) in
  0 <= R -> R * 2 < 2 ^ 32 -> 36 + L < 2 ^ 32 ->
  exists header,
    createWavBlob samples R = Ok (mkBlob (header ++ samples) "audio/wav")
    /\ length header = 44%nat
    /\ getUint32 (header ++ samples) 4 = Ok (36 + L)
    /\ getUint32 (header ++ samples) 40 = Ok L
    /\ getUint32 (header ++ samples) 24 = Ok R
    /\ getUint32 (header ++ samples) 28 = Ok (R * 2)
    /\ getUint16 (header ++ samples) 32 = Ok 2.
Proof.
  intros L HR HR2 HL.
  exists (wavHeader L R).
  split; [apply createWavBlob_layout |].
  split; [apply wavHeader_length |].
  destruct (wav_fields_mod samples R) as (H4 & H40 & H24 & H28 & H32).
  fold L in H4, H40, H24, H28, H32.
  rewrite H4, H40, H24, H28, H32.
  rewrite !Z.mod_small by lia. repeat split.
Qed.

Lemma createWavBlob_roundtrip_witness :
  exists header,
    createWavBlob [x01; x00; xff; x7f] 24000
    = Ok (mkBlob (header ++ [x01; x00; xff; x7f]) "audio/wav")
    /\ length header = 44%nat
    /\ getUint32 (header ++ [x01; x00; xff; x7f]) 4 = Ok 40
    /\ getUint32 (header ++ [x01; x00; xff; x7f]) 40 = Ok 4
    /\ getUint32 (header ++ [x01; x00; xff; x7f]) 24 = Ok 24000
    /\ getUint32 (header ++ [x01; x00; xff; x7f]) 28 = Ok 48000
    /\ getUint16 (header ++ [x01; x00; xff; x7f]) 32 = Ok 2.
Proof.
  apply (createWavBlob_roundtrip [x01; x00; xff; x7f] 24000); cbn; lia.
Defined.

(** C6 as stated fails: at sample rate 2^31 with an empty payload the byte
    rate field holds [2^32 mod 2^32 = 0], not [R * 2]. *)
Lemma createWavBlob_byte_rate_wraps :
  let R := 2147483648 in
  exists blob,
    createWavBlob [] R = Ok blob
    /\ getUint32 (blob_bytes blob) 28 = Ok 0
    /\ getUint32 (blob_bytes blob) 28 <> Ok (R * 2).
Proof.
  eexists. split; [vm_compute; reflexivity |].
  split; [vm_compute; reflexivity | vm_compute; discriminate].
Qed.

(** The claim C8 as it is stated fails on the empty input, which has an even
    length: [createBuffer] throws on a buffer of no frame, so no buffer is
    decoded. *)
Lemma decodeVoice_rejects_empty :
  (length ([] : list byte) mod 2 = 0)%nat
  /\ decodeVoice [] webAudioLimits 24000 = Err NotSupportedError
  /\ decodeVoice [x00; x80] webAudioLimits 1 = Err NotSupportedError.
Proof. repeat split. Qed.

(** C8 (as amended). For every PCM input of even byte length that is not
    empty and every sample rate the audio context supports,
    [decodeAudioData] (as the player calls it) succeeds with a buffer of one
    channel at that sample rate, whose sample count is the byte length
    divided by 2, whose sample [i] is the 16-bit two's complement value of
    byte [2i] plus 256 times byte [2i+1], divided by 32768, and whose
    samples all lie in [-1, 1].  On the empty input and at a sample rate the
    context does not support, [createBuffer] throws a NotSupportedError and
    no buffer is decoded. *)
Theorem decodeVoice_samples (data : list byte) (ctx : ContextLimits)
    (sampleRate : Z) :
  (length data mod 2 = 0)%nat ->
  (data <> [] -> (1 <= maxChannels ctx)%nat ->
   minSampleRate ctx <= sampleRate <= maxSampleRate ctx ->
   exists channelData,
     decodeVoice data ctx sampleRate
     = Ok (mkAudioBuffer sampleRate [channelData])
     /\ numberOfChannels (mkAudioBuffer sampleRate [channelData]) = 1%nat
     /\ length channelData = (length data / 2)%nat
     /\ (forall i lo hi,
           data !! (2 * i)%nat = Some lo -> data !! (2 * i + 1)%nat = Some hi ->
           let u := Z.of_N (Byte.to_N lo) + 256 * Z.of_N (Byte.to_N hi) in
           channelData !! i
           = Some (inject_Z (if u <? 32768 then u else u - 65536) / 32768)%Q)
     /\ (forall x, x ∈ channelData -> (-1 <= x <= 1)%Q))
  /\ (data = [] \/ maxChannels ctx = 0%nat
      \/ sampleRate < minSampleRate ctx \/ maxSampleRate ctx < sampleRate ->
      decodeVoice data ctx sampleRate = Err NotSupportedError).
Proof.
  intros Hev. split.
  - intros Hne Hch Hrate. exists (toFloat <$> int16_elements data).
    split; [apply decodeVoice_even; assumption |].
    split; [reflexivity |].
    split; [rewrite length_fmap; apply int16_elements_length |].
    split.
    + intros i lo hi Hlo Hhi u.
      rewrite list_lookup_fmap, (int16_elements_lookup data i lo hi Hlo Hhi).
      destruct (int16_of_bytes_value lo hi) as [Hv _]. cbv zeta in Hv.
      cbn [fmap option_fmap option_map]. unfold toFloat. rewrite Hv.
      reflexivity.
    + intros x Hx.
      apply list_elem_of_fmap in Hx as (v & -> & Hv).
      apply toFloat_range, (int16_elements_range data), Hv.
  - intros Hbad.
    destruct (decodeVoice data ctx sampleRate) as [b | e] eqn:Hd.
    + apply decodeVoice_inv in Hd as (_ & Hne & Hch & Hr).
      unfold supportsRate in Hr.
      destruct Hbad as [-> | [H0 | H]]; [congruence | lia | lia].
    + f_equal. unfold decodeVoice, decodeAudioData in Hd.
      rewrite newInt16Array_even in Hd by exact Hev.
      cbn [mbind result_bind] in Hd.
      destruct (createBuffer _ _ _ _) as [buf | e'] eqn:Hb; [discriminate |].
      cbn [mbind result_bind] in Hd. injection Hd as <-.
      exact (createBuffer_Err _ _ _ _ _ Hb).
Qed.

Lemma decodeVoice_samples_witness :
  (exists channelData,
     decodeVoice [x00; x80; xff; x7f] webAudioLimits 24000
     = Ok (mkAudioBuffer 24000 [channelData])
     /\ channelData = [(-32768 # 32768)%Q; (32767 # 32768)%Q])
  /\ decodeVoice [x00; x80; xff; x7f] webAudioLimits 7999
     = Err NotSupportedError.
Proof.
  split.
  - destruct (decodeVoice_samples [x00; x80; xff; x7f] webAudioLimits 24000)
      as [H _]; [reflexivity |].
    destruct H as (channelData & Hd & _);
      [discriminate | cbn; lia | cbn; lia |].
    exists channelData. split; [exact Hd |].
    vm_compute in Hd. injection Hd as <-. reflexivity.
  - destruct (decodeVoice_samples [x00; x80; xff; x7f] webAudioLimits 7999)
      as [_ H]; [reflexivity |].
    apply H. right. right. left. cbn. lia.
Defined.

End AudioUtilsFacts.

Module PlayerFacts.
Import Player PlayerSpec.

(** *** Gain levels under playback *)

Ltac handler_cases :=
  repeat match goal with
  | |- context [match ?x with _ => _ end] => destruct x eqn:?; cbn
  end.

Lemma levels_stopSources s : levels (stopSources s) = levels s.
Proof. unfold stopSources. handler_cases; reflexivity. Qed.

Lemma levels_play s : levels (play s) = levels s.
Proof.
  unfold play, createBufferSource.
  set (s1 := if ctx_suspended (graph s) then _ else s).
  assert (H1 : levels s1 = levels s) by (unfold s1; handler_cases; reflexivity).
  rewrite <- H1, <- (levels_stopSources s1).
  generalize (stopSources s1). intros s2.
  handler_cases; reflexivity.
Qed.

Lemma levels_pause s : levels (pause s) = levels s.
Proof.
  unfold pause. unfold setIsPlaying, with_hooks.
  change (levels (stopSources (with_video (set_v_paused true) s)) = levels s).
  rewrite levels_stopSources. reflexivity.
Qed.

(** *** Sound sources: the playback session *)

Lemma sessionOK_view s s' :
  sessionView s' = sessionView s -> sessionOK s -> sessionOK s'.
Proof.
  unfold sessionView, sessionOK. intros [= Hs Hv Hb] H i n.
  rewrite Hs, Hv, Hb. apply H.
Qed.

Lemma quiet_view s s' :
  sessionView s' = sessionView s -> quiet s -> quiet s'.
Proof.
  unfold sessionView, quiet. intros [= Hs Hv Hb] H.
  rewrite Hs, Hv, Hb. apply H.
Qed.

(** Updates that leave the sources and their two cells alone. *)
Section SessionFrame.
Variable s : State.

Lemma sv_with_video f : sessionView (with_video f s) = sessionView s.
Proof. reflexivity. Qed.
Lemma sv_with_page f : sessionView (with_page f s) = sessionView s.
Proof. reflexivity. Qed.
Lemma sv_setIsPlaying b : sessionView (setIsPlaying b s) = sessionView s.
Proof. reflexivity. Qed.
Lemma sv_setIsRendering b : sessionView (setIsRendering b s) = sessionView s.
Proof. reflexivity. Qed.
Lemma sv_setRenderType t : sessionView (setRenderType t s) = sessionView s.
Proof. reflexivity. Qed.
End SessionFrame.

Create Rewrite HintDb sview.
#[local] Hint Rewrite sv_with_video sv_with_page sv_setIsPlaying
  sv_setIsRendering sv_setRenderType : sview.

(** Peel one such update off the state in the goal. *)
Ltac frame :=
  match goal with
  | |- sessionOK (?h ?x) =>
      apply (sessionOK_view x (h x));
      [ autorewrite with sview;
        match goal with |- ?a = ?a => reflexivity end | ]
  | |- quiet (?h ?x) =>
      apply (quiet_view x (h x));
      [ autorewrite with sview;
        match goal with |- ?a = ?a => reflexivity end | ]
  end.

Lemma quiet_sessionOK s : quiet s -> sessionOK s.
Proof.
  intros (_ & _ & H) i n Hi Hl. rewrite (H i n Hi) in Hl. discriminate.
Qed.

Lemma live_stopNode n : live (stopNode n) = false.
Proof.
  unfold live, stopNode. cbn. destruct (src_started n); reflexivity.
Qed.

Lemma dead_after_alter (l : list SourceNode) (k i : nat) (n : SourceNode) :
  alter stopNode k l !! i = Some n ->
  live n = true ->
  i <> k /\ l !! i = Some n.
Proof.
  intros Hi Hl. destruct (decide (i = k)) as [-> | Hne].
  - rewrite list_lookup_alter_eq in Hi.
    destruct (l !! k) as [m|]; [| discriminate].
    injection Hi as <-. rewrite live_stopNode in Hl. discriminate.
  - rewrite list_lookup_alter_ne in Hi by congruence. auto.
Qed.

Lemma stopSources_quiet s : sessionOK s -> quiet (stopSources s).
Proof.
  unfold stopSources, quiet, sessionOK.
  destruct s as [v g [[iv|] [ib|] vb bb d mr] h m p f]; cbn; intros Hok;
    (split; [reflexivity | split; [reflexivity |]]); intros i n Hi;
    destruct (live n) eqn:Hl; try reflexivity; exfalso.
  - apply dead_after_alter in Hi as [Hne1 Hi]; [| assumption].
    apply dead_after_alter in Hi as [Hne2 Hi]; [| assumption].
    destruct (Hok i n Hi Hl) as [[H _] | [H _]]; congruence.
  - apply dead_after_alter in Hi as [Hne1 Hi]; [| assumption].
    destruct (Hok i n Hi Hl) as [[H _] | [H _]]; congruence.
  - apply dead_after_alter in Hi as [Hne1 Hi]; [| assumption].
    destruct (Hok i n Hi Hl) as [[H _] | [H _]]; congruence.
  - destruct (Hok i n Hi Hl) as [[H _] | [H _]]; congruence.
Qed.

Lemma stopSources_length s :
  length (sources (graph (stopSources s))) = length (sources (graph s)).
Proof.
  unfold stopSources. handler_cases; rewrite ?length_alter; reflexivity.
Qed.

Lemma play_parts s :
  play s
  = setIsPlaying true
      (with_video (set_v_paused false)
         (startBackground (v_currentTime (video s))
            (startVoice (v_currentTime (video s))
               (stopSources (resumeContext s))))).
Proof.
  unfold play, startBackground, startVoice, resumeContext, createBufferSource.
  assert (Hv : forall x, video (stopSources x) = video x)
    by (intros x; unfold stopSources; handler_cases; reflexivity).
  rewrite Hv.
  replace (video (if ctx_suspended (graph s)
                  then with_graph (set_ctx_suspended false) s else s))
    with (video s) by (destruct (ctx_suspended (graph s)); reflexivity).
  generalize (stopSources (if ctx_suspended (graph s)
                           then with_graph (set_ctx_suspended false) s else s)).
  intros s2. destruct (voiceBufferRef (refs s2)) eqn:E1; cbn;
    destruct (bgBufferRef (refs s2)) eqn:E2; cbn; rewrite ?E2; reflexivity.
Qed.

Lemma startVoice_sessionOK t s :
  quiet s ->
  sessionOK (startVoice t s) /\ bgSourceRef (refs (startVoice t s)) = None.
Proof.
  intros (Hv & Hb & Hdead). unfold startVoice.
  destruct (voiceBufferRef (refs s)) as [b|]; cbn.
  - split; [| exact Hb]. intros i n Hi Hl. cbn in Hi |- *.
    apply lookup_app_Some in Hi as [Hi | [Hge Hi]].
    + rewrite (Hdead i n Hi) in Hl. discriminate.
    + destruct (i - length (sources (graph s)))%nat as [|k] eqn:Ek;
        [| destruct k; discriminate].
      injection Hi as <-. left. split; [f_equal; lia | reflexivity].
  - split; [| exact Hb]. apply quiet_sessionOK. repeat split; assumption.
Qed.

Lemma startBackground_sessionOK t s :
  sessionOK s -> bgSourceRef (refs s) = None ->
  sessionOK (startBackground t s).
Proof.
  intros Hok Hb. unfold startBackground.
  destruct (bgBufferRef (refs s)) as [b|]; [| exact Hok].
  intros i n Hi Hl. cbn in Hi |- *.
  apply lookup_app_Some in Hi as [Hi | [Hge Hi]].
  - destruct (Hok i n Hi Hl) as [H | [H _]]; [left; exact H | congruence].
  - destruct (i - length (sources (graph s)))%nat as [|k] eqn:Ek;
      [| destruct k; discriminate].
    injection Hi as <-. right. split; [f_equal; lia | reflexivity].
Qed.

Lemma sessionView_resumeContext s :
  sessionView (resumeContext s) = sessionView s.
Proof. unfold resumeContext. destruct (ctx_suspended (graph s)); reflexivity. Qed.

Lemma play_sessionOK s : sessionOK s -> sessionOK (play s).
Proof.
  intros Hok. rewrite play_parts. do 2 frame.
  apply (sessionOK_view _ _ (sessionView_resumeContext s)) in Hok.
  apply stopSources_quiet in Hok.
  destruct (startVoice_sessionOK (v_currentTime (video s)) _ Hok) as [H1 H2].
  apply startBackground_sessionOK; assumption.
Qed.

Lemma pause_quiet s : sessionOK s -> quiet (pause s).
Proof.
  intros Hok. unfold pause. frame.
  apply stopSources_quiet. frame. exact Hok.
Qed.

(** The sources of [play s]: those of [s], all stopped, then the new ones. *)
Lemma play_sources s :
  exists new,
    sources (graph (play s))
    = sources (graph (stopSources (resumeContext s))) ++ new.
Proof.
  rewrite play_parts. cbn.
  generalize (stopSources (resumeContext s)). intros s2.
  unfold startBackground, startVoice.
  destruct (voiceBufferRef (refs s2)) as [b|]; cbn;
    destruct (bgBufferRef (refs s2)) as [b'|]; cbn.
  - eexists. rewrite <- app_assoc. reflexivity.
  - eexists. reflexivity.
  - eexists. reflexivity.
  - exists []. rewrite app_nil_r. reflexivity.
Qed.

(** After [play], the sources that existed before are no longer live. *)
Lemma play_tears_down s i n :
  sessionOK s ->
  (i < length (sources (graph s)))%nat ->
  sources (graph (play s)) !! i = Some n ->
  live n = false.
Proof.
  intros Hok Hi Hn.
  destruct (play_sources s) as [new Hs]. rewrite Hs in Hn.
  apply (sessionOK_view _ _ (sessionView_resumeContext s)) in Hok.
  pose proof (stopSources_quiet _ Hok) as (_ & _ & Hdead).
  rewrite lookup_app_l in Hn.
  - exact (Hdead i n Hn).
  - rewrite stopSources_length.
    replace (sources (graph (resumeContext s))) with (sources (graph s)); [lia |].
    unfold resumeContext. destruct (ctx_suspended (graph s)); reflexivity.
Qed.

Lemma sessionOK_mounted limits capture suspended :
  sessionOK (mounted limits capture suspended).
Proof. intros i n Hi. discriminate. Qed.

Lemma performExport_sessionOK type s :
  sessionOK s -> sessionOK (performExport type s).
Proof.
  intros Hok. unfold performExport.
  destruct (voiceBufferRef (refs s)); [| exact Hok].
  assert (Hp : sessionOK (pause (setRenderType (Some type) (setIsRendering true s)))).
  { apply quiet_sessionOK, pause_quiet. do 2 frame. exact Hok. }
  cbv zeta.
  match goal with
  | |- sessionOK (match type with ExportVideo => _ | ExportAudio => ?a end) =>
      assert (Ha : sessionOK a)
  end.
  { frame. apply play_sessionOK. repeat frame. exact Hp. }
  destruct type; [| exact Ha].
  match goal with
  | |- sessionOK (if ?c then _ else _) => destruct c
  end; [exact Ha |].
  repeat frame. exact Hp.
Qed.

Lemma videoEnded_sessionOK s : sessionOK s -> sessionOK (videoEnded s).
Proof.
  intros Hok. unfold videoEnded. cbv zeta.
  set (s1 := if isRendering (hooks s) then _ else _).
  assert (H1 : sessionOK s1).
  { unfold s1. destruct (isRendering (hooks s)).
    - repeat frame. exact Hok.
    - apply quiet_sessionOK, stopSources_quiet. repeat frame. exact Hok. }
  destruct (v_onended (video s1)); [exact H1 | |].
  - do 2 frame. apply quiet_sessionOK, stopSources_quiet. frame. exact H1.
  - apply quiet_sessionOK, stopSources_quiet. frame. exact H1.
Qed.

Lemma step_sessionOK s e : sessionOK s -> sessionOK (step s e).
Proof.
  intros Hok. destruct e; cbn [step].
  - destruct (_ && _); [apply play_sessionOK |]; exact Hok.
  - destruct (_ || _); [exact Hok |]. unfold togglePlay.
    destruct (isPlaying (hooks s));
      [apply quiet_sessionOK, pause_quiet | apply play_sessionOK]; exact Hok.
  - destruct (isRendering (hooks s)); [exact Hok |]. unfold handleSeek. cbn.
    destruct (isPlaying (hooks s)).
    + apply play_sessionOK. repeat frame. exact Hok.
    + repeat frame. exact Hok.
  - destruct (_ || _); [exact Hok | apply performExport_sessionOK, Hok].
  - destruct (v_paused (video s)); [exact Hok | apply videoEnded_sessionOK, Hok].
  - destruct (v_paused (video s)); [exact Hok |].
    unfold timeUpdate. repeat frame. exact Hok.
  - apply (sessionOK_view s); [| exact Hok].
    unfold recorderOnStop. handler_cases; reflexivity.
  - apply (sessionOK_view s); [| exact Hok].
    destruct c; cbn; handler_cases; reflexivity.
  - apply (sessionOK_view s); [| exact Hok].
    destruct c; cbn; handler_cases; reflexivity.
  - apply (sessionOK_view s); [| exact Hok].
    unfold decodeTTS. handler_cases; reflexivity.
  - apply (sessionOK_view s); [| exact Hok].
    unfold loadBg. handler_cases; reflexivity.
  - destruct (v_paused (video s)); [repeat frame |]; exact Hok.
  - destruct (v_paused (video s)); [| repeat frame]; exact Hok.
Qed.

Lemma reachable_sessionOK s : reachable s -> sessionOK s.
Proof.
  induction 1; [apply sessionOK_mounted | apply step_sessionOK; assumption].
Qed.

Lemma reachable_run s es : reachable s -> reachable (run s es).
Proof.
  revert s. induction es as [|e es IH]; intros s Hs; [exact Hs |].
  apply IH. constructor. exact Hs.
Qed.

(** *** Numbers *)

Lemma Qltb_true (a b : Q) : Qltb a b = true <-> (a < b)%Q.
Proof.
  unfold Qltb. rewrite negb_true_iff, <- not_true_iff_false, Qle_bool_iff.
  split; [apply Qnot_le_lt | apply Qlt_not_le].
Qed.

Lemma Qltb_false (a b : Q) : Qltb a b = false <-> (b <= a)%Q.
Proof.
  unfold Qltb. rewrite negb_false_iff. apply Qle_bool_iff.
Qed.

Lemma Qtrunc_floor (q : Q) : (0 <= q)%Q -> Qtrunc q = Qfloor q.
Proof.
  destruct q as [n d]. unfold Qle, Qtrunc, Qfloor. cbn. intros Hn.
  apply Z.quot_div_nonneg; lia.
Qed.

(** For a time [a >= 0] and a duration [b > 0], [a % b] is the offset of [a]
    within its period: it lies in [0, b) and differs from [a] by a whole
    number of periods. *)
Lemma js_rem_spec (a b : Q) :
  (0 <= a)%Q -> (0 < b)%Q ->
  (0 <= js_rem a b < b)%Q
  /\ exists k : Z, (0 <= k)%Z /\ (a == js_rem a b + inject_Z k * b)%Q.
Proof.
  intros Ha Hb. unfold js_rem.
  assert (Hq : (0 <= a / b)%Q).
  { apply Qle_shift_div_l; [assumption | rewrite Qmult_0_l; assumption]. }
  rewrite (Qtrunc_floor _ Hq).
  pose proof (Qfloor_le (a / b)) as Hlo.
  pose proof (Qlt_floor (a / b)) as Hhi.
  rewrite inject_Z_plus in Hhi. change (inject_Z 1) with 1%Q in Hhi.
  assert (Hk : (0 <= Qfloor (a / b))%Z).
  { change 0%Z with (Qfloor 0). apply Qfloor_resp_le, Hq. }
  assert (Hab : (a == b * (a / b))%Q).
  { symmetry. apply Qmult_div_r. lra. }
  set (K := inject_Z (Qfloor (a / b))) in *.
  set (q := (a / b)%Q) in *.
  assert (H0 : (0 <= b * (q - K))%Q).
  { apply Qmult_le_0_compat; lra. }
  assert (H1 : (b * (q - K) < b * 1)%Q).
  { rewrite !(Qmult_comm b). apply Qmult_lt_r; lra. }
  rewrite Qred_correct.
  split; [split; lra |].
  exists (Qfloor (a / b)). split; [assumption |].
  fold q K. rewrite Qred_correct. lra.
Qed.

(** *** What [play] starts *)

Lemma buffers_stopSources s :
  voiceBufferRef (refs (stopSources s)) = voiceBufferRef (refs s)
  /\ bgBufferRef (refs (stopSources s)) = bgBufferRef (refs s).
Proof.
  unfold stopSources.
  destruct s as [v g [[iv|] [ib|] vb bb d mr] h m p f]; cbn; auto.
Qed.

Lemma buffers_resumeContext s :
  voiceBufferRef (refs (resumeContext s)) = voiceBufferRef (refs s)
  /\ bgBufferRef (refs (resumeContext s)) = bgBufferRef (refs s).
Proof. unfold resumeContext. destruct (ctx_suspended (graph s)); auto. Qed.

Lemma torn_facts s :
  sessionOK s ->
  quiet (torn s)
  /\ voiceBufferRef (refs (torn s)) = voiceBufferRef (refs s)
  /\ bgBufferRef (refs (torn s)) = bgBufferRef (refs s).
Proof.
  intros Hok. unfold torn.
  destruct (buffers_stopSources (resumeContext s)) as [-> ->].
  destruct (buffers_resumeContext s) as [-> ->].
  split; [| auto].
  apply stopSources_quiet.
  apply (sessionOK_view _ _ (sessionView_resumeContext s)), Hok.
Qed.

Lemma play_view s :
  refs (play s)
  = refs (startBackground (v_currentTime (video s))
            (startVoice (v_currentTime (video s)) (torn s)))
  /\ sources (graph (play s))
     = sources (graph (startBackground (v_currentTime (video s))
                         (startVoice (v_currentTime (video s)) (torn s)))).
Proof. rewrite play_parts. split; reflexivity. Qed.

Lemma startVoice_buffers t s :
  bgBufferRef (refs (startVoice t s)) = bgBufferRef (refs s).
Proof. unfold startVoice. destruct (voiceBufferRef (refs s)); reflexivity. Qed.

(** The Voice source of [play]: named by the cell, wired to the Voice gain,
    started at the video time if that is before the end of the buffer. *)
Lemma play_voice_source s b :
  voiceBufferRef (refs s) = Some b -> sessionOK s ->
  exists i,
    voiceSourceRef (refs (play s)) = Some i
    /\ sources (graph (play s)) !! i
       = Some (mkSource b false (Some Voice)
                 (if Qltb (v_currentTime (video s)) (duration b)
                  then Some (v_currentTime (video s)) else None) false).
Proof.
  intros Hb Hok. destruct (play_view s) as [-> ->].
  destruct (torn_facts s Hok) as (_ & Hvb & _). rewrite Hb in Hvb.
  generalize dependent (torn s). intros s2 Hvb.
  exists (length (sources (graph s2))).
  unfold startVoice. rewrite Hvb.
  unfold startBackground. cbn.
  destruct (bgBufferRef (refs s2)); cbn.
  - split; [reflexivity |].
    rewrite lookup_app_l by (rewrite length_app; cbn; lia).
    apply list_lookup_middle. reflexivity.
  - split; [reflexivity |]. apply list_lookup_middle. reflexivity.
Qed.

Lemma play_background_source s b :
  bgBufferRef (refs s) = Some b -> sessionOK s ->
  exists i,
    bgSourceRef (refs (play s)) = Some i
    /\ sources (graph (play s)) !! i
       = Some (mkSource b true (Some Background)
                 (Some (js_rem (v_currentTime (video s)) (duration b))) false).
Proof.
  intros Hb Hok. destruct (play_view s) as [-> ->].
  destruct (torn_facts s Hok) as (_ & _ & Hbb). rewrite Hb in Hbb.
  rewrite <- (startVoice_buffers (v_currentTime (video s))) in Hbb.
  generalize dependent (startVoice (v_currentTime (video s)) (torn s)).
  intros s3 Hbb.
  exists (length (sources (graph s3))).
  unfold startBackground. rewrite Hbb. cbn.
  split; [reflexivity |]. apply list_lookup_middle. reflexivity.
Qed.

Lemma play_no_voice_buffer s :
  voiceBufferRef (refs s) = None -> sessionOK s ->
  voiceSourceRef (refs (play s)) = None.
Proof.
  intros Hb Hok. destruct (play_view s) as [-> _].
  destruct (torn_facts s Hok) as ((Hv & _) & Hvb & _). rewrite Hb in Hvb.
  unfold startVoice. rewrite Hvb.
  unfold startBackground. destruct (bgBufferRef (refs (torn s))); exact Hv.
Qed.

(** C3. For a [play()] at video time [t] (in any state the component can
    reach): with a Voice buffer and [t] before its end, the Voice source is
    started at offset [t]; with [t] at or past its end, the Voice source is
    not started, and no source wired to the Voice gain is; with a Background
    buffer (of positive duration, [t >= 0]) a looping Background source is
    started at [t % duration], the offset of [t] within the period, whatever
    happened to Voice. *)
Theorem play_starts_sources (s : State) :
  reachable s ->
  let t := v_currentTime (video s) in
  (forall b, voiceBufferRef (refs s) = Some b ->
     exists i,
       voiceSourceRef (refs (play s)) = Some i
       /\ ((t < duration b)%Q ->
           sources (graph (play s)) !! i
           = Some (mkSource b false (Some Voice) (Some t) false))
       /\ ((duration b <= t)%Q ->
           forall j n, sources (graph (play s)) !! j = Some n ->
                       src_output n = Some Voice -> src_started n = None))
  /\ (forall b, bgBufferRef (refs s) = Some b ->
        (0 <= t)%Q -> (0 < duration b)%Q ->
        exists i offset,
          bgSourceRef (refs (play s)) = Some i
          /\ sources (graph (play s)) !! i
             = Some (mkSource b true (Some Background) (Some offset) false)
          /\ offset = js_rem t (duration b)
          /\ (0 <= offset < duration b)%Q
          /\ exists k : Z, 0 <= k /\ (t == offset + inject_Z k * duration b)%Q).
Proof.
  intros Hr t. pose proof (reachable_sessionOK s Hr) as Hok.
  split.
  - intros b Hb.
    destruct (play_voice_source s b Hb Hok) as (i & Hi & Hn).
    exists i. split; [exact Hi |]. fold t in Hn. split.
    + intros Hlt. apply Qltb_true in Hlt. rewrite Hlt in Hn. exact Hn.
    + intros Hge j n Hj Hout.
      apply Qltb_false in Hge. rewrite Hge in Hn.
      assert (Hl : live n = true) by (unfold live; rewrite Hout; reflexivity).
      destruct (play_sessionOK s Hok j n Hj Hl) as [[Hjv _] | [_ Ho]];
        [| congruence].
      rewrite Hi in Hjv. injection Hjv as <-.
      rewrite Hn in Hj. injection Hj as <-. reflexivity.
  - intros b Hb Ht Hd.
    destruct (play_background_source s b Hb Hok) as (i & Hi & Hn).
    exists i, (js_rem t (duration b)).
    split; [exact Hi |]. split; [exact Hn |]. split; [reflexivity |].
    apply js_rem_spec; assumption.
Qed.

Lemma play_starts_sources_witness :
  reachable scenario
  /\ (forall j n, sources (graph (play scenario)) !! j = Some n ->
                  src_output n = Some Voice -> src_started n = None)
  /\ exists i offset,
       bgSourceRef (refs (play scenario)) = Some i
       /\ sources (graph (play scenario)) !! i
          = Some (mkSource bg3 true (Some Background) (Some offset) false)
       /\ offset = 0%Q.
Proof.
  assert (Hr : reachable scenario) by (apply reachable_run; constructor).
  destruct (play_starts_sources scenario Hr) as [HV HB].
  split; [exact Hr |]. split.
  - destruct (HV decoded5 eq_refl)
      as (i & _ & _ & Hge).
    apply Hge. vm_compute. discriminate.
  - destruct (HB bg3 eq_refl) as (i & o & Hi & Hn & Ho & _).
    + vm_compute. discriminate.
    + vm_compute. reflexivity.
    + exists i, o. split; [exact Hi |]. split; [exact Hn |].
      rewrite Ho. reflexivity.
Defined.

(** The same scenario, computed: the Voice source exists but was not started,
    the Background source loops from offset 0. *)
Example play_scenario :
  AudioUtils.decodeVoice voice5 wideLimits 1 = Ok decoded5
  /\ duration decoded5 = 5%Q
  /\ duration bg3 = 3%Q
  /\ v_currentTime (video scenario) = 6%Q
  /\ sources (graph (play scenario))
     = [mkSource decoded5 false (Some Voice) None false;
        mkSource bg3 true (Some Background) (Some 0%Q) false].
Proof. vm_compute. repeat split. Qed.

(** *** Seeking *)

Lemma play_pause s : play (pause s) = play s.
Proof.
  destruct s as [v [sus vg bg og src dn lim] [[iv|] [ib|] [vb|] [bb|] d mr] h m p f];
    destruct sus; vm_compute; reflexivity.
Qed.

Lemma video_torn s : video (torn s) = video s.
Proof.
  unfold torn, stopSources, resumeContext.
  destruct s as [v [sus vg bg og src dn lim] [[iv|] [ib|] vb bb d mr] h m p f];
    destruct sus; reflexivity.
Qed.

Lemma play_keeps_time s :
  v_currentTime (video (play s)) = v_currentTime (video s).
Proof.
  rewrite play_parts. fold (torn s). cbn.
  rewrite <- (video_torn s) at 3.
  generalize (v_currentTime (video s)). generalize (torn s). intros x t.
  unfold startBackground, startVoice.
  destruct (voiceBufferRef (refs x)); cbn;
    destruct (bgBufferRef (refs x)); reflexivity.
Qed.

Lemma handleSeek_playing t s :
  isPlaying (hooks s) = true -> handleSeek t s = play (positioned t s).
Proof. intros Hp. unfold handleSeek. cbn. rewrite Hp. reflexivity. Qed.

Lemma play_tearsDown s x :
  sessionOK x ->
  length (sources (graph x)) = length (sources (graph s)) ->
  tearsDown s (play x).
Proof.
  intros Hok Hlen i n Hi Hn.
  apply (play_tears_down x i n); [exact Hok | | exact Hn].
  rewrite Hlen. exact Hi.
Qed.

Lemma view_length x y :
  sessionView x = sessionView y ->
  length (sources (graph x)) = length (sources (graph y)).
Proof. intros [= -> _ _]. reflexivity. Qed.

Lemma pause_length s :
  length (sources (graph (pause s))) = length (sources (graph s)).
Proof.
  unfold pause. cbn.
  apply (stopSources_length (with_video (set_v_paused true) s)).
Qed.

Lemma tearsDown_view s x y :
  sessionView y = sessionView x -> tearsDown s x -> tearsDown s y.
Proof. unfold tearsDown. intros [= -> _ _] H. exact H. Qed.

Lemma quiet_tearsDown s x : quiet x -> tearsDown s x.
Proof. intros (_ & _ & Hdead) i n _ Hn. exact (Hdead i n Hn). Qed.

(** C4. While playing, [seek(t)] leaves the component in the very state that
    [pause()] then [play()] leave it in with the video positioned at [t]:
    no source that existed before the seek is live afterwards, and the Voice
    and Background sources of the new session are started from [t]. *)
Theorem seek_is_pause_play (t : Q) (s : State) :
  reachable s -> isPlaying (hooks s) = true ->
  handleSeek t s = play (pause (positioned t s))
  /\ v_currentTime (video (handleSeek t s)) = t
  /\ tearsDown s (handleSeek t s)
  /\ (forall b, voiceBufferRef (refs s) = Some b ->
        exists i,
          voiceSourceRef (refs (handleSeek t s)) = Some i
          /\ sources (graph (handleSeek t s)) !! i
             = Some (mkSource b false (Some Voice)
                       (if Qltb t (duration b) then Some t else None) false))
  /\ (forall b, bgBufferRef (refs s) = Some b ->
        exists i,
          bgSourceRef (refs (handleSeek t s)) = Some i
          /\ sources (graph (handleSeek t s)) !! i
             = Some (mkSource b true (Some Background)
                       (Some (js_rem t (duration b))) false)).
Proof.
  intros Hr Hp. pose proof (reachable_sessionOK s Hr) as Hok.
  assert (Hpos : sessionOK (positioned t s))
    by (unfold positioned; repeat frame; exact Hok).
  rewrite (handleSeek_playing t s Hp), play_pause.
  split; [reflexivity |]. split.
  { rewrite play_keeps_time. reflexivity. }
  split.
  { apply play_tearsDown; [exact Hpos | reflexivity]. }
  split.
  - intros b Hb. apply (play_voice_source (positioned t s) b Hb Hpos).
  - intros b Hb. apply (play_background_source (positioned t s) b Hb Hpos).
Qed.

Lemma seek_is_pause_play_witness :
  handleSeek 2%Q (step scenario ClickOverlay)
  = play (pause (positioned 2%Q (step scenario ClickOverlay)))
  /\ tearsDown (step scenario ClickOverlay)
       (handleSeek 2%Q (step scenario ClickOverlay)).
Proof.
  destruct (seek_is_pause_play 2%Q (step scenario ClickOverlay))
    as (H1 & _ & H2 & _).
  - constructor. apply reachable_run. constructor.
  - reflexivity.
  - split; assumption.
Defined.

(** *** One session at a time *)

Lemma performExport_tearsDown type s :
  is_Some (voiceBufferRef (refs s)) -> sessionOK s ->
  tearsDown s (performExport type s).
Proof.
  intros [b Hb] Hok. unfold performExport. rewrite Hb. cbv zeta.
  set (P := pause _).
  assert (HP : quiet P).
  { unfold P. apply pause_quiet. do 2 frame. exact Hok. }
  assert (HPs : length (sources (graph P)) = length (sources (graph s)))
    by (unfold P; rewrite pause_length; reflexivity).
  match goal with
  | |- tearsDown s (match type with ExportVideo => _ | ExportAudio => ?a end) =>
      assert (Ha : tearsDown s a)
  end.
  { match goal with
    | |- tearsDown s (?h ?x) =>
        apply (tearsDown_view s x (h x)); [apply sv_with_video |]
    end.
    apply play_tearsDown.
    - repeat frame. apply quiet_sessionOK, HP.
    - rewrite <- HPs. apply view_length.
      autorewrite with sview. reflexivity. }
  destruct type; [| exact Ha].
  match goal with
  | |- tearsDown s (if ?c then _ else _) => destruct c
  end; [exact Ha |].
  apply quiet_tearsDown. repeat frame. exact HP.
Qed.



(** *** The mixer *)

Section LevelsFrame.
Variable s : State.

Lemma lv_with_video f : levels (with_video f s) = levels s.
Proof. reflexivity. Qed.
Lemma lv_with_page f : levels (with_page f s) = levels s.
Proof. reflexivity. Qed.
Lemma lv_with_refs f : levels (with_refs f s) = levels s.
Proof. reflexivity. Qed.
Lemma lv_setIsPlaying b : levels (setIsPlaying b s) = levels s.
Proof. reflexivity. Qed.
Lemma lv_setIsRendering b : levels (setIsRendering b s) = levels s.
Proof. reflexivity. Qed.
Lemma lv_set_destinations n :
  levels (with_graph (set_destinations n) s) = levels s.
Proof. reflexivity. Qed.
Lemma lv_connectGains o : levels (with_graph (connectGains o) s) = levels s.
Proof. reflexivity. Qed.
End LevelsFrame.

Create Rewrite HintDb lview.
#[local] Hint Rewrite lv_with_video lv_with_page lv_with_refs lv_setIsPlaying
  lv_setIsRendering lv_set_destinations lv_connectGains levels_stopSources
  levels_play levels_pause : lview.

Lemma levels_performExport type s : levels (performExport type s) = levels s.
Proof.
  unfold performExport. destruct (voiceBufferRef (refs s)); [| reflexivity].
  cbv zeta.
  destruct type; [destruct (v_captureStream _) |];
    autorewrite with lview; reflexivity.
Qed.

Lemma levels_videoEnded s : levels (videoEnded s) = levels s.
Proof.
  unfold videoEnded. cbv zeta.
  set (s1 := if isRendering (hooks s) then _ else _).
  assert (H1 : levels s1 = levels s).
  { unfold s1. destruct (isRendering (hooks s));
      autorewrite with lview; reflexivity. }
  rewrite <- H1. clearbody s1.
  destruct (v_onended (video s1)); autorewrite with lview; reflexivity.
Qed.

Lemma levels_recorderOnStop r s : levels (recorderOnStop r s) = levels s.
Proof. unfold recorderOnStop. handler_cases; reflexivity. Qed.

Lemma gainsSynced_levels s s' :
  levels s' = levels s -> gainsSynced s -> gainsSynced s'.
Proof.
  unfold levels, gainsSynced. intros [= Hm Hv Hb Ho] H c.
  specialize (H c).
  destruct c; unfold effectiveGain, muted, storedGain, gainNode in *;
    rewrite ?Hm, ?Hv, ?Hb, ?Ho; exact H.
Qed.

Lemma gainsSynced_changeVolume c v s :
  gainsSynced s -> gainsSynced (changeVolume c v s).
Proof.
  intros H c'. pose proof (H c') as Hc'.
  destruct c, c'; cbn in *; try exact Hc'; reflexivity.
Qed.

Lemma gainsSynced_toggleMute c s :
  gainsSynced s -> gainsSynced (toggleMute c s).
Proof.
  intros H c'. pose proof (H c') as Hc'.
  destruct c, c'; cbn in *; try exact Hc'; reflexivity.
Qed.

Lemma step_gainsSynced s e : gainsSynced s -> gainsSynced (step s e).
Proof.
  intros H. destruct e; cbn [step].
  - destruct (_ && _); [| exact H].
    apply (gainsSynced_levels s); [apply levels_play | exact H].
  - destruct (_ || _); [exact H |]. unfold togglePlay.
    destruct (isPlaying (hooks s));
      (apply (gainsSynced_levels s); [| exact H]);
      [apply levels_pause | apply levels_play].
  - destruct (isRendering (hooks s)); [exact H |].
    apply (gainsSynced_levels s); [| exact H].
    unfold handleSeek. cbn. destruct (isPlaying (hooks s));
      autorewrite with lview; reflexivity.
  - destruct (_ || _); [exact H |].
    apply (gainsSynced_levels s); [apply levels_performExport | exact H].
  - destruct (v_paused (video s)); [exact H |].
    apply (gainsSynced_levels s); [apply levels_videoEnded | exact H].
  - destruct (v_paused (video s)); [exact H |].
    apply (gainsSynced_levels s); [reflexivity | exact H].
  - apply (gainsSynced_levels s); [apply levels_recorderOnStop | exact H].
  - match goal with |- gainsSynced (if ?d then _ else _) => destruct d end;
      [exact H | apply gainsSynced_changeVolume, H].
  - match goal with |- gainsSynced (if ?d then _ else _) => destruct d end;
      [exact H | apply gainsSynced_toggleMute, H].
  - apply (gainsSynced_levels s); [| exact H].
    unfold decodeTTS. handler_cases; reflexivity.
  - apply (gainsSynced_levels s); [| exact H].
    unfold loadBg. handler_cases; reflexivity.
  - destruct (v_paused (video s)); [| exact H].
    apply (gainsSynced_levels s); [reflexivity | exact H].
  - destruct (v_paused (video s)); [exact H |].
    apply (gainsSynced_levels s); [reflexivity | exact H].
Qed.

Lemma reachable_gainsSynced s : reachable s -> gainsSynced s.
Proof.
  induction 1 as [limits capture suspended | s e Hr IH];
    [intros []; reflexivity | apply step_gainsSynced, IH].
Qed.

(** *** Single precision *)

Lemma pow2_pos k : (0 < pow2 k)%Q.
Proof. apply Qpower_0_lt. reflexivity. Qed.

Lemma pow2_add a b : (pow2 (a + b) == pow2 a * pow2 b)%Q.
Proof. apply Qpower_plus. discriminate. Qed.

Lemma pow2_le a b : a <= b -> (pow2 a <= pow2 b)%Q.
Proof. intros H. apply Qpower_le_compat_l; [exact H | discriminate]. Qed.

Lemma pow2_lt a b : a < b -> (pow2 a < pow2 b)%Q.
Proof. intros H. apply Qpower_lt_compat_l; [exact H | reflexivity]. Qed.

Lemma pow2_Z k : 0 <= k -> (pow2 k == inject_Z (2 ^ k))%Q.
Proof. intros H. unfold pow2. rewrite Zpower_Qpower by exact H. reflexivity. Qed.

Lemma Q_as_div (q : Q) : (q == inject_Z (Qnum q) / inject_Z (Zpos (Qden q)))%Q.
Proof. destruct q as [a d]. cbn [Qnum Qden]. apply Qmake_Qdiv. Qed.

(** [ilog2] finds the binade. *)
Lemma ilog2_spec (q : Q) :
  (0 < q)%Q -> (pow2 (ilog2 q) <= q < pow2 (ilog2 q + 1))%Q.
Proof.
  intros Hq.
  assert (Ha : 0 < Qnum q) by (destruct q as [a d]; unfold Qlt in Hq; cbn in *; lia).
  assert (Habs : Qabs q = q).
  { destruct q as [a d]. cbn in *. rewrite Z.abs_eq by lia. reflexivity. }
  unfold ilog2. rewrite Habs, Z.abs_eq by lia.
  set (la := Z.log2 (Qnum q)). set (ld := Z.log2 (Zpos (Qden q))).
  destruct (Z.log2_spec (Qnum q) Ha) as [Ha1 Ha2]. fold la in Ha1, Ha2.
  destruct (Z.log2_spec (Zpos (Qden q)) eq_refl) as [Hd1 Hd2]. fold ld in Hd1, Hd2.
  assert (Hla : 0 <= la) by apply Z.log2_nonneg.
  assert (Hld : 0 <= ld) by apply Z.log2_nonneg.
  (* q * d = a *)
  assert (Hqd : (q * inject_Z (Zpos (Qden q)) == inject_Z (Qnum q))%Q).
  { destruct q as [a d]. unfold Qeq, Qmult, inject_Z. cbn. lia. }
  assert (Hdpos : (0 < inject_Z (Zpos (Qden q)))%Q) by reflexivity.
  assert (Ha1' : (pow2 la <= inject_Z (Qnum q))%Q).
  { rewrite pow2_Z by lia. rewrite <- Zle_Qle. exact Ha1. }
  assert (Ha2' : (inject_Z (Qnum q) < pow2 (la + 1))%Q).
  { rewrite pow2_Z by lia. rewrite <- Zlt_Qlt. exact Ha2. }
  assert (Hd1' : (pow2 ld <= inject_Z (Zpos (Qden q)))%Q).
  { rewrite pow2_Z by lia. rewrite <- Zle_Qle. exact Hd1. }
  assert (Hd2' : (inject_Z (Zpos (Qden q)) < pow2 (ld + 1))%Q).
  { rewrite pow2_Z by lia. rewrite <- Zlt_Qlt. exact Hd2. }
  (* upper: q < pow2 (la - ld + 1) *)
  assert (Hup : (q < pow2 (la - ld + 1))%Q).
  { apply Qmult_lt_r with (z := inject_Z (Zpos (Qden q))); [exact Hdpos |].
    rewrite Hqd.
    apply Qlt_le_trans with (pow2 (la + 1)); [exact Ha2' |].
    replace (la + 1) with ((la - ld + 1) + ld) by lia.
    rewrite pow2_add.
    apply Qmult_le_l; [apply pow2_pos | exact Hd1']. }
  assert (Hlow : (pow2 (la - ld - 1) <= q)%Q).
  { apply Qmult_le_r with (z := inject_Z (Zpos (Qden q))); [exact Hdpos |].
    rewrite Hqd.
    apply Qle_trans with (pow2 la); [| exact Ha1'].
    replace la with ((la - ld - 1) + (ld + 1)) at 2 by lia.
    rewrite pow2_add.
    apply Qmult_le_l; [apply pow2_pos | apply Qlt_le_weak, Hd2']. }
  destruct (Qle_bool (pow2 (la - ld)) q) eqn:Hb.
  - apply Qle_bool_iff in Hb. split; assumption.
  - assert (Hn : ~ (pow2 (la - ld) <= q)%Q)
      by (intros H; apply Qle_bool_iff in H; congruence).
    apply Qnot_le_lt in Hn. split; [exact Hlow |].
    replace (la - ld - 1 + 1) with (la - ld) by lia. exact Hn.
Qed.

(** [roundHalfEven] is within a half of its argument. *)
Lemma roundHalfEven_spec (r : Q) :
  (- (1 # 2) <= inject_Z (roundHalfEven r) - r <= 1 # 2)%Q.
Proof.
  unfold roundHalfEven.
  pose proof (Qfloor_le r) as Hlo. pose proof (Qlt_floor r) as Hhi.
  rewrite inject_Z_plus in Hhi. change (inject_Z 1) with 1%Q in Hhi.
  set (f := Qfloor r) in *.
  destruct (Qcompare_spec (r - inject_Z f) (1 # 2)) as [He | Hl | Hg].
  - destruct (Z.even f); [lra |].
    rewrite inject_Z_plus. change (inject_Z 1) with 1%Q. lra.
  - lra.
  - rewrite inject_Z_plus. change (inject_Z 1) with 1%Q. lra.
Qed.

Lemma Qabs_le_iff (x y : Q) : (Qabs x <= y <-> - y <= x <= y)%Q.
Proof. apply Qabs_Qle_condition. Qed.

Lemma Qabs_ge (x c : Q) : (c <= x \/ c <= - x -> c <= Qabs x)%Q.
Proof.
  intros [H | H].
  - apply Qle_trans with x; [exact H | apply Qle_Qabs].
  - apply Qle_trans with (- x)%Q; [exact H |].
    rewrite <- Qabs_opp. apply Qle_Qabs.
Qed.

(** No integer is nearer. *)
Lemma roundHalfEven_nearest (r : Q) (j : Z) :
  (Qabs (inject_Z (roundHalfEven r) - r) <= Qabs (inject_Z j - r))%Q.
Proof.
  pose proof (roundHalfEven_spec r) as [H1 H2].
  set (m := roundHalfEven r) in *.
  destruct (Z.eq_dec j m) as [-> | Hne]; [apply Qle_refl |].
  apply Qle_trans with (1 # 2)%Q; [apply Qabs_le_iff; split; lra |].
  apply Qabs_ge.
  destruct (Z.lt_ge_cases j m) as [Hlt | Hge].
  - right. assert (Hj : (inject_Z j <= inject_Z (m + -1))%Q)
      by (rewrite <- Zle_Qle; lia).
    rewrite inject_Z_plus in Hj. change (inject_Z (-1)) with (-1)%Q in Hj.
    lra.
  - left. assert (Hj : (inject_Z m + 1 <= inject_Z j)%Q).
    { change 1%Q with (inject_Z 1). rewrite <- inject_Z_plus.
      rewrite <- Zle_Qle. lia. }
    lra.
Qed.

Lemma roundHalfEven_mono_bound (r : Q) (n : Z) :
  (0 <= r)%Q -> (r <= inject_Z n)%Q -> 0 <= roundHalfEven r <= n.
Proof.
  intros H0 Hn. pose proof (roundHalfEven_spec r) as [H1 H2].
  set (m := roundHalfEven r) in *.
  split.
  - destruct (Z.lt_ge_cases m 0) as [Hlt | Hge]; [| lia].
    assert (Hm : (inject_Z m <= inject_Z (-1))%Q)
      by (rewrite <- Zle_Qle; lia).
    change (inject_Z (-1)) with (-1)%Q in Hm. lra.
  - destruct (Z.lt_ge_cases n m) as [Hlt | Hge]; [| lia].
    assert (Hm : (inject_Z n + 1 <= inject_Z m)%Q).
    { change 1%Q with (inject_Z 1). rewrite <- inject_Z_plus.
      rewrite <- Zle_Qle. lia. }
    lra.
Qed.

(** The value of [fround] on a positive number. *)
Lemma fround_pos (q : Q) :
  (0 < q)%Q ->
  let ulp := pow2 (Z.max (ilog2 q) (-126) - 23) in
  (fround q == inject_Z (roundHalfEven (q / ulp)) * ulp)%Q.
Proof.
  intros Hq ulp.
  assert (Ha : 0 < Qnum q) by (destruct q as [a d]; unfold Qlt in Hq; cbn in *; lia).
  assert (Habs : Qabs q = q).
  { destruct q as [a d]. cbn in *. rewrite Z.abs_eq by lia. reflexivity. }
  unfold fround.
  destruct (Qeq_bool q 0) eqn:Hz.
  { apply Qeq_bool_iff in Hz. lra. }
  cbv zeta. fold ulp. rewrite Habs, Qred_correct.
  rewrite Z.sgn_pos by exact Ha. rewrite Z.mul_1_l. reflexivity.
Qed.

Lemma Qabs_scale (u a : Q) : (0 < u)%Q -> (Qabs (u * a) == u * Qabs a)%Q.
Proof.
  intros Hu. rewrite Qabs_Qmult, (Qabs_pos u) by lra. reflexivity.
Qed.

(** [fround] rounds to a nearest single-precision number. *)
Lemma fround_nearest (q : Q) :
  (0 <= q)%Q -> (q < pow2 127)%Q -> nearestSingle q (fround q).
Proof.
  intros H0 Hmax.
  destruct (Qeq_dec q 0) as [Hz | Hnz].
  { assert (Hf : fround q = 0%Q).
    { unfold fround. apply Qeq_bool_iff in Hz. rewrite Hz. reflexivity. }
    rewrite Hf. split.
    - exists 0, 0. split; [reflexivity |]. split; [lia | reflexivity].
    - intros y _. rewrite Hz. apply Qle_trans with 0%Q; [| apply Qabs_nonneg].
      apply Qle_refl. }
  assert (Hq : (0 < q)%Q) by lra.
  pose proof (fround_pos q Hq) as Hx. cbv zeta in Hx.
  destruct (ilog2_spec q Hq) as [He1 He2].
  set (e := ilog2 q) in *. set (k0 := Z.max e (-126) - 23) in *.
  set (ulp := pow2 k0) in *. set (r := (q / ulp)%Q) in *.
  set (m := roundHalfEven r) in *.
  assert (Hulp : (0 < ulp)%Q) by apply pow2_pos.
  assert (Hqr : (q == ulp * r)%Q) by (unfold r; field; lra).
  assert (Hr0 : (0 <= r)%Q).
  { unfold r. apply Qle_shift_div_l; [exact Hulp | lra]. }
  assert (He : e <= 126).
  { assert (H : (pow2 e < pow2 127)%Q) by lra.
    apply Qpower_lt_compat_l_inv in H; [lia | reflexivity]. }
  assert (Hr24 : (r <= inject_Z (2 ^ 24))%Q).
  { unfold r. apply Qle_shift_div_r; [exact Hulp |].
    rewrite <- pow2_Z by lia. unfold ulp. rewrite <- pow2_add.
    apply Qle_trans with (pow2 (e + 1)); [lra | apply pow2_le; lia]. }
  destruct (roundHalfEven_mono_bound r (2 ^ 24) Hr0 Hr24) as [Hm0 Hm24].
  fold m in Hm0, Hm24.
  assert (Hxq : forall j, (inject_Z j * ulp - q == ulp * (inject_Z j - r))%Q).
  { intros j. rewrite Hqr. ring. }
  split.
  - (* the result is a single-precision number *)
    destruct (Z.eq_dec m (2 ^ 24)) as [Hm | Hm].
    + exists (2 ^ 23), (k0 + 1). split; [reflexivity |]. split; [lia |].
      rewrite Hx, Hm. fold (pow2 (k0 + 1)). rewrite pow2_add. fold ulp.
      change (pow2 1) with 2%Q.
      change (inject_Z (2 ^ 24)) with (2 * inject_Z (2 ^ 23))%Q. ring.
    + exists m, k0. split; [lia |]. split; [lia |]. exact Hx.
  - (* no other is nearer *)
    intros y (n & k & Hn & Hk & Hy).
    rewrite Hx, Hxq, Qabs_scale by exact Hulp.
    fold (pow2 k) in Hy.
    destruct (Z.le_gt_cases k0 k) as [Hge | Hlt].
    + (* y is on the grid of q *)
      assert (Hyj : (y == inject_Z (n * 2 ^ (k - k0)) * ulp)%Q).
      { rewrite Hy, inject_Z_mult, <- pow2_Z by lia. unfold ulp.
        rewrite <- Qmult_assoc, <- pow2_add.
        replace (k - k0 + k0) with k by lia. reflexivity. }
      rewrite Hyj, Hxq, Qabs_scale by exact Hulp.
      apply Qmult_le_l; [exact Hulp |]. apply roundHalfEven_nearest.
    + (* y is below the binade of q *)
      assert (Hk0 : k0 = e - 23) by lia.
      assert (Hylt : (y < pow2 e)%Q).
      { rewrite Hy. apply Qle_lt_trans with (Qabs (inject_Z n * pow2 k)).
        - apply Qle_Qabs.
        - rewrite Qmult_comm, Qabs_scale by apply pow2_pos.
          apply Qlt_le_trans with (pow2 k * pow2 24)%Q.
          + apply Qmult_lt_l; [apply pow2_pos |].
            rewrite pow2_Z by lia.
            change (Qabs (inject_Z n)) with (inject_Z (Z.abs n)).
            rewrite <- Zlt_Qlt. exact Hn.
          + rewrite <- pow2_add. apply pow2_le. lia. }
      apply Qle_trans with (ulp * Qabs (inject_Z (2 ^ 23) - r))%Q.
      * apply Qmult_le_l; [exact Hulp |]. apply roundHalfEven_nearest.
      * rewrite <- Qabs_scale, <- Hxq by exact Hulp.
        assert (Hpe : (inject_Z (2 ^ 23) * ulp == pow2 e)%Q).
        { rewrite <- pow2_Z by lia. unfold ulp. rewrite <- pow2_add.
          replace (23 + k0) with e by lia. reflexivity. }
        rewrite Hpe.
        apply Qle_trans with (q - pow2 e)%Q.
        -- apply Qabs_le_iff. split; lra.
        -- apply Qabs_ge. right. lra.
Qed.

Lemma fround_0 : fround 0 = 0%Q.
Proof. reflexivity. Qed.

(** The events that are not a slider leave the stored gains alone, and a
    slider only stores a value of its range. *)
Lemma step_storedGain s e c :
  storedGain c (step s e) = storedGain c s
  \/ exists v, e = Slider c v /\ inSliderRange c v = true
               /\ storedGain c (step s e) = v.
Proof.
  assert (Hl : forall s', levels s' = levels s ->
                 storedGain c s' = storedGain c s).
  { unfold levels. intros s' [= Hm _ _ _].
    destruct c; unfold storedGain; rewrite Hm; reflexivity. }
  destruct e; cbn [step].
  - left. destruct (_ && _); [apply Hl, levels_play | reflexivity].
  - left. destruct (_ || _); [reflexivity |]. unfold togglePlay.
    destruct (isPlaying (hooks s)); apply Hl;
      [apply levels_pause | apply levels_play].
  - left. destruct (isRendering (hooks s)); [reflexivity |]. apply Hl.
    unfold handleSeek. cbn. destruct (isPlaying (hooks s));
      autorewrite with lview; reflexivity.
  - left. destruct (_ || _); [reflexivity | apply Hl, levels_performExport].
  - left. destruct (v_paused (video s)); [reflexivity |].
    apply Hl, levels_videoEnded.
  - left. destruct (v_paused (video s)); reflexivity.
  - left. apply Hl, levels_recorderOnStop.
  - match goal with
    | |- context [if ?d || _ then _ else _] => destruct d
    end; cbn [orb]; [left; reflexivity |].
    destruct (inSliderRange c0 v) eqn:Hv; cbn [negb]; [| left; reflexivity].
    destruct c0, c; try (left; reflexivity);
      right; exists v; repeat split; exact Hv.
  - left.
    match goal with |- context [if ?d then _ else _] => destruct d end;
      [reflexivity |]. destruct c0, c; reflexivity.
  - left. unfold decodeTTS. handler_cases; reflexivity.
  - left. unfold loadBg. handler_cases; reflexivity.
  - left. destruct (v_paused (video s)); reflexivity.
  - left. destruct (v_paused (video s)); reflexivity.
Qed.

Lemma reachable_gainsInRange s : reachable s -> gainsInRange s.
Proof.
  induction 1 as [limits capture suspended | s e Hr IH];
    [intros []; reflexivity |].
  intros c. destruct (step_storedGain s e c) as [-> | (v & _ & Hv & ->)];
    [apply IH | exact Hv].
Qed.

(** The claim C9 as it is stated fails in the very first state: the
    Background slider stores 0.2, the gain node keeps single precision and
    holds 13421773 / 2^26, a little more than 0.2. *)
Lemma gain_node_rounds :
  muted Background (mounted AudioUtils.webAudioLimits true false) = false
  /\ storedGain Background (mounted AudioUtils.webAudioLimits true false)
     = (2 # 10)%Q
  /\ effectiveGain Background (mounted AudioUtils.webAudioLimits true false)
     = (13421773 # 67108864)%Q
  /\ ~ (effectiveGain Background (mounted AudioUtils.webAudioLimits true false)
        == storedGain Background (mounted AudioUtils.webAudioLimits true false))%Q.
Proof.
  split; [reflexivity |]. split; [reflexivity |].
  split; [vm_compute; reflexivity |]. vm_compute. discriminate.
Qed.

(** C9 (as amended). In every state the component can reach and for every
    channel, the value on the gain node is 0 if the channel is muted and the
    stored gain rounded to single precision otherwise, that is a
    single-precision number nearest to it, and so it is after the slider
    stored any gain [g] of its range; the stored gain is always a position
    of the slider; the mute button never writes the stored gain;
    muting an unmuted channel puts 0 on the node, and unmuting it again
    leaves the stored gain as it was and puts back on the node exactly the
    value it held before. *)
Theorem mute_is_an_overlay (s : State) (c : Channel) :
  reachable s ->
  effectiveGain c s = (if muted c s then 0%Q else fround (storedGain c s))
  /\ nearestSingle (if muted c s then 0%Q else storedGain c s)
       (effectiveGain c s)
  /\ (0 <= storedGain c s <= sliderMax c)%Q
  /\ (forall g,
        (0 <= g <= sliderMax c)%Q ->
        storedGain c (changeVolume c g s) = g
        /\ effectiveGain c (changeVolume c g s)
           = (if muted c s then 0%Q else fround g))
  /\ storedGain c (toggleMute c s) = storedGain c s
  /\ muted c (toggleMute c s) = negb (muted c s)
  /\ (muted c s = false ->
      effectiveGain c (toggleMute c s) = 0%Q
      /\ effectiveGain c (toggleMute c (toggleMute c s))
         = fround (storedGain c s)
      /\ effectiveGain c (toggleMute c (toggleMute c s)) = effectiveGain c s
      /\ storedGain c (toggleMute c (toggleMute c s)) = storedGain c s
      /\ muted c (toggleMute c (toggleMute c s)) = false).
Proof.
  intros Hr. pose proof (reachable_gainsSynced s Hr c) as Hs.
  assert (Hs' : effectiveGain c s
                = (if muted c s then 0%Q else fround (storedGain c s)))
    by (rewrite Hs; destruct (muted c s); reflexivity).
  split; [exact Hs' |].
  assert (Hrange : (0 <= storedGain c s <= sliderMax c)%Q).
  { pose proof (reachable_gainsInRange s Hr c) as Hin.
    unfold inSliderRange in Hin. apply andb_true_iff in Hin as [H0 H1].
    split; apply Qle_bool_iff; assumption. }
  split.
  { rewrite Hs. apply fround_nearest.
    - destruct (muted c s); [apply Qle_refl | apply Hrange].
    - destruct (muted c s); [reflexivity |].
      apply Qle_lt_trans with (sliderMax c); [apply Hrange |].
      destruct c; reflexivity. }
  split; [exact Hrange |].
  split.
  { intros g _. destruct c; (split; [reflexivity |]); cbn;
      match goal with |- context [if ?b then _ else _] => destruct b end;
      reflexivity. }
  split; [destruct c; reflexivity |].
  split; [destruct c; reflexivity |].
  intros Hm. rewrite Hm in Hs'.
  destruct c; cbn in *; rewrite Hm; cbn; rewrite Hs'; repeat split; reflexivity.
Qed.

Lemma mute_is_an_overlay_witness :
  effectiveGain Voice (step scenario (Slider Voice (3 # 4)%Q)) = (3 # 4)%Q
  /\ effectiveGain Voice
       (toggleMute Voice (step scenario (Slider Voice (3 # 4)%Q))) = 0%Q
  /\ effectiveGain Voice
       (toggleMute Voice
          (toggleMute Voice (step scenario (Slider Voice (3 # 4)%Q))))
     = (3 # 4)%Q.
Proof.
  destruct (mute_is_an_overlay (step scenario (Slider Voice (3 # 4)%Q)) Voice)
    as (H1 & _ & _ & _ & _ & _ & H2).
  - constructor. apply reachable_run. constructor.
  - destruct (H2 eq_refl) as (H3 & H4 & _).
    split; [exact H1 |]. split; [exact H3 | exact H4].
Defined.

(** *** The decoded buffers *)

Section BuffersFrame.
Variable s : State.

Lemma bv_with_video f : buffersView (with_video f s) = buffersView s.
Proof. reflexivity. Qed.
Lemma bv_with_page f : buffersView (with_page f s) = buffersView s.
Proof. reflexivity. Qed.
Lemma bv_with_graph f : buffersView (with_graph f s) = buffersView s.
Proof. reflexivity. Qed.
Lemma bv_setIsPlaying b : buffersView (setIsPlaying b s) = buffersView s.
Proof. reflexivity. Qed.
Lemma bv_setIsRendering b : buffersView (setIsRendering b s) = buffersView s.
Proof. reflexivity. Qed.
Lemma bv_set_destRef r :
  buffersView (with_refs (set_destRef r) s) = buffersView s.
Proof. reflexivity. Qed.
Lemma bv_set_mediaRecorderRef r :
  buffersView (with_refs (set_mediaRecorderRef r) s) = buffersView s.
Proof. reflexivity. Qed.
End BuffersFrame.

Lemma bv_stopSources s : buffersView (stopSources s) = buffersView s.
Proof.
  unfold buffersView. destruct (buffers_stopSources s) as [-> ->].
  reflexivity.
Qed.

Lemma bv_play s : buffersView (play s) = buffersView s.
Proof.
  rewrite play_parts, bv_setIsPlaying, bv_with_video.
  unfold buffersView at 2.
  destruct (buffers_resumeContext s) as [<- <-].
  destruct (buffers_stopSources (resumeContext s)) as [<- <-].
  generalize (stopSources (resumeContext s)). intros x.
  unfold startBackground, startVoice.
  destruct (voiceBufferRef (refs x)) eqn:E1; cbn;
    destruct (bgBufferRef (refs x)) eqn:E2; cbn;
    unfold buffersView; cbn; rewrite ?E1, ?E2; reflexivity.
Qed.

Create Rewrite HintDb bview.
#[local] Hint Rewrite bv_with_video bv_with_page bv_with_graph bv_setIsPlaying
  bv_setIsRendering bv_set_destRef bv_set_mediaRecorderRef bv_stopSources
  bv_play : bview.

Lemma bv_pause s : buffersView (pause s) = buffersView s.
Proof. unfold pause. autorewrite with bview. reflexivity. Qed.

#[local] Hint Rewrite bv_pause : bview.

Lemma bv_performExport type s :
  buffersView (performExport type s) = buffersView s.
Proof.
  unfold performExport. destruct (voiceBufferRef (refs s)); [| reflexivity].
  cbv zeta.
  destruct type; [destruct (v_captureStream _) |];
    autorewrite with bview; reflexivity.
Qed.

Lemma bv_videoEnded s : buffersView (videoEnded s) = buffersView s.
Proof.
  unfold videoEnded. cbv zeta.
  set (s1 := if isRendering (hooks s) then _ else _).
  assert (H1 : buffersView s1 = buffersView s).
  { unfold s1. destruct (isRendering (hooks s));
      autorewrite with bview; reflexivity. }
  rewrite <- H1. clearbody s1.
  destruct (v_onended (video s1)); autorewrite with bview; reflexivity.
Qed.

(** Only the arrival of a background file touches the Background buffer. *)
Lemma step_keeps_background s e :
  (forall file, e <> BackgroundFile file) ->
  bgBufferRef (refs (step s e)) = bgBufferRef (refs s).
Proof.
  intros He.
  enough (H : snd (buffersView (step s e)) = snd (buffersView s)) by exact H.
  destruct e; cbn [step].
  - destruct (_ && _); [rewrite bv_play |]; reflexivity.
  - destruct (_ || _); [reflexivity |]. unfold togglePlay.
    destruct (isPlaying (hooks s)); autorewrite with bview; reflexivity.
  - destruct (isRendering (hooks s)); [reflexivity |]. unfold handleSeek.
    cbv zeta.
    match goal with |- context [if ?c then _ else _] => destruct c end;
      autorewrite with bview; reflexivity.
  - destruct (_ || _); [| rewrite bv_performExport]; reflexivity.
  - destruct (v_paused (video s)); [| rewrite bv_videoEnded]; reflexivity.
  - destruct (v_paused (video s)); reflexivity.
  - unfold recorderOnStop. handler_cases; reflexivity.
  - destruct c; cbn; handler_cases; reflexivity.
  - destruct c; cbn; handler_cases; reflexivity.
  - unfold decodeTTS. handler_cases; reflexivity.
  - exfalso. exact (He file eq_refl).
  - destruct (v_paused (video s)); reflexivity.
  - destruct (v_paused (video s)); reflexivity.
Qed.

(** As long as the [backgroundAudioFile] prop is not reset to null (the
    application only ever replaces the file while the player is mounted), a
    background buffer that was decoded stays in place. *)
Lemma background_stays (es : list Event) (s : State) :
  Forall (fun e => e <> BackgroundFile None) es ->
  is_Some (bgBufferRef (refs s))
  \/ (exists b, BackgroundFile (Some (Ok b)) ∈ es) ->
  is_Some (bgBufferRef (refs (run s es))).
Proof.
  revert s. induction es as [|e es IH]; intros s Hes Hb.
  - destruct Hb as [Hb | [b Hb]]; [exact Hb | inversion Hb].
  - apply Forall_cons in Hes as [He Hes]. cbn [run fold_left].
    apply (IH (step s e) Hes).
    destruct e as [| | | | | | | | | |[[b'|err]|] | |];
      try (destruct Hb as [Hb | [b Hb]];
           [ left; rewrite step_keeps_background by discriminate; exact Hb
           | right; exists b; apply elem_of_cons in Hb as [Hb | Hb];
             [discriminate | exact Hb] ]).
    + left. cbn. eauto.
    + destruct Hb as [Hb | [b Hb]]; [left; exact Hb |].
      right. exists b. apply elem_of_cons in Hb as [Hb | Hb];
        [discriminate | exact Hb].
    + congruence.
Qed.

(** C10. When the decoder rejects a newly selected background file, the
    Background buffer is left as it was: a buffer decoded earlier is the one
    the next [play()] starts, looping, and the channel is empty afterwards
    only if it was empty before - hence, the file prop never being reset
    while the player is mounted, only if no file had been decoded before. *)
Theorem failed_background_decode (limits : AudioUtils.ContextLimits)
    (capture suspended : bool) (es : list Event) (err : JsError) :
  let s := run (mounted limits capture suspended) es in
  let s' := step s (BackgroundFile (Some (Err err))) in
  bgBufferRef (refs s') = bgBufferRef (refs s)
  /\ (forall b, bgBufferRef (refs s) = Some b ->
        exists i,
          bgSourceRef (refs (play s')) = Some i
          /\ sources (graph (play s')) !! i
             = Some (mkSource b true (Some Background)
                       (Some (js_rem (v_currentTime (video s')) (duration b)))
                       false))
  /\ (bgBufferRef (refs s') = None -> bgBufferRef (refs s) = None)
  /\ (Forall (fun e => e <> BackgroundFile None) es ->
      bgBufferRef (refs s') = None ->
      forall b, BackgroundFile (Some (Ok b)) ∉ es).
Proof.
  intros s s'.
  assert (Hr : reachable s') by (constructor; apply reachable_run; constructor).
  assert (Hsame : bgBufferRef (refs s') = bgBufferRef (refs s)) by reflexivity.
  split; [exact Hsame |]. split; [| split].
  - intros b Hb. rewrite <- Hsame in Hb.
    exact (play_background_source s' b Hb (reachable_sessionOK s' Hr)).
  - intros H. rewrite <- Hsame. exact H.
  - intros Hes Hnone b Hin.
    destruct (background_stays es (mounted limits capture suspended) Hes) as [b' Hb'].
    + right. exists b. exact Hin.
    + fold s in Hb'. rewrite <- Hsame, Hnone in Hb'. discriminate.
Qed.

(** *** What the playback handlers leave alone *)

(** Push the projections of the state through the field updates. *)
Ltac push :=
  cbn [video graph refs hooks mixer page hasBackgroundFile
       with_video with_graph with_refs with_hooks with_mixer with_page
       setIsPlaying setIsReady setIsRendering setRenderType setCurrentTime
       isPlaying isReady isRendering renderType currentTime
       recorders downloads alerts set_recorders triggerDownload alert
       v_captureStream v_currentTime v_paused v_onended
       set_v_currentTime set_v_paused set_v_onended
       voiceGain bgGain originalGain destinations sources ctx_suspended
       set_voiceGain set_bgGain set_originalGain set_destinations set_sources
       set_ctx_suspended connectGains disconnectGains
       destRef mediaRecorderRef set_destRef set_mediaRecorderRef] in *.

Lemma rest_stopSources s : rest (stopSources s) = rest s.
Proof.
  unfold stopSources.
  destruct s as [v g [[iv|] [ib|] vb bb d mr] h m p f]; reflexivity.
Qed.

Lemma rest_startVoice t s : rest (startVoice t s) = rest s.
Proof. unfold startVoice. destruct (voiceBufferRef (refs s)); reflexivity. Qed.

Lemma rest_startBackground t s : rest (startBackground t s) = rest s.
Proof.
  unfold startBackground. destruct (bgBufferRef (refs s)); reflexivity.
Qed.

Lemma rest_page x y : rest x = rest y -> page x = page y.
Proof. unfold rest. congruence. Qed.

Lemma rest_hooks x y : rest x = rest y -> hooks x = hooks y.
Proof. unfold rest. congruence. Qed.

Lemma rest_video x y : rest x = rest y -> video x = video y.
Proof. unfold rest. congruence. Qed.

Lemma rest_gains x y :
  rest x = rest y ->
  voiceGain (graph x) = voiceGain (graph y)
  /\ bgGain (graph x) = bgGain (graph y)
  /\ originalGain (graph x) = originalGain (graph y)
  /\ destinations (graph x) = destinations (graph y).
Proof. unfold rest. intros H. repeat split; congruence. Qed.

Lemma page_stopSources s : page (stopSources s) = page s.
Proof. apply rest_page, rest_stopSources. Qed.

Lemma hooks_stopSources s : hooks (stopSources s) = hooks s.
Proof. apply rest_hooks, rest_stopSources. Qed.

Lemma video_stopSources s : video (stopSources s) = video s.
Proof. apply rest_video, rest_stopSources. Qed.

Lemma gains_stopSources s :
  voiceGain (graph (stopSources s)) = voiceGain (graph s)
  /\ bgGain (graph (stopSources s)) = bgGain (graph s)
  /\ originalGain (graph (stopSources s)) = originalGain (graph s)
  /\ destinations (graph (stopSources s)) = destinations (graph s).
Proof. apply rest_gains, rest_stopSources. Qed.

Lemma rest_started t s :
  rest (startBackground t (startVoice t (stopSources s))) = rest s.
Proof.
  rewrite rest_startBackground, rest_startVoice. apply rest_stopSources.
Qed.

Lemma page_pause s : page (pause s) = page s.
Proof. unfold pause. push. rewrite page_stopSources. reflexivity. Qed.

Lemma rendering_pause s :
  isRendering (hooks (pause s)) = isRendering (hooks s).
Proof. unfold pause. push. rewrite hooks_stopSources. reflexivity. Qed.

Lemma capture_pause s :
  v_captureStream (video (pause s)) = v_captureStream (video s).
Proof. unfold pause. push. rewrite video_stopSources. reflexivity. Qed.

Lemma gains_pause s :
  voiceGain (graph (pause s)) = voiceGain (graph s)
  /\ bgGain (graph (pause s)) = bgGain (graph s)
  /\ originalGain (graph (pause s)) = originalGain (graph s)
  /\ destinations (graph (pause s)) = destinations (graph s).
Proof.
  unfold pause. push.
  apply (gains_stopSources (with_video (set_v_paused true) s)).
Qed.

Lemma page_resumeContext s : page (resumeContext s) = page s.
Proof. unfold resumeContext. destruct (ctx_suspended (graph s)); reflexivity. Qed.

Lemma hooks_resumeContext s : hooks (resumeContext s) = hooks s.
Proof. unfold resumeContext. destruct (ctx_suspended (graph s)); reflexivity. Qed.

Lemma page_play s : page (play s) = page s.
Proof.
  rewrite play_parts. push.
  rewrite (rest_page _ _ (rest_started _ _)). apply page_resumeContext.
Qed.

Lemma rendering_play s :
  isRendering (hooks (play s)) = isRendering (hooks s).
Proof.
  rewrite play_parts. push.
  rewrite (rest_hooks _ _ (rest_started _ _)), hooks_resumeContext.
  reflexivity.
Qed.

(** *** Export jobs *)

Lemma jobs_app l l' : (jobs (l ++ l') = jobs l + jobs l')%nat.
Proof. induction l as [|r l IH]; cbn; [reflexivity | rewrite IH; lia]. Qed.

Lemma jobs_alter_same f i l :
  (forall r, inFlight (f r) = inFlight r) -> jobs (alter f i l) = jobs l.
Proof.
  intros Hf. revert i. induction l as [|r l IH]; intros [|i]; cbn;
    rewrite ?Hf, ?IH; reflexivity.
Qed.

Lemma jobs_alter_done f i l r :
  l !! i = Some r -> inFlight r = true -> inFlight (f r) = false ->
  (jobs (alter f i l) + 1 = jobs l)%nat.
Proof.
  revert i. induction l as [|x l IH]; intros [|i] Hi Hr Hf; try discriminate.
  - injection Hi as ->. cbn. rewrite Hr, Hf. lia.
  - cbn in Hi |- *. specialize (IH i Hi Hr Hf). lia.
Qed.

Lemma inFlight_stopCall r : inFlight (recorderStopCall r) = inFlight r.
Proof. destruct r as [t d []]; reflexivity. Qed.

Lemma exportStep_ok e v v' :
  exportStep e v v' -> okV v ->
  okV v'
  /\ ((potV v' <= potV v)%nat
      \/ (exists k, e = ClickExport k) /\ snd v = false /\ snd v' = true
         /\ potV v' = S (potV v)).
Proof.
  intros Hs. destruct Hs as [v | R D r i Hne | R D r i rc Hne Hi Hst | R D k d He].
  - intros H. split; [exact H | left; lia].
  - cbn. rewrite (jobs_alter_same _ _ _ inFlight_stopCall).
    intros H. split; [exact H | left; lia].
  - cbn. intros [H0 H1].
    assert (Hj : (jobs (alter (set_rec_state RecDone) i R) + 1 = jobs R)%nat).
    { apply (jobs_alter_done _ _ _ rc Hi); [| reflexivity].
      unfold inFlight. rewrite Hst. reflexivity. }
    split; [split; [intros _ |]; lia | left; lia].
  - cbn. intros [H0 H1]. specialize (H0 eq_refl).
    rewrite jobs_app. cbn. rewrite H0.
    split; [split; [discriminate | lia] |].
    right. split; [exists k; exact He |]. repeat split. lia.
Qed.

Lemma alter_last {A} (f : A -> A) (l : list A) (x : A) :
  alter f (length l) (l ++ [x]) = l ++ [f x].
Proof.
  rewrite <- (Nat.add_0_r (length l)), alter_app_r. reflexivity.
Qed.

Section ExportFrame.
Variable s : State.

Lemma pg_with_video f : page (with_video f s) = page s.
Proof. reflexivity. Qed.
Lemma pg_with_graph f : page (with_graph f s) = page s.
Proof. reflexivity. Qed.
Lemma pg_with_refs f : page (with_refs f s) = page s.
Proof. reflexivity. Qed.
Lemma pg_with_page f : page (with_page f s) = f (page s).
Proof. reflexivity. Qed.
Lemma pg_setIsPlaying b : page (setIsPlaying b s) = page s.
Proof. reflexivity. Qed.
Lemma pg_setIsRendering b : page (setIsRendering b s) = page s.
Proof. reflexivity. Qed.

Lemma rd_with_video f :
  isRendering (hooks (with_video f s)) = isRendering (hooks s).
Proof. reflexivity. Qed.
Lemma rd_with_graph f :
  isRendering (hooks (with_graph f s)) = isRendering (hooks s).
Proof. reflexivity. Qed.
Lemma rd_with_refs f :
  isRendering (hooks (with_refs f s)) = isRendering (hooks s).
Proof. reflexivity. Qed.
Lemma rd_with_page f :
  isRendering (hooks (with_page f s)) = isRendering (hooks s).
Proof. reflexivity. Qed.
Lemma rd_setIsPlaying b :
  isRendering (hooks (setIsPlaying b s)) = isRendering (hooks s).
Proof. reflexivity. Qed.
Lemma rd_stopSources :
  isRendering (hooks (stopSources s)) = isRendering (hooks s).
Proof. rewrite hooks_stopSources. reflexivity. Qed.
End ExportFrame.

Lemma recorders_set_recorders l p : recorders (set_recorders l p) = l.
Proof. reflexivity. Qed.

Create Rewrite HintDb pview.
#[local] Hint Rewrite pg_with_video pg_with_graph pg_with_refs pg_with_page
  pg_setIsPlaying pg_setIsRendering rd_with_video rd_with_graph rd_with_refs
  rd_with_page rd_setIsPlaying rd_stopSources page_play page_pause
  page_stopSources rendering_play rendering_pause recorders_set_recorders
  @alter_last : pview.

Lemma performExport_exportStep type s :
  isRendering (hooks s) = false ->
  exportStep (ClickExport type) (exportView s)
    (exportView (performExport type s)).
Proof.
  intros Hidle. unfold performExport.
  destruct (voiceBufferRef (refs s)); [| constructor].
  cbv zeta. unfold exportView.
  destruct type; [destruct (v_captureStream _) |];
    autorewrite with pview; rewrite ?Hidle;
    solve [ eapply es_accept; reflexivity | apply es_same ].
Qed.

Lemma ev_play s : exportView (play s) = exportView s.
Proof. unfold exportView. rewrite page_play, rendering_play. reflexivity. Qed.

Lemma ev_pause s : exportView (pause s) = exportView s.
Proof. unfold exportView. rewrite page_pause, rendering_pause. reflexivity. Qed.

Lemma videoEnded_exportStep s :
  exportStep VideoEnded (exportView s) (exportView (videoEnded s)).
Proof.
  unfold videoEnded. cbv zeta.
  set (s1 := if isRendering (hooks s) then _ else _).
  assert (H1 : exportView s1 = exportView s).
  { unfold s1, exportView. destruct (isRendering (hooks s)) eqn:E;
      autorewrite with pview; rewrite ?E; reflexivity. }
  rewrite <- H1. clearbody s1.
  destruct (v_onended (video s1)); unfold exportView;
    autorewrite with pview; try apply es_same.
  apply es_stopCall. discriminate.
Qed.

Lemma recorderOnStop_exportStep r s :
  exportStep (RecorderStopped r) (exportView s)
    (exportView (recorderOnStop r s)).
Proof.
  unfold recorderOnStop.
  destruct (recorders (page s) !! r) as [rc|] eqn:Hr; [| apply es_same].
  destruct (rec_state rc) eqn:Hst; try apply es_same.
  unfold exportView. autorewrite with pview.
  apply (es_done _ _ _ _ _ rc); [discriminate | exact Hr | exact Hst].
Qed.

(** The component refines the pipeline's transition system. *)
Lemma step_exportStep s e :
  exportStep e (exportView s) (exportView (step s e)).
Proof.
  destruct e; cbn [step].
  - destruct (_ && _); [rewrite ev_play |]; apply es_same.
  - destruct (_ || _); [apply es_same |]. unfold togglePlay.
    destruct (isPlaying (hooks s)); rewrite ?ev_play, ?ev_pause; apply es_same.
  - destruct (isRendering (hooks s)); [apply es_same |].
    unfold handleSeek. cbv zeta.
    match goal with |- context [if ?c then _ else _] => destruct c end;
      rewrite ?ev_play; apply es_same.
  - destruct (isRendering (hooks s)) eqn:Hr; [apply es_same |].
    destruct (negb (isReady (hooks s))); [apply es_same |].
    apply performExport_exportStep, Hr.
  - destruct (v_paused (video s)); [apply es_same | apply videoEnded_exportStep].
  - destruct (v_paused (video s)); apply es_same.
  - apply recorderOnStop_exportStep.
  - match goal with |- context [if ?d then _ else _] => destruct d end;
      [apply es_same |]. destruct c; apply es_same.
  - match goal with |- context [if ?d then _ else _] => destruct d end;
      [apply es_same |]. destruct c; apply es_same.
  - unfold decodeTTS. destruct (AudioUtils.decodeVoice _ _ _); apply es_same.
  - unfold loadBg. destruct file as [[b|err]|]; apply es_same.
  - destruct (v_paused (video s)); apply es_same.
  - destruct (v_paused (video s)); apply es_same.
Qed.

Lemma reachable_exportOK s : reachable s -> exportOK s.
Proof.
  induction 1 as [limits capture suspended | s e Hr IH].
  - split; [reflexivity | cbn; lia].
  - exact (proj1 (exportStep_ok e _ _ (step_exportStep s e) IH)).
Qed.

Lemma potential_step s e :
  exportOK s -> notExportClick e -> (potential (step s e) <= potential s)%nat.
Proof.
  intros Hok He.
  destruct (exportStep_ok e _ _ (step_exportStep s e) Hok)
    as [_ [H | ([k Hk] & _)]]; [exact H |].
  exfalso. exact (He k Hk).
Qed.

Lemma potential_run es s :
  reachable s -> Forall notExportClick es ->
  (potential (run s es) <= potential s)%nat.
Proof.
  revert s. induction es as [|e es IH]; intros s Hr Hes; [cbn; lia |].
  apply Forall_cons in Hes as [He Hes]. cbn [run fold_left].
  pose proof (potential_step s e (reachable_exportOK s Hr) He).
  pose proof (IH (step s e) (reach_step s e Hr) Hes). unfold run in *. lia.
Qed.

Lemma click_while_rendering s k :
  isRendering (hooks s) = true -> step s (ClickExport k) = s.
Proof. intros Hr. cbn. rewrite Hr. reflexivity. Qed.

Lemma in_flight_is_rendering s :
  reachable s -> (0 < jobsInFlight s)%nat -> isRendering (hooks s) = true.
Proof.
  intros Hr Hj. destruct (reachable_exportOK s Hr) as [H0 _].
  destruct (isRendering (hooks s)); [reflexivity |].
  specialize (H0 eq_refl). unfold jobsInFlight in Hj. lia.
Qed.

(** Two clicks in a row start at most one job. *)
Lemma two_clicks_potential s k1 k2 :
  reachable s ->
  (potential (step (step s (ClickExport k1)) (ClickExport k2))
   <= length (downloads (page s)) + 1)%nat.
Proof.
  intros Hr. pose proof (reachable_exportOK s Hr) as Hok.
  assert (Hp : (potential s <= length (downloads (page s)) + 1)%nat).
  { destruct Hok as [_ H1]. unfold potential, exportView, potV. lia. }
  destruct (isRendering (hooks s)) eqn:Hrd.
  - rewrite (click_while_rendering s k1 Hrd), (click_while_rendering s k2 Hrd).
    exact Hp.
  - assert (Hp0 : potential s = length (downloads (page s))).
    { destruct Hok as [H0 _]. specialize (H0 Hrd).
      unfold potential, exportView, potV. lia. }
    set (s1 := step s (ClickExport k1)).
    assert (Hr1 : reachable s1) by (constructor; exact Hr).
    destruct (exportStep_ok _ _ _ (step_exportStep s (ClickExport k1)) Hok)
      as [Hok1 [H1 | (_ & _ & Hrd1 & H1)]].
    + destruct (exportStep_ok _ _ _ (step_exportStep s1 (ClickExport k2)) Hok1)
        as [_ [H2 | (_ & _ & _ & H2)]]; unfold potential, s1 in *; lia.
    + rewrite (click_while_rendering s1 k2 Hrd1).
      unfold potential, s1 in *. lia.
Qed.

(** C2. In every state the component can reach: a click on an export button
    while an export is rendering changes nothing; that is so whenever a job
    is in flight; at most one job is ever in flight; and two export clicks
    in a row, whatever follows them short of a further click, trigger at
    most one download. *)
Theorem one_export_at_a_time (s : State) :
  reachable s ->
  (forall k, isRendering (hooks s) = true -> step s (ClickExport k) = s)
  /\ (forall k, (0 < jobsInFlight s)%nat -> step s (ClickExport k) = s)
  /\ (jobsInFlight s <= 1)%nat
  /\ (forall k1 k2 es,
        Forall notExportClick es ->
        (length (downloads (page (run s (ClickExport k1 :: ClickExport k2 :: es))))
         <= length (downloads (page s)) + 1)%nat).
Proof.
  intros Hr. split; [| split; [| split]].
  - intros k. apply click_while_rendering.
  - intros k Hj. apply click_while_rendering, in_flight_is_rendering; assumption.
  - exact (proj2 (reachable_exportOK s Hr)).
  - intros k1 k2 es Hes. cbn [run fold_left].
    pose proof (two_clicks_potential s k1 k2 Hr) as H2.
    assert (Hr2 : reachable (step (step s (ClickExport k1)) (ClickExport k2)))
      by (do 2 constructor; exact Hr).
    pose proof (potential_run es _ Hr2 Hes) as H3.
    unfold run in H3.
    assert (H4 : forall x, (length (downloads (page x)) <= potential x)%nat)
      by (intros x; unfold potential, exportView, potV; lia).
    specialize (H4 (fold_left step es
                      (step (step s (ClickExport k1)) (ClickExport k2)))).
    lia.
Qed.

Lemma one_export_at_a_time_witness :
  (length (downloads (page (run scenario
     [ClickExport ExportAudio; ClickExport ExportVideo;
      VideoEnded; RecorderStopped 0])))
   <= length (downloads (page scenario)) + 1)%nat.
Proof.
  assert (Hr : reachable scenario) by (apply reachable_run; constructor).
  destruct (one_export_at_a_time scenario Hr) as (_ & _ & _ & H).
  apply (H ExportAudio ExportVideo [VideoEnded; RecorderStopped 0]).
  repeat constructor; discriminate.
Defined.

(** The scenario of the design document, computed: the second click falls
    on a disabled button, and the one job ends in one download. *)
Example double_export_scenario :
  let s1 := step scenario (ClickExport ExportAudio) in
  isRendering (hooks s1) = true
  /\ jobsInFlight s1 = 1%nat
  /\ step s1 (ClickExport ExportVideo) = s1
  /\ downloads (page (run s1 [ClickExport ExportVideo; VideoEnded;
                               RecorderStopped 0]))
     = ["dubbed_audio_mix.webm"%string].
Proof. vm_compute. repeat split. Qed.

(** *** Failures *)

(** C7. For every byte buffer of odd length, [decodeAudioData] fails (the
    typed-array constructor throws a RangeError) whatever the sample rate and
    channel count, so no buffer is produced; the caller, [decodeTTS], gets
    the error, logs it and leaves the component as it was: no Voice buffer is
    installed, the player does not become ready, nothing is retried. *)
Theorem odd_voice_bytes_rejected (data : list byte)
    (ctx : AudioUtils.ContextLimits) (sampleRate : Z) (s : State) :
  (length data mod 2 = 1)%nat ->
  AudioUtils.decodeVoice data ctx sampleRate = Err RangeError
  /\ (forall numChannels,
        AudioUtils.decodeAudioData data ctx sampleRate numChannels
        = Err RangeError)
  /\ decodeTTS data sampleRate s = s
  /\ step s (VoiceArrived data sampleRate) = s.
Proof.
  intros Hodd.
  assert (H : forall c n, AudioUtils.decodeAudioData data c sampleRate n
                          = Err RangeError)
    by (intros c n; apply AudioUtilsFacts.decodeAudioData_odd, Hodd).
  split; [apply H |]. split; [apply H |].
  assert (Hd : decodeTTS data sampleRate s = s).
  { unfold decodeTTS, AudioUtils.decodeVoice. rewrite H. reflexivity. }
  split; exact Hd.
Qed.

Lemma odd_voice_bytes_rejected_witness :
  AudioUtils.decodeVoice [x01; x02; x03] AudioUtils.webAudioLimits 24000
  = Err RangeError
  /\ step (mounted AudioUtils.webAudioLimits true true)
       (VoiceArrived [x01; x02; x03] 24000)
     = mounted AudioUtils.webAudioLimits true true.
Proof.
  destruct (odd_voice_bytes_rejected [x01; x02; x03] AudioUtils.webAudioLimits
              24000 (mounted AudioUtils.webAudioLimits true true))
    as (H1 & _ & _ & H2); [reflexivity |].
  split; assumption.
Defined.

Section GraphFrame.
Variable s : State.

Lemma vd_with_graph f : video (with_graph f s) = video s.
Proof. reflexivity. Qed.
Lemma vd_with_refs f : video (with_refs f s) = video s.
Proof. reflexivity. Qed.
Lemma vd_setIsRendering b : video (setIsRendering b s) = video s.
Proof. reflexivity. Qed.
Lemma vd_setRenderType t : video (setRenderType t s) = video s.
Proof. reflexivity. Qed.
Lemma hk_with_graph f : hooks (with_graph f s) = hooks s.
Proof. reflexivity. Qed.
Lemma hk_with_refs f : hooks (with_refs f s) = hooks s.
Proof. reflexivity. Qed.
Lemma hk_with_page f : hooks (with_page f s) = hooks s.
Proof. reflexivity. Qed.
Lemma rt_setIsRendering b :
  renderType (hooks (setIsRendering b s)) = renderType (hooks s).
Proof. reflexivity. Qed.
Lemma rt_setIsPlaying b :
  renderType (hooks (setIsPlaying b s)) = renderType (hooks s).
Proof. reflexivity. Qed.
End GraphFrame.

Create Rewrite HintDb gview.
#[local] Hint Rewrite vd_with_graph vd_with_refs vd_setIsRendering
  vd_setRenderType hk_with_graph hk_with_refs hk_with_page rt_setIsRendering
  rt_setIsPlaying capture_pause : gview.

Lemma connect_elem o n : o ∈ gain_outputs (connect o n).
Proof.
  unfold connect. cbn. case_bool_decide; [assumption |].
  apply elem_of_app. right. apply list_elem_of_singleton. reflexivity.
Qed.

Lemma connectGains_outputs o g :
  o ∈ gain_outputs (voiceGain (connectGains o g))
  /\ o ∈ gain_outputs (bgGain (connectGains o g))
  /\ o ∈ gain_outputs (originalGain (connectGains o g)).
Proof. repeat split; apply connect_elem. Qed.

(** C1, as the code has it. On a platform that cannot capture the video, an
    export of kind audio+video starts no recorder and leaves [isRendering]
    false, but it returns after the capture destination was created and the
    three gain nodes were wired to it: that routing stays attached, the
    destination stays in its cell and [renderType] stays ['video']. *)
Theorem capture_unsupported_leaves_routing (s : State) (b : AudioBuffer) :
  voiceBufferRef (refs s) = Some b ->
  v_captureStream (video s) = false ->
  let s' := performExport ExportVideo s in
  let dest := destinations (graph s) in
  isRendering (hooks s') = false
  /\ recorders (page s') = recorders (page s)
  /\ downloads (page s') = downloads (page s)
  /\ Capture dest ∈ gain_outputs (voiceGain (graph s'))
  /\ Capture dest ∈ gain_outputs (bgGain (graph s'))
  /\ Capture dest ∈ gain_outputs (originalGain (graph s'))
  /\ destRef (refs s') = Some dest
  /\ renderType (hooks s') = Some ExportVideo.
Proof.
  intros Hb Hcap s' dest. unfold s', performExport. rewrite Hb. cbv zeta.
  autorewrite with gview. rewrite Hcap.
  destruct (gains_pause (setRenderType (Some ExportVideo) (setIsRendering true s)))
    as (_ & _ & _ & Hd).
  autorewrite with gview in Hd. rewrite Hd. fold dest.
  split; [autorewrite with pview; reflexivity |].
  split; [autorewrite with pview; reflexivity |].
  split; [autorewrite with pview; reflexivity |].
  autorewrite with gview.
  split; [apply connectGains_outputs |].
  split; [apply connectGains_outputs |].
  split; [apply connectGains_outputs |].
  split; [reflexivity |].
  unfold pause. autorewrite with gview.
  rewrite hooks_stopSources. autorewrite with gview. reflexivity.
Qed.

Lemma capture_unsupported_leaves_routing_witness :
  Capture 0 ∈ gain_outputs (voiceGain (graph (performExport ExportVideo noCapture)))
  /\ Capture 0 ∈ gain_outputs (bgGain (graph (performExport ExportVideo noCapture)))
  /\ Capture 0
     ∈ gain_outputs (originalGain (graph (performExport ExportVideo noCapture))).
Proof.
  destruct (capture_unsupported_leaves_routing noCapture decoded5 eq_refl eq_refl)
    as (_ & _ & _ & H1 & H2 & H3 & _).
  repeat split; assumption.
Defined.

(** The same, computed: before the click each gain node feeds the speakers
    only; after the aborted export each one also feeds capture destination
    0. *)
Example capture_unsupported_scenario :
  let s' := step noCapture (ClickExport ExportVideo) in
  gain_outputs (voiceGain (graph noCapture)) = [Speakers]
  /\ gain_outputs (voiceGain (graph s')) = [Speakers; Capture 0]
  /\ gain_outputs (bgGain (graph s')) = [Speakers; Capture 0]
  /\ gain_outputs (originalGain (graph s')) = [Speakers; Capture 0]
  /\ isRendering (hooks s') = false
  /\ recorders (page s') = []
  /\ renderType (hooks s') = Some ExportVideo
  /\ s' <> noCapture.
Proof. vm_compute. repeat split. discriminate. Qed.

End PlayerFacts.

(** ** More on the audio utilities *)

Module AudioUtilsMore.
Import AudioUtils AudioUtilsFacts.

(** *** [writeString] *)

Lemma setUint8_fits (view : list byte) (offset : nat) (v : Z) :
  (offset < length view)%nat ->
  setUint8 view offset v
  = Ok (take offset view ++ byte_of_Z v :: drop (S offset) view).
Proof.
  intros Hlt. unfold setUint8.
  replace (offset + 1 <=? length view)%nat with true
    by (symmetry; apply Nat.leb_le; lia).
  f_equal. apply insert_take_drop. exact Hlt.
Qed.

Lemma setUint8_overflow (view : list byte) (offset : nat) (v : Z) :
  (length view <= offset)%nat -> setUint8 view offset v = Err RangeError.
Proof.
  intros Hge. unfold setUint8.
  replace (offset + 1 <=? length view)%nat with false; [reflexivity |].
  symmetry. apply Nat.leb_gt. lia.
Qed.

Lemma ascii_bytes_String (c : ascii) (s : string) :
  ascii_bytes (String c s) = byte_of_Z (charCodeAt c) :: ascii_bytes s.
Proof. reflexivity. Qed.

Lemma ascii_bytes_length (s : string) :
  length (ascii_bytes s) = String.length s.
Proof. induction s as [|c s IH]; [reflexivity | cbn; f_equal; exact IH]. Qed.

Lemma writeString_middle (pre mid post : list byte) (s : string) :
  length mid = String.length s ->
  writeString (pre ++ mid ++ post) (length pre) s
  = Ok (pre ++ ascii_bytes s ++ post).
Proof.
  revert pre mid. induction s as [|c s IH]; intros pre mid Hmid.
  - destruct mid; [reflexivity | discriminate].
  - destruct mid as [|m mid]; [discriminate |].
    injection Hmid as Hmid. cbn [writeString].
    unfold setUint8.
    replace (length pre + 1 <=? length (pre ++ (m :: mid) ++ post))%nat
      with true
      by (symmetry; apply Nat.leb_le; rewrite length_app; cbn; lia).
    cbn [mbind result_bind].
    rewrite insert_app_r_alt, Nat.sub_diag by lia. cbn [insert list_insert app].
    replace (S (length pre))
      with (length (pre ++ [byte_of_Z (charCodeAt c)]))
      by (rewrite length_app; cbn; lia).
    rewrite (cons_middle _ pre (mid ++ post)), app_assoc.
    rewrite (IH _ mid Hmid), ascii_bytes_String, <- app_assoc. reflexivity.
Qed.

(** X1. [writeString] overwrites exactly the bytes [offset .. offset + |s|)
    with the character codes of [s] when they fit in the view, and throws a
    RangeError when a non-empty [s] does not fit; the empty string is
    written anywhere, even past the end. *)
Theorem writeString_spec (view : list byte) (offset : nat) (s : string) :
  ((offset + String.length s <= length view)%nat ->
   writeString view offset s
   = Ok (take offset view ++ ascii_bytes s
           ++ drop (offset + String.length s) view))
  /\ ((length view < offset + String.length s)%nat -> s <> EmptyString ->
      writeString view offset s = Err RangeError)
  /\ writeString view offset EmptyString = Ok view.
Proof.
  split; [| split; [| reflexivity]].
  - intros Hfit.
    assert (Hpre : length (take offset view) = offset)
      by (rewrite length_take; lia).
    pose proof (writeString_middle (take offset view)
                  (take (String.length s) (drop offset view))
                  (drop (offset + String.length s) view) s) as H.
    rewrite Hpre, <- drop_drop, !take_drop in H.
    rewrite <- drop_drop. apply H. rewrite length_take, length_drop. lia.
  - revert view offset. induction s as [|c s IH]; intros view offset Hover Hne;
      [congruence |].
    cbn [String.length] in Hover. cbn [writeString].
    destruct (le_lt_dec (length view) offset) as [Hge | Hlt].
    + rewrite setUint8_overflow by exact Hge. reflexivity.
    + rewrite setUint8_fits by exact Hlt. cbn [mbind result_bind].
      apply IH.
      * rewrite length_app, length_take. cbn [length]. rewrite length_drop. lia.
      * destruct s; [cbn in Hover; lia | discriminate].
Qed.

Lemma writeString_spec_witness :
  writeString [x00; x00; x00; x00; x00; x00] 1 "data"
  = Ok [x00; x64; x61; x74; x61; x00]
  /\ writeString [x00; x00; x00] 1 "data" = Err RangeError.
Proof.
  destruct (writeString_spec [x00; x00; x00; x00; x00; x00] 1 "data")
    as (H1 & _ & _).
  destruct (writeString_spec [x00; x00; x00] 1 "data") as (_ & H2 & _).
  split; [apply H1; cbn; lia | apply H2; [cbn; lia | discriminate]].
Defined.

(** *** The WAV file beyond its size fields *)

(** X2. [createWavBlob] never fails; its output is 44 bytes longer than its
    input, is typed [audio/wav], and carries the four chunk tags and the
    format description of 16-bit mono PCM whatever the inputs are.  Each
    size and rate field reads back as the value the code wrote reduced
    modulo 2^32, for inputs in range or not: the RIFF size from [36 + L],
    the data size from [L], the sample rate from [R] and the byte rate from
    [R * 2]. *)
Theorem createWavBlob_header (samples : list byte) (sampleRate : Z) :
  let L := Z.of_nat (length samples) in
  exists file,
    createWavBlob samples sampleRate = Ok (mkBlob file "audio/wav")
    /\ length file = (44 + length samples)%nat
    /\ take 4 file = ascii_bytes "RIFF"
    /\ take 4 (drop 8 file) = ascii_bytes "WAVE"
    /\ take 4 (drop 12 file) = ascii_bytes "fmt "
    /\ take 4 (drop 36 file) = ascii_bytes "data"
    /\ getUint32 file 16 = Ok 16      (* size of the fmt chunk *)
    /\ getUint16 file 20 = Ok 1       (* PCM *)
    /\ getUint16 file 22 = Ok 1       (* channels *)
    /\ getUint16 file 32 = Ok 2       (* block align *)
    /\ getUint16 file 34 = Ok 16      (* bits per sample *)
    /\ getUint32 file 4 = Ok ((36 + L) mod 2 ^ 32)
    /\ getUint32 file 40 = Ok (L mod 2 ^ 32)
    /\ getUint32 file 24 = Ok (sampleRate mod 2 ^ 32)
    /\ getUint32 file 28 = Ok ((sampleRate * 2) mod 2 ^ 32).
Proof.
  intros L.
  exists (wavHeader L sampleRate ++ samples).
  split; [apply createWavBlob_layout |].
  split; [rewrite length_app, wavHeader_length; reflexivity |].
  destruct (wav_fields_mod samples sampleRate) as (H4 & H40 & H24 & H28 & _).
  do 9 (split; [reflexivity |]).
  repeat split; assumption.
Qed.

Lemma blob_of_createWavBlob (samples : list byte) (sampleRate : Z) (b : Blob) :
  createWavBlob samples sampleRate = Ok b ->
  blob_bytes b = wavHeader (Z.of_nat (length samples)) sampleRate ++ samples.
Proof.
  rewrite createWavBlob_layout. intros [= <-]. reflexivity.
Qed.

(** X3. The payload is recovered from the file by dropping the first 44
    bytes, so files made from different samples differ, and decoding the
    payload of the file gives the buffer the player decodes from the
    samples. *)
Theorem createWavBlob_payload (samples : list byte) (sampleRate : Z) (b : Blob) :
  createWavBlob samples sampleRate = Ok b ->
  drop 44 (blob_bytes b) = samples
  /\ (forall samples' sampleRate',
        createWavBlob samples' sampleRate' = Ok b -> samples' = samples)
  /\ (forall ctx rate,
        decodeVoice (drop 44 (blob_bytes b)) ctx rate
        = decodeVoice samples ctx rate).
Proof.
  intros Hb.
  assert (Hd : forall s r c, createWavBlob s r = Ok c -> drop 44 (blob_bytes c) = s).
  { intros s r c Hc. rewrite (blob_of_createWavBlob s r c Hc).
    change 44%nat with (length (wavHeader (Z.of_nat (length s)) r)).
    apply drop_app_length. }
  split; [exact (Hd _ _ _ Hb) |]. split.
  - intros samples' rate' Hb'.
    rewrite <- (Hd _ _ _ Hb), <- (Hd _ _ _ Hb'). reflexivity.
  - intros ctx rate. rewrite (Hd _ _ _ Hb). reflexivity.
Qed.

Lemma createWavBlob_payload_witness :
  drop 44 (wavHeader 2 24000 ++ [x01; x02]) = [x01; x02].
Proof.
  apply (createWavBlob_payload [x01; x02] 24000
           (mkBlob (wavHeader 2 24000 ++ [x01; x02]) "audio/wav")).
  reflexivity.
Defined.

(** *** Decoding with several channels *)

Lemma fill_channel_length (d : list Z) (nc ch count i0 : nat) (cd : list Q) :
  length (fill_channel d nc ch i0 count cd) = length cd.
Proof.
  revert i0 cd. induction count as [|n IH]; intros i0 cd; [reflexivity |].
  cbn [fill_channel]. rewrite IH.
  destruct (d !! _); [apply length_insert | reflexivity].
Qed.

Lemma fill_channel_lookup (d : list Z) (nc ch count : nat) :
  forall (i0 : nat) (cd : list Q) (j : nat),
    fill_channel d nc ch i0 count cd !! j
    = if decide ((i0 <= j < i0 + count)%nat /\ (j < length cd)%nat)
      then match d !! (j * nc + ch)%nat with
           | Some v => Some (toFloat v)
           | None => cd !! j
           end
      else cd !! j.
Proof.
  induction count as [|n IH]; intros i0 cd j.
  - cbn [fill_channel]. case_decide; [lia | reflexivity].
  - cbn [fill_channel]. rewrite IH.
    assert (Hlen : length (match d !! (i0 * nc + ch)%nat with
                           | Some v => <[i0:=(inject_Z v / 32768)%Q]> cd
                           | None => cd
                           end) = length cd)
      by (destruct (d !! _); [apply length_insert | reflexivity]).
    rewrite Hlen.
    destruct (decide (j = i0)) as [-> | Hne].
    + repeat case_decide; try lia.
      * destruct (d !! (i0 * nc + ch)%nat) as [v|]; [| reflexivity].
        apply list_lookup_insert_eq. lia.
      * destruct (d !! (i0 * nc + ch)%nat) as [v|]; [| reflexivity].
        rewrite list_insert_ge by lia. reflexivity.
    + assert (Hj : forall x,
                match d !! (i0 * nc + ch)%nat with
                | Some v => <[i0:=x v]> cd
                | None => cd
                end !! j = cd !! j).
      { intros x. destruct (d !! (i0 * nc + ch)%nat); [| reflexivity].
        apply list_lookup_insert_ne. congruence. }
      repeat case_decide; try lia; rewrite ?Hj; try reflexivity.
Qed.

Lemma fill_channels_lookup (d : list Z) (nc fc : nat) :
  forall (c0 : nat) (chans : list (list Q)) (k : nat),
    fill_channels d nc fc c0 chans !! k
    = fill_channel d nc (c0 + k) 0 fc <$> chans !! k.
Proof.
  intros c0 chans. revert c0. induction chans as [|c rest IH]; intros c0 k.
  - destruct k; reflexivity.
  - destruct k as [|k]; cbn [fill_channels].
    + rewrite Nat.add_0_r. reflexivity.
    + cbn [lookup list_lookup]. fold (@lookup nat (list Q) (list (list Q)) _).
      rewrite IH. replace (S c0 + k)%nat with (c0 + S k)%nat by lia.
      reflexivity.
Qed.

Lemma fill_channels_length (d : list Z) (nc fc : nat) :
  forall (c0 : nat) (chans : list (list Q)),
    length (fill_channels d nc fc c0 chans) = length chans.
Proof.
  intros c0 chans. revert c0.
  induction chans as [|c rest IH]; intros c0; [reflexivity |].
  cbn. f_equal. apply IH.
Qed.

(** The buffer [decodeAudioData] builds from an input of even length when
    [createBuffer] takes the arguments. *)
Lemma decodeAudioData_even (data : list byte) (ctx : ContextLimits)
    (sampleRate : Z) (nc : nat) :
  (length data mod 2 = 0)%nat ->
  (1 <= nc <= maxChannels ctx)%nat ->
  (1 <= length (int16_elements data) / nc)%nat ->
  supportsRate ctx sampleRate ->
  decodeAudioData data ctx sampleRate nc
  = Ok (mkAudioBuffer sampleRate
          (fill_channels (int16_elements data) nc
             (length (int16_elements data) / nc) 0
             (replicate nc (replicate (length (int16_elements data) / nc) 0%Q)))).
Proof.
  intros Hev Hnc Hfr Hrate. unfold decodeAudioData.
  rewrite newInt16Array_even by exact Hev. cbn [mbind result_bind].
  rewrite createBuffer_Ok by assumption. reflexivity.
Qed.

(** The two bytes of a 16-bit element. *)
Lemma int16_elements_bytes (data : list byte) (k : nat) (v : Z) :
  int16_elements data !! k = Some v ->
  exists lo hi,
    data !! (2 * k)%nat = Some lo /\ data !! (2 * k + 1)%nat = Some hi
    /\ v = int16_of_bytes lo hi.
Proof.
  revert k. induction data as [| x | x y l IH] using list_pair_ind; intros k Hk.
  - discriminate.
  - discriminate.
  - destruct k as [| k]; cbn [int16_elements] in Hk.
    + injection Hk as <-. exists x, y. repeat split.
    + cbn in Hk. destruct (IH k Hk) as (lo & hi & Hlo & Hhi & ->).
      exists lo, hi.
      replace (2 * S k)%nat with (S (S (2 * k))) by lia.
      replace (S (S (2 * k)) + 1)%nat with (S (S (2 * k + 1))) by lia.
      repeat split; assumption.
Qed.

(** X4. For an input of even length, [decodeAudioData] de-interleaves when
    [createBuffer] takes the arguments, that is when the number of channels
    is between 1 and what the context supports, there is at least one whole
    frame and the context supports the sample rate: the buffer has
    [numChannels] channels of [(L / 2) / numChannels] frames each (a
    trailing incomplete frame is dropped), and frame [i] of channel [ch] is
    the 16-bit two's complement value of the bytes [2k] and [2k + 1], low
    byte first, for [k = i * numChannels + ch], divided by 32768.  In every
    other case [createBuffer] throws a NotSupportedError and no buffer is
    made. *)
Theorem decodeAudioData_deinterleaves (data : list byte) (ctx : ContextLimits)
    (sampleRate : Z) (numChannels : nat) :
  (length data mod 2 = 0)%nat ->
  let frames := (length data / 2 / numChannels)%nat in
  ((1 <= numChannels <= maxChannels ctx)%nat -> (1 <= frames)%nat ->
   minSampleRate ctx <= sampleRate <= maxSampleRate ctx ->
   exists buffer,
     decodeAudioData data ctx sampleRate numChannels = Ok buffer
     /\ ab_sampleRate buffer = sampleRate
     /\ numberOfChannels buffer = numChannels
     /\ forall ch, (ch < numChannels)%nat ->
          exists channelData,
            ab_channels buffer !! ch = Some channelData
            /\ length channelData = frames
            /\ forall i, (i < frames)%nat ->
                 exists lo hi,
                   data !! (2 * (i * numChannels + ch))%nat = Some lo
                   /\ data !! (2 * (i * numChannels + ch) + 1)%nat = Some hi
                   /\ let u := Z.of_N (Byte.to_N lo)
                                + 256 * Z.of_N (Byte.to_N hi) in
                      channelData !! i
                      = Some (inject_Z (if u <? 32768 then u else u - 65536)
                              / 32768)%Q)
  /\ ((numChannels = 0 \/ maxChannels ctx < numChannels \/ frames = 0)%nat
      \/ sampleRate < minSampleRate ctx \/ maxSampleRate ctx < sampleRate ->
      decodeAudioData data ctx sampleRate numChannels = Err NotSupportedError).
Proof.
  intros Hev frames.
  assert (Hfr : (length (int16_elements data) / numChannels)%nat = frames)
    by (rewrite int16_elements_length; reflexivity).
  split.
  - intros Hnc Hframes Hrate. eexists.
    split; [apply decodeAudioData_even; rewrite ?Hfr; assumption |].
    split; [reflexivity |].
    split.
    { unfold numberOfChannels. cbn [ab_channels].
      rewrite fill_channels_length, length_replicate. reflexivity. }
    intros ch Hch. cbn [ab_channels].
    rewrite fill_channels_lookup, lookup_replicate_2 by exact Hch.
    eexists. split; [reflexivity |].
    rewrite Hfr.
    split; [rewrite fill_channel_length, length_replicate; reflexivity |].
    intros i Hi.
    assert (Hin : (i * numChannels + ch < length (int16_elements data))%nat).
    { pose proof (Nat.Div0.mul_div_le (length (int16_elements data))
                    numChannels) as H.
      rewrite Hfr in H. nia. }
    destruct (lookup_lt_is_Some_2 _ _ Hin) as [v Hv].
    destruct (int16_elements_bytes data _ v Hv) as (lo & hi & Hlo & Hhi & ->).
    exists lo, hi. split; [exact Hlo |]. split; [exact Hhi |]. cbv zeta.
    rewrite fill_channel_lookup, length_replicate.
    case_decide; [| lia]. cbn [Nat.add]. rewrite Hv.
    destruct (int16_of_bytes_value lo hi) as [Hval _]. cbv zeta in Hval.
    unfold toFloat. rewrite Hval. reflexivity.
  - intros Hbad. unfold decodeAudioData.
    rewrite newInt16Array_even by exact Hev. cbn [mbind result_bind].
    rewrite Hfr.
    destruct (createBuffer ctx numChannels frames sampleRate) as [b | e] eqn:Hb.
    + apply createBuffer_inv in Hb as (Hc & Hf & Hr). unfold supportsRate in Hr.
      lia.
    + cbn [mbind result_bind]. f_equal. exact (createBuffer_Err _ _ _ _ _ Hb).
Qed.

Lemma decodeAudioData_deinterleaves_witness :
  (exists buffer,
     decodeAudioData [x01; x00; x02; x00; x03; x00; x04; x00; x05; x00]
       webAudioLimits 48000 2
     = Ok buffer
     /\ ab_sampleRate buffer = 48000
     /\ numberOfChannels buffer = 2%nat)
  /\ decodeAudioData [x01; x00] webAudioLimits 48000 2
     = Err NotSupportedError.
Proof.
  split.
  - destruct (decodeAudioData_deinterleaves
                [x01; x00; x02; x00; x03; x00; x04; x00; x05; x00]
                webAudioLimits 48000 2) as [H _]; [reflexivity |].
    destruct H as (buffer & Hb & Hr & Hn & _);
      [cbn; lia | cbn; lia | cbn; lia |].
    exists buffer. repeat split; assumption.
  - destruct (decodeAudioData_deinterleaves [x01; x00] webAudioLimits 48000 2)
      as [_ H]; [reflexivity |].
    apply H. left. right. right. reflexivity.
Defined.

(** *** What decoding keeps *)

Lemma toFloat_inj (v v' : Z) : toFloat v = toFloat v' -> v = v'.
Proof.
  unfold toFloat, Qdiv, Qmult, Qinv. cbn. intros [= H]. lia.
Qed.

Lemma byte_to_Z_inj (b b' : byte) : byte_to_Z b = byte_to_Z b' -> b = b'.
Proof.
  intros H. rewrite <- (byte_of_to_Z b), <- (byte_of_to_Z b'), H. reflexivity.
Qed.

Lemma int16_of_bytes_inj (lo hi lo' hi' : byte) :
  int16_of_bytes lo hi = int16_of_bytes lo' hi' -> lo = lo' /\ hi = hi'.
Proof.
  destruct (int16_of_bytes_value lo hi) as [-> _].
  destruct (int16_of_bytes_value lo' hi') as [-> _].
  pose proof (byte_to_Z_range lo). pose proof (byte_to_Z_range hi).
  pose proof (byte_to_Z_range lo'). pose proof (byte_to_Z_range hi').
  intros Heq.
  assert (byte_to_Z lo = byte_to_Z lo' /\ byte_to_Z hi = byte_to_Z hi')
    as [Hl Hh].
  { destruct (Z.ltb_spec (byte_to_Z lo + 256 * byte_to_Z hi) 32768);
      destruct (Z.ltb_spec (byte_to_Z lo' + 256 * byte_to_Z hi') 32768); lia. }
  split; apply byte_to_Z_inj; assumption.
Qed.

Lemma even_SS (n : nat) : (S (S n) mod 2 = n mod 2)%nat.
Proof.
  change (S (S n)) with (2 + n)%nat.
  rewrite <- Nat.Div0.add_mod_idemp_l. reflexivity.
Qed.

Lemma int16_elements_inj (l l' : list byte) :
  (length l mod 2 = 0)%nat -> (length l' mod 2 = 0)%nat ->
  int16_elements l = int16_elements l' -> l = l'.
Proof.
  revert l'. induction l as [| x | x y l IH] using list_pair_ind;
    intros l' Hl Hl' Heq.
  - destruct l' as [|a [|b' l']]; [reflexivity | discriminate | discriminate].
  - discriminate.
  - destruct l' as [|a [|b' l']]; [discriminate | discriminate |].
    cbn [int16_elements] in Heq. injection Heq as Hv Hrest.
    apply int16_of_bytes_inj in Hv as [-> ->].
    cbn [length] in Hl, Hl'. rewrite even_SS in Hl, Hl'.
    f_equal. f_equal. apply IH; assumption.
Qed.

(** X5. Decoding loses nothing: two inputs that decode to the same buffer,
    in whatever contexts, are the same bytes at the same sample rate. *)
Theorem decodeVoice_injective (data data' : list byte)
    (ctx ctx' : ContextLimits) (rate rate' : Z) (b : AudioBuffer) :
  decodeVoice data ctx rate = Ok b -> decodeVoice data' ctx' rate' = Ok b ->
  data = data' /\ rate = rate'.
Proof.
  intros H H'.
  destruct (decodeVoice_inv _ _ _ _ H) as (Hev & Hne & Hch & Hrate).
  destruct (decodeVoice_inv _ _ _ _ H') as (Hev' & Hne' & Hch' & Hrate').
  rewrite (decodeVoice_even data ctx rate Hev Hne Hch Hrate) in H.
  rewrite (decodeVoice_even data' ctx' rate' Hev' Hne' Hch' Hrate') in H'.
  rewrite <- H in H'. injection H' as Hr Hc.
  split; [| congruence].
  apply int16_elements_inj; [assumption.. |].
  assert (Hinj : Inj (=) (=) toFloat) by (intros v v'; apply toFloat_inj).
  symmetry. exact (list_fmap_eq_inj toFloat Hinj _ _ Hc).
Qed.

Lemma decodeVoice_injective_witness :
  [x01; x80] = [x01; x80] /\ 24000 = 24000.
Proof.
  apply (decodeVoice_injective [x01; x80] [x01; x80] webAudioLimits
           webAudioLimits 24000 24000
           (mkAudioBuffer 24000 [[toFloat (-32767)]]));
    reflexivity.
Defined.

(** X6. Every decoded sample is a multiple of 1/32768 in [-1, 1): the value
    +1.0 is never produced. *)
Theorem decodeVoice_below_one (data : list byte) (ctx : ContextLimits)
    (sampleRate : Z) (b : AudioBuffer) :
  decodeVoice data ctx sampleRate = Ok b ->
  forall channelData x,
    channelData ∈ ab_channels b -> x ∈ channelData ->
    (-1 <= x < 1)%Q
    /\ exists k, -32768 <= k <= 32767 /\ x = (inject_Z k / 32768)%Q.
Proof.
  intros H channelData x Hc Hx.
  destruct (decodeVoice_inv _ _ _ _ H) as (Hev & Hne & Hch & Hrate).
  rewrite (decodeVoice_even data ctx sampleRate Hev Hne Hch Hrate) in H.
  injection H as <-.
  cbn [ab_channels] in Hc. apply list_elem_of_singleton in Hc. subst channelData.
  apply list_elem_of_fmap in Hx as (k & -> & Hk).
  apply int16_elements_range in Hk.
  split; [| exists k; split; [exact Hk | reflexivity]].
  unfold toFloat, Qle, Qlt, Qdiv, Qmult, Qinv. cbn. lia.
Qed.

Lemma decodeVoice_below_one_witness :
  (-1 <= toFloat 32767 < 1)%Q
  /\ exists k, -32768 <= k <= 32767 /\ toFloat 32767 = (inject_Z k / 32768)%Q.
Proof.
  apply (decodeVoice_below_one [xff; x7f] webAudioLimits 24000
           (mkAudioBuffer 24000 [[toFloat 32767]]) eq_refl [toFloat 32767]);
    apply list_elem_of_singleton; reflexivity.
Defined.

End AudioUtilsMore.

(** ** More on the player *)

Module PlayerMore.
Import Player PlayerSpec PlayerFacts PlayerForms.

(** Compute the fields of a state built from field updates. *)
Ltac fields :=
  cbn [setIsPlaying setIsReady setIsRendering setRenderType
       setCurrentTime setVolume setBgVolume setOriginalVolume
       setIsVoiceMuted setIsBgMuted setIsOriginalMuted
       video graph refs hooks mixer page hasBackgroundFile
       with_video with_graph with_refs with_hooks with_mixer with_page
       v_currentTime v_paused v_onended v_captureStream
       set_v_currentTime set_v_paused set_v_onended
       ctx_suspended voiceGain bgGain originalGain sources destinations
       ctx_limits
       set_ctx_suspended set_voiceGain set_bgGain set_originalGain
       set_sources set_destinations connectGains disconnectGains
       voiceSourceRef bgSourceRef voiceBufferRef bgBufferRef destRef
       mediaRecorderRef set_voiceSourceRef set_bgSourceRef
       set_voiceBufferRef set_bgBufferRef set_destRef set_mediaRecorderRef
       clearSourceRefs
       isPlaying isReady isRendering renderType currentTime
       volume bgVolume originalVolume isVoiceMuted isBgMuted isOriginalMuted
       recorders downloads alerts set_recorders triggerDownload alert
       gain_value gain_outputs] in *.

(** *** The handlers in closed form *)

Lemma stopSources_form s :
  stopSources s
  = with_refs clearSourceRefs
      (with_graph (set_sources (stoppedSources s)) s).
Proof.
  destruct s as [v [sus vg bg og src dn lim] [[iv|] [ib|] vb bb d mr] h m p f];
    reflexivity.
Qed.

Lemma pause_form s :
  pause s
  = setIsPlaying false
      (with_video (set_v_paused true)
         (with_refs clearSourceRefs
            (with_graph (set_sources (stoppedSources s)) s))).
Proof.
  destruct s as [v [sus vg bg og src dn lim] [[iv|] [ib|] vb bb d mr] h m p f];
    reflexivity.
Qed.

Lemma play_form s :
  play s
  = setIsPlaying true
      (with_video (set_v_paused false)
         (with_refs (fun r =>
            set_bgSourceRef (playBgRef s)
              (set_voiceSourceRef (playVoiceRef s) r))
            (with_graph (fun g =>
               set_sources (playSources s) (set_ctx_suspended false g)) s))).
Proof.
  destruct s as [[t pa oe cs] [sus vg bg og src dn lim]
                 [[iv|] [ib|] [vb|] [bb|] d mr] h m p f];
    destruct sus; vm_compute; reflexivity.
Qed.

Ltac forms :=
  rewrite ?play_form, ?pause_form, ?stopSources_form;
  unfold playSources, playVoiceRef, playBgRef, stoppedSources in *;
  fields;
  cbn [stopAll addVoice addBackground cellFor] in *.

Lemma playSources_app s :
  playSources s
  = stoppedSources s
    ++ addBackground (bgBufferRef (refs s)) (v_currentTime (video s))
         (addVoice (voiceBufferRef (refs s)) (v_currentTime (video s)) []).
Proof.
  unfold playSources, addBackground, addVoice.
  destruct (voiceBufferRef (refs s)), (bgBufferRef (refs s)); cbn [app];
    rewrite <- ?app_assoc, ?app_nil_r; reflexivity.
Qed.

(** *** The export handler in closed form *)

(** An accepted export: the voice is decoded and the stream can be
    captured. *)
Lemma performExport_accepted type s b :
  voiceBufferRef (refs s) = Some b ->
  type = ExportAudio \/ v_captureStream (video s) = true ->
  let dest := destinations (graph s) in
  let R := recorders (page s) in
  let l := stoppedSources s in
  video (performExport type s)
  = mkVideo 0 false (EndedExport (length R)) (v_captureStream (video s))
  /\ graph (performExport type s)
     = mkGraph false
         (connect (Capture dest) (voiceGain (graph s)))
         (connect (Capture dest) (bgGain (graph s)))
         (connect (Capture dest) (originalGain (graph s)))
         (addBackground (bgBufferRef (refs s)) 0 (l ++ [voiceNode b 0]))
         (S dest) (ctx_limits (graph s))
  /\ refs (performExport type s)
     = mkRefs (Some (length l))
         (cellFor (bgBufferRef (refs s)) (l ++ [voiceNode b 0]))
         (Some b) (bgBufferRef (refs s)) (Some dest) (Some (length R))
  /\ hooks (performExport type s)
     = mkHooks true (isReady (hooks s)) true (Some type)
         (currentTime (hooks s))
  /\ mixer (performExport type s) = mixer s
  /\ page (performExport type s)
     = set_recorders (R ++ [mkRecorder type dest RecRecording]) (page s).
Proof.
  intros Hb Hc. unfold performExport. rewrite Hb. cbv zeta.
  rewrite !pause_form, play_form.
  remember (video s) as v eqn:Hv. destruct v as [t pa oe cs].
  fields. rewrite <- Hv. cbn [v_captureStream].
  assert (Hgo :
    match type, cs with
    | ExportVideo, false => False
    | _, _ => True
    end) by (destruct Hc as [-> | ->]; [| destruct type]; exact I).
  destruct type, cs; try contradiction;
    forms; rewrite <- ?Hv, Hb; cbn [addVoice cellFor];
    (split; [reflexivity |]);
    (split; [destruct (graph s); reflexivity |]);
    (split; [destruct (refs s); cbn in Hb; subst; reflexivity |]);
    (split; [reflexivity |]);
    (split; [reflexivity |]);
    unfold set_recorders; cbn [recorders downloads alerts];
    rewrite alter_last; reflexivity.
Qed.

(** *** The controls *)

Lemma idle_no_job l i rc :
  jobs l = 0%nat -> l !! i = Some rc -> inFlight rc = false.
Proof.
  revert i. induction l as [| r l IH]; intros i Hj Hi; [discriminate |].
  cbn [jobs] in Hj. destruct i as [| i]; cbn in Hi.
  - injection Hi as <-. destruct (inFlight r); [discriminate | reflexivity].
  - apply (IH i); [lia | exact Hi].
Qed.

Lemma controlOK_mounted limits capture suspended :
  controlOK (mounted limits capture suspended).
Proof.
  unfold controlOK. cbn.
  repeat split; try discriminate; intros; discriminate.
Qed.

(** Split a goal [controlOK] and settle the parts that follow from the
    hypotheses as they are. *)
Ltac ctl :=
  repeat first [split | intro];
  repeat match goal with
         | H5 : forall r, ?oe = EndedExport r -> _, H : ?oe = EndedExport ?r
           |- _ => specialize (H5 r H)
         | Hi : ?P -> _, H : ?P |- _ =>
             match type of P with Prop => specialize (Hi H) end
         | H : _ /\ _ |- _ => destruct H
         end;
  first
    [ congruence
    | solve [eauto]
    | match goal with
      | H : forall i rc, _ !! i = Some rc -> _ |- False =>
          eapply H; eassumption
      end
    | idtac ].

Lemma play_controlOK s :
  isReady (hooks s) = true -> isRendering (hooks s) = false ->
  controlOK s -> controlOK (play s).
Proof.
  intros Hready Hidle (H1 & H2 & H3 & H4 & H5 & H6).
  rewrite play_form. unfold controlOK. forms.
  destruct (H2 Hready) as [b Hb]. rewrite Hb. cbn [cellFor]. ctl.
Qed.

Lemma pause_controlOK s :
  isRendering (hooks s) = false -> controlOK s -> controlOK (pause s).
Proof.
  intros Hidle (H1 & H2 & H3 & H4 & H5 & H6).
  rewrite pause_form. unfold controlOK. forms. ctl.
Qed.

Lemma handleSeek_controlOK t s :
  isRendering (hooks s) = false -> controlOK s -> controlOK (handleSeek t s).
Proof.
  intros Hidle Hok. unfold handleSeek. cbv zeta. fields.
  assert (Hok' :
    controlOK (with_video (set_v_currentTime t) (setCurrentTime t s))).
  { destruct Hok as (H1 & H2 & H3 & H4 & H5 & H6).
    unfold controlOK. fields. ctl. }
  destruct (isPlaying (hooks s)) eqn:Hp; [| exact Hok'].
  apply play_controlOK; fields; [| exact Hidle | exact Hok'].
  destruct Hok as (_ & _ & H3 & _). exact (proj1 (H3 Hp)).
Qed.

Lemma performExport_controlOK type s :
  isRendering (hooks s) = false -> isReady (hooks s) = true -> exportOK s ->
  controlOK s -> controlOK (performExport type s).
Proof.
  intros Hidle Hready Hjobs Hok.
  destruct (voiceBufferRef (refs s)) as [b |] eqn:Hb;
    [| unfold performExport; rewrite Hb; exact Hok].
  assert (Hcase :
    (type = ExportAudio \/ v_captureStream (video s) = true)
    \/ (type = ExportVideo /\ v_captureStream (video s) = false)).
  { destruct type, (v_captureStream (video s)); auto. }
  destruct Hcase as [Hc | [-> Hc]].
  - destruct (performExport_accepted type s b Hb Hc)
      as (Hv & Hg & Hr & Hh & _ & Hp).
    cbv zeta in *.
    destruct Hok as (H1 & H2 & H3 & H4 & H5 & H6).
    unfold controlOK. rewrite Hv, Hg, Hr, Hh, Hp. fields.
    assert (Hnone : forall i rc,
      recorders (page s) !! i = Some rc -> rec_state rc <> RecStopping).
    { intros i rc Hi Hst.
      pose proof (idle_no_job _ i rc (proj1 Hjobs Hidle) Hi) as Hf.
      unfold inFlight in Hf. rewrite Hst in Hf. discriminate. }
    repeat first [split | intro]; try congruence; eauto.
    + match goal with
      | H : EndedExport _ = EndedExport _ |- _ => injection H as <-
      end.
      eexists. split; [apply list_lookup_middle; reflexivity | reflexivity].
    + match goal with
      | H : _ !! _ = Some _ |- _ =>
          apply lookup_app_Some in H as [Hi | [_ Hi]]
      end; [eapply Hnone; eassumption |].
      match goal with
      | H : rec_state ?rc = RecStopping |- _ => rename H into Hst
      end.
      destruct (_ - _)%nat; cbn in Hi; [| discriminate].
      injection Hi as <-. discriminate.
  - unfold performExport. rewrite Hb. cbv zeta.
    rewrite !pause_form. fields. rewrite Hc.
    destruct Hok as (H1 & H2 & H3 & H4 & H5 & H6).
    unfold controlOK. forms. ctl.
Qed.

Lemma videoEnded_controlOK s :
  v_paused (video s) = false -> controlOK s -> controlOK (videoEnded s).
Proof.
  intros Hrun (H1 & H2 & H3 & H4 & H5 & H6).
  assert (Hp : isPlaying (hooks s) = true) by (rewrite H1, Hrun; reflexivity).
  unfold videoEnded. cbv zeta.
  destruct (isRendering (hooks s)) eqn:Hrend.
  - destruct (H6 eq_refl Hp) as [r Hr]. fields. rewrite Hr.
    unfold controlOK. forms. ctl.
  - rewrite !stopSources_form. fields.
    destruct (v_onended (video s)) as [| r |] eqn:Hoe.
    + unfold controlOK. forms. rewrite Hoe. ctl.
    + destruct (H5 r eq_refl). congruence.
    + unfold controlOK. forms. rewrite Hoe. ctl.
Qed.

Lemma recorderOnStop_controlOK r s :
  controlOK s -> controlOK (recorderOnStop r s).
Proof.
  intros Hok. unfold recorderOnStop.
  destruct (recorders (page s) !! r) as [rc |] eqn:Hrc; [| exact Hok].
  destruct (rec_state rc) eqn:Hst; try exact Hok.
  destruct Hok as (H1 & H2 & H3 & H4 & H5 & H6).
  assert (Hoe : forall k, v_onended (video s) <> EndedExport k).
  { intros k Hk. destruct (H5 k Hk) as (_ & _ & _ & Hnone).
    exact (Hnone r rc Hrc Hst). }
  unfold controlOK. fields. ctl; exfalso; eapply Hoe; eassumption.
Qed.

Lemma timeUpdate_controlOK t s : controlOK s -> controlOK (timeUpdate t s).
Proof.
  intros (H1 & H2 & H3 & H4 & H5 & H6).
  unfold controlOK, timeUpdate. fields. ctl.
Qed.

Lemma changeVolume_controlOK c v s :
  controlOK s -> controlOK (changeVolume c v s).
Proof.
  intros (H1 & H2 & H3 & H4 & H5 & H6).
  unfold controlOK, changeVolume, voiceGainEffect, bgGainEffect,
    originalGainEffect.
  destruct c; fields; ctl.
Qed.

Lemma toggleMute_controlOK c s : controlOK s -> controlOK (toggleMute c s).
Proof.
  intros (H1 & H2 & H3 & H4 & H5 & H6).
  unfold controlOK, toggleMute, voiceGainEffect, bgGainEffect,
    originalGainEffect.
  destruct c; fields; ctl.
Qed.

Lemma decodeTTS_controlOK audioData sampleRate s :
  controlOK s -> controlOK (decodeTTS audioData sampleRate s).
Proof.
  intros (H1 & H2 & H3 & H4 & H5 & H6). unfold decodeTTS.
  destruct (AudioUtils.decodeVoice audioData _ sampleRate);
    unfold controlOK; fields; ctl.
Qed.

Lemma loadBg_controlOK file s : controlOK s -> controlOK (loadBg file s).
Proof.
  intros (H1 & H2 & H3 & H4 & H5 & H6). unfold loadBg. cbv zeta.
  destruct file as [[b | err] |]; unfold controlOK; fields; ctl.
Qed.

Lemma step_controlOK s e :
  elementEvent e = false ->
  exportOK s -> controlOK s -> controlOK (step s e).
Proof.
  intros He Hjobs Hok. destruct e; cbn [step]; try discriminate He.
  - destruct (negb (isPlaying (hooks s))) eqn:Hp; cbn [andb]; [| exact Hok].
    destruct (isReady (hooks s)) eqn:Hready; cbn [andb]; [| exact Hok].
    destruct (isRendering (hooks s)) eqn:Hrend; cbn [negb]; [exact Hok |].
    apply play_controlOK; assumption.
  - destruct (isReady (hooks s)) eqn:Hready; cbn [negb orb]; [| exact Hok].
    destruct (isRendering (hooks s)) eqn:Hrend; [exact Hok |].
    unfold togglePlay. destruct (isPlaying (hooks s)).
    + apply pause_controlOK; assumption.
    + apply play_controlOK; assumption.
  - destruct (isRendering (hooks s)) eqn:Hrend; [exact Hok |].
    apply handleSeek_controlOK; assumption.
  - destruct (isRendering (hooks s)) eqn:Hrend; cbn [orb]; [exact Hok |].
    destruct (isReady (hooks s)) eqn:Hready; cbn [negb]; [| exact Hok].
    apply performExport_controlOK; assumption.
  - destruct (v_paused (video s)) eqn:Hrun; [exact Hok |].
    apply videoEnded_controlOK; assumption.
  - destruct (v_paused (video s)); [exact Hok |].
    apply timeUpdate_controlOK; assumption.
  - apply recorderOnStop_controlOK; assumption.
  - match goal with |- controlOK (if ?d then _ else _) => destruct d end;
      [exact Hok | apply changeVolume_controlOK; assumption].
  - match goal with |- controlOK (if ?d then _ else _) => destruct d end;
      [exact Hok | apply toggleMute_controlOK; assumption].
  - apply decodeTTS_controlOK; assumption.
  - apply loadBg_controlOK; assumption.
Qed.

Lemma driven_reachable s : driven s -> reachable s.
Proof. induction 1; constructor; assumption. Qed.

Lemma driven_run s es :
  driven s -> Forall (fun e => elementEvent e = false) es ->
  driven (run s es).
Proof.
  revert s. induction es as [| e es IH]; intros s Hs Hes; [exact Hs |].
  apply Forall_cons in Hes as [He Hes]. cbn [run fold_left].
  apply IH; [constructor; assumption | exact Hes].
Qed.

Lemma driven_controlOK s : driven s -> controlOK s.
Proof.
  induction 1 as [limits capture suspended | s e Hd IH He].
  - apply controlOK_mounted.
  - apply step_controlOK;
      [exact He | apply reachable_exportOK, driven_reachable, Hd | exact IH].
Qed.

(** *** The controls, whoever starts and pauses the element *)

Lemma transportOK_mounted limits capture suspended :
  transportOK (mounted limits capture suspended).
Proof.
  unfold transportOK. cbn.
  repeat split; try discriminate; intros; discriminate.
Qed.

Lemma play_transportOK s : transportOK s -> transportOK (play s).
Proof.
  intros (H1 & H2 & H5).
  rewrite play_form. unfold transportOK. forms. ctl.
Qed.

Lemma pause_transportOK s : transportOK s -> transportOK (pause s).
Proof.
  intros (H1 & H2 & H5).
  rewrite pause_form. unfold transportOK. forms. ctl.
Qed.

Lemma handleSeek_transportOK t s :
  transportOK s -> transportOK (handleSeek t s).
Proof.
  intros Hok. unfold handleSeek. cbv zeta. fields.
  assert (Hok' :
    transportOK (with_video (set_v_currentTime t) (setCurrentTime t s))).
  { destruct Hok as (H1 & H2 & H5). unfold transportOK. fields. ctl. }
  destruct (isPlaying (hooks s)); [apply play_transportOK |]; exact Hok'.
Qed.

Lemma performExport_transportOK type s :
  isRendering (hooks s) = false -> exportOK s ->
  transportOK s -> transportOK (performExport type s).
Proof.
  intros Hidle Hjobs Hok.
  destruct (voiceBufferRef (refs s)) as [b |] eqn:Hb;
    [| unfold performExport; rewrite Hb; exact Hok].
  assert (Hcase :
    (type = ExportAudio \/ v_captureStream (video s) = true)
    \/ (type = ExportVideo /\ v_captureStream (video s) = false)).
  { destruct type, (v_captureStream (video s)); auto. }
  destruct Hcase as [Hc | [-> Hc]].
  - destruct (performExport_accepted type s b Hb Hc)
      as (Hv & Hg & Hr & Hh & _ & Hp).
    cbv zeta in *.
    destruct Hok as (H1 & H2 & H5).
    unfold transportOK. rewrite Hv, Hr, Hh, Hp. fields.
    assert (Hnone : forall i rc,
      recorders (page s) !! i = Some rc -> rec_state rc <> RecStopping).
    { intros i rc Hi Hst.
      pose proof (idle_no_job _ i rc (proj1 Hjobs Hidle) Hi) as Hf.
      unfold inFlight in Hf. rewrite Hst in Hf. discriminate. }
    repeat first [split | intro]; try congruence; eauto.
    + match goal with
      | H : EndedExport _ = EndedExport _ |- _ => injection H as <-
      end.
      eexists. split; [apply list_lookup_middle; reflexivity | reflexivity].
    + match goal with
      | H : _ !! _ = Some _ |- _ =>
          apply lookup_app_Some in H as [Hi | [_ Hi]]
      end; [eapply Hnone; eassumption |].
      match goal with
      | H : rec_state ?rc = RecStopping |- _ => rename H into Hst
      end.
      destruct (_ - _)%nat; cbn in Hi; [| discriminate].
      injection Hi as <-. discriminate.
  - unfold performExport. rewrite Hb. cbv zeta.
    rewrite !pause_form. fields. rewrite Hc.
    destruct Hok as (H1 & H2 & H5).
    unfold transportOK. forms. ctl.
Qed.

Lemma videoEnded_transportOK s : transportOK s -> transportOK (videoEnded s).
Proof.
  intros (H1 & H2 & H5).
  unfold videoEnded. cbv zeta.
  destruct (isRendering (hooks s)) eqn:Hrend.
  - fields. destruct (v_onended (video s)) as [| r |] eqn:Hoe;
      unfold transportOK; forms; rewrite ?Hoe; ctl.
  - rewrite !stopSources_form. fields.
    destruct (v_onended (video s)) as [| r |] eqn:Hoe.
    + unfold transportOK. forms. rewrite Hoe. ctl.
    + destruct (H5 r eq_refl). congruence.
    + unfold transportOK. forms. rewrite Hoe. ctl.
Qed.

Lemma recorderOnStop_transportOK r s :
  transportOK s -> transportOK (recorderOnStop r s).
Proof.
  intros Hok. unfold recorderOnStop.
  destruct (recorders (page s) !! r) as [rc |] eqn:Hrc; [| exact Hok].
  destruct (rec_state rc) eqn:Hst; try exact Hok.
  destruct Hok as (H1 & H2 & H5).
  assert (Hoe : forall k, v_onended (video s) <> EndedExport k).
  { intros k Hk. destruct (H5 k Hk) as (_ & _ & Hnone).
    exact (Hnone r rc Hrc Hst). }
  unfold transportOK. fields. ctl; exfalso; eapply Hoe; eassumption.
Qed.

Lemma step_transportOK s e :
  exportOK s -> transportOK s -> transportOK (step s e).
Proof.
  intros Hjobs Hok. destruct e; cbn [step].
  - destruct (_ && _); [apply play_transportOK |]; exact Hok.
  - destruct (_ || _); [exact Hok |].
    unfold togglePlay. destruct (isPlaying (hooks s));
      [apply pause_transportOK | apply play_transportOK]; exact Hok.
  - destruct (isRendering (hooks s)); [exact Hok |].
    apply handleSeek_transportOK, Hok.
  - destruct (isRendering (hooks s)) eqn:Hrend; cbn [orb]; [exact Hok |].
    destruct (negb (isReady (hooks s))); [exact Hok |].
    apply performExport_transportOK; assumption.
  - destruct (v_paused (video s)); [exact Hok |].
    apply videoEnded_transportOK, Hok.
  - destruct (v_paused (video s)); [exact Hok |].
    destruct Hok as (H1 & H2 & H5).
    unfold transportOK, timeUpdate. fields. ctl.
  - apply recorderOnStop_transportOK, Hok.
  - match goal with |- transportOK (if ?d then _ else _) => destruct d end;
      [exact Hok |].
    destruct Hok as (H1 & H2 & H5).
    unfold transportOK, changeVolume, voiceGainEffect, bgGainEffect,
      originalGainEffect.
    destruct c; fields; ctl.
  - match goal with |- transportOK (if ?d then _ else _) => destruct d end;
      [exact Hok |].
    destruct Hok as (H1 & H2 & H5).
    unfold transportOK, toggleMute, voiceGainEffect, bgGainEffect,
      originalGainEffect.
    destruct c; fields; ctl.
  - destruct Hok as (H1 & H2 & H5). unfold decodeTTS.
    destruct (AudioUtils.decodeVoice audioData _ sampleRate);
      unfold transportOK; fields; ctl.
  - destruct Hok as (H1 & H2 & H5). unfold loadBg. cbv zeta.
    destruct file as [[b | err] |]; unfold transportOK; fields; ctl.
  - destruct (v_paused (video s)) eqn:Hp; [| exact Hok].
    destruct Hok as (H1 & H2 & H5). unfold transportOK. fields. ctl.
  - destruct (v_paused (video s)) eqn:Hp; [exact Hok |].
    destruct Hok as (H1 & H2 & H5). unfold transportOK. fields. ctl.
Qed.

Lemma reachable_transportOK s : reachable s -> transportOK s.
Proof.
  induction 1 as [limits capture suspended | s e Hr IH].
  - apply transportOK_mounted.
  - apply step_transportOK; [apply reachable_exportOK; exact Hr | exact IH].
Qed.

(** *** The cells *)

Lemma cellsOK_started vb bb t l :
  (forall i, cellFor vb l = Some i ->
     exists n, addBackground bb t (addVoice vb t l) !! i = Some n
               /\ src_output n = Some Voice /\ src_loop n = false
               /\ src_stopped n = false)
  /\ (forall i, cellFor bb (addVoice vb t l) = Some i ->
       exists n, addBackground bb t (addVoice vb t l) !! i = Some n
                 /\ src_output n = Some Background /\ src_loop n = true
                 /\ src_stopped n = false /\ is_Some (src_started n)).
Proof.
  split; intros i Hi.
  - destruct vb as [b |]; [| discriminate]. injection Hi as <-.
    exists (voiceNode b t). split; [| repeat split].
    destruct bb; cbn [addBackground addVoice];
      [rewrite <- app_assoc |]; apply list_lookup_middle; reflexivity.
  - destruct bb as [b |]; [| discriminate]. injection Hi as <-.
    exists (backgroundNode b t). split; [| repeat split; eexists; reflexivity].
    cbn [addBackground]. apply list_lookup_middle. reflexivity.
Qed.

Lemma cellsOK_view s s' :
  sessionView s' = sessionView s -> cellsOK s -> cellsOK s'.
Proof.
  unfold sessionView, cellsOK. intros H. injection H as -> -> ->. tauto.
Qed.

Lemma cellsOK_empty s :
  voiceSourceRef (refs s) = None -> bgSourceRef (refs s) = None -> cellsOK s.
Proof. intros Hv Hb. split; intros i Hi; congruence. Qed.

Lemma play_cellsOK s : cellsOK (play s).
Proof.
  rewrite play_form. unfold cellsOK. forms. apply cellsOK_started.
Qed.

Lemma pause_cellsOK s : cellsOK (pause s).
Proof. rewrite pause_form. apply cellsOK_empty; reflexivity. Qed.

Lemma handleSeek_cellsOK t s : cellsOK s -> cellsOK (handleSeek t s).
Proof.
  intros Hok. unfold handleSeek. cbv zeta.
  destruct (isPlaying _); [apply play_cellsOK |].
  revert Hok. apply cellsOK_view. reflexivity.
Qed.

Lemma performExport_cellsOK type s :
  cellsOK s -> cellsOK (performExport type s).
Proof.
  intros Hok. unfold performExport.
  destruct (voiceBufferRef (refs s)); [| exact Hok]. cbv zeta.
  rewrite !pause_form. fields.
  destruct type, (v_captureStream (video s));
    try (rewrite play_form; unfold cellsOK; forms; apply cellsOK_started).
  apply cellsOK_empty; reflexivity.
Qed.

Lemma videoEnded_cellsOK s : cellsOK s -> cellsOK (videoEnded s).
Proof.
  intros Hok. unfold videoEnded. cbv zeta.
  destruct (isRendering (hooks s)).
  - fields. destruct (v_onended (video s)).
    + revert Hok. apply cellsOK_view. reflexivity.
    + rewrite stopSources_form. apply cellsOK_empty; reflexivity.
    + rewrite stopSources_form. apply cellsOK_empty; reflexivity.
  - rewrite !stopSources_form. fields.
    destruct (v_onended (video s)); try rewrite stopSources_form;
      apply cellsOK_empty; reflexivity.
Qed.

Lemma step_cellsOK s e : cellsOK s -> cellsOK (step s e).
Proof.
  intros Hok. destruct e; cbn [step].
  - destruct (_ && _); [apply play_cellsOK | exact Hok].
  - destruct (_ || _); [exact Hok |]. unfold togglePlay.
    destruct (isPlaying _); [apply pause_cellsOK | apply play_cellsOK].
  - destruct (isRendering _); [exact Hok | apply handleSeek_cellsOK, Hok].
  - destruct (_ || _); [exact Hok | apply performExport_cellsOK, Hok].
  - destruct (v_paused _); [exact Hok | apply videoEnded_cellsOK, Hok].
  - destruct (v_paused _); [exact Hok |].
    revert Hok. apply cellsOK_view. reflexivity.
  - revert Hok. apply cellsOK_view. unfold recorderOnStop.
    destruct (_ !! _) as [rc |]; [| reflexivity].
    destruct (rec_state rc); reflexivity.
  - match goal with |- cellsOK (if ?d then _ else _) => destruct d end;
      [exact Hok |].
    revert Hok. apply cellsOK_view. destruct c; reflexivity.
  - match goal with |- cellsOK (if ?d then _ else _) => destruct d end;
      [exact Hok |].
    revert Hok. apply cellsOK_view. destruct c; reflexivity.
  - revert Hok. apply cellsOK_view. unfold decodeTTS.
    destruct (AudioUtils.decodeVoice _ _ _); reflexivity.
  - revert Hok. apply cellsOK_view. destruct file as [[b | err] |]; reflexivity.
  - destruct (v_paused _); [| exact Hok].
    revert Hok. apply cellsOK_view. reflexivity.
  - destruct (v_paused _); [exact Hok |].
    revert Hok. apply cellsOK_view. reflexivity.
Qed.

Lemma reachable_cellsOK s : reachable s -> cellsOK s.
Proof.
  induction 1 as [limits capture suspended | s e Hr IH].
  - apply cellsOK_empty; reflexivity.
  - apply step_cellsOK, IH.
Qed.

(** *** Routing *)

Lemma connect_outputs o g x :
  x ∈ gain_outputs (connect o g) <-> x ∈ gain_outputs g \/ x = o.
Proof.
  unfold connect. cbn [gain_outputs]. case_bool_decide as Ho.
  - split; [auto |]. intros [H | ->]; assumption.
  - rewrite elem_of_app, list_elem_of_singleton. reflexivity.
Qed.

Lemma disconnect_outputs o g x :
  x ∈ gain_outputs (disconnect o g) <-> x ∈ gain_outputs g /\ x <> o.
Proof.
  unfold disconnect. cbn [gain_outputs]. rewrite list_elem_of_filter. tauto.
Qed.

Lemma filter_all {A} (P : A -> Prop) `{forall x, Decision (P x)} (l : list A) :
  (forall x, x ∈ l -> P x) -> filter P l = l.
Proof.
  induction l as [| a l IH]; intros Hall; [reflexivity |].
  rewrite filter_cons_True by (apply Hall; left).
  f_equal. apply IH. intros x Hx. apply Hall. right. exact Hx.
Qed.

(** Disconnecting a fresh destination undoes connecting it. *)
Lemma disconnect_connect o g :
  o ∉ gain_outputs g -> disconnect o (connect o g) = g.
Proof.
  intros Ho. destruct g as [v l]. unfold disconnect, connect in *.
  cbn [gain_value gain_outputs] in *.
  rewrite bool_decide_eq_false_2 by exact Ho.
  rewrite filter_app, filter_all by (intros x Hx ->; exact (Ho Hx)).
  rewrite filter_cons_False by (intros Hne; exact (Hne eq_refl)).
  rewrite filter_nil, app_nil_r. reflexivity.
Qed.

Lemma routingOK_view s s' : routes s' = routes s -> routingOK s -> routingOK s'.
Proof. unfold routingOK. intros ->. tauto. Qed.

Lemma routingOK_connect s s' :
  routingOK s ->
  routes s'
  = (gain_outputs (connect (Capture (destinations (graph s)))
                     (voiceGain (graph s))),
     gain_outputs (connect (Capture (destinations (graph s)))
                     (bgGain (graph s))),
     gain_outputs (connect (Capture (destinations (graph s)))
                     (originalGain (graph s))),
     S (destinations (graph s))) ->
  routingOK s'.
Proof.
  unfold routingOK at 1. unfold routes at 1.
  intros (Hvb & Hbo & Hsp & Hcap) Hr. unfold routingOK. rewrite Hr.
  unfold connect. cbn [gain_outputs gain_value].
  rewrite <- Hbo, <- Hvb.
  split; [reflexivity |]. split; [reflexivity |].
  pose proof (connect_outputs (Capture (destinations (graph s)))
                (voiceGain (graph s))) as Hin.
  unfold connect in Hin. cbn [gain_outputs gain_value] in Hin.
  split; [apply Hin; left; exact Hsp |].
  intros d Hd. apply Hin in Hd as [Hd | Hd].
  - specialize (Hcap d Hd). lia.
  - injection Hd as ->. lia.
Qed.

Lemma routingOK_disconnect s s' d :
  routingOK s ->
  routes s'
  = (gain_outputs (disconnect (Capture d) (voiceGain (graph s))),
     gain_outputs (disconnect (Capture d) (bgGain (graph s))),
     gain_outputs (disconnect (Capture d) (originalGain (graph s))),
     destinations (graph s)) ->
  routingOK s'.
Proof.
  unfold routingOK at 1. unfold routes at 1.
  intros (Hvb & Hbo & Hsp & Hcap) Hr. unfold routingOK. rewrite Hr.
  unfold disconnect. cbn [gain_outputs gain_value].
  rewrite <- Hbo, <- Hvb.
  split; [reflexivity |]. split; [reflexivity |].
  split.
  - apply list_elem_of_filter. split; [discriminate | exact Hsp].
  - intros k Hk. apply list_elem_of_filter in Hk as [_ Hk]. exact (Hcap k Hk).
Qed.

Lemma routes_play s : routes (play s) = routes s.
Proof. rewrite play_form. reflexivity. Qed.

Lemma routes_pause s : routes (pause s) = routes s.
Proof. rewrite pause_form. reflexivity. Qed.

Lemma routes_stopSources s : routes (stopSources s) = routes s.
Proof. rewrite stopSources_form. reflexivity. Qed.

Lemma routes_videoEnded s : routes (videoEnded s) = routes s.
Proof.
  unfold videoEnded. cbv zeta.
  destruct (isRendering (hooks s)); rewrite ?stopSources_form; fields;
    destruct (v_onended (video s)); rewrite ?stopSources_form; reflexivity.
Qed.

Lemma performExport_routingOK type s :
  routingOK s -> routingOK (performExport type s).
Proof.
  intros Hok. unfold performExport.
  destruct (voiceBufferRef (refs s)); [| exact Hok]. cbv zeta.
  rewrite !pause_form. fields.
  destruct type, (v_captureStream (video s)); try rewrite play_form;
    apply (routingOK_connect s _ Hok); reflexivity.
Qed.

Lemma step_routingOK s e : routingOK s -> routingOK (step s e).
Proof.
  intros Hok. destruct e; cbn [step].
  - destruct (_ && _); [| exact Hok].
    revert Hok. apply routingOK_view, routes_play.
  - destruct (_ || _); [exact Hok |]. unfold togglePlay.
    destruct (isPlaying _); revert Hok; apply routingOK_view;
      [apply routes_pause | apply routes_play].
  - destruct (isRendering _); [exact Hok |]. unfold handleSeek. cbv zeta.
    destruct (isPlaying _); revert Hok; apply routingOK_view;
      [rewrite routes_play |]; reflexivity.
  - destruct (_ || _); [exact Hok | apply performExport_routingOK, Hok].
  - destruct (v_paused _); [exact Hok |].
    revert Hok. apply routingOK_view, routes_videoEnded.
  - destruct (v_paused _); [exact Hok |].
    revert Hok. apply routingOK_view. reflexivity.
  - unfold recorderOnStop.
    destruct (_ !! _) as [rc |]; [| exact Hok].
    destruct (rec_state rc); try exact Hok.
    apply (routingOK_disconnect s _ (rec_dest rc) Hok). reflexivity.
  - match goal with |- routingOK (if ?d then _ else _) => destruct d end;
      [exact Hok |].
    revert Hok. apply routingOK_view. destruct c; reflexivity.
  - match goal with |- routingOK (if ?d then _ else _) => destruct d end;
      [exact Hok |].
    revert Hok. apply routingOK_view. destruct c; reflexivity.
  - revert Hok. apply routingOK_view. unfold decodeTTS.
    destruct (AudioUtils.decodeVoice _ _ _); reflexivity.
  - revert Hok. apply routingOK_view. destruct file as [[b | err] |]; reflexivity.
  - destruct (v_paused _); [| exact Hok].
    revert Hok. apply routingOK_view. reflexivity.
  - destruct (v_paused _); [exact Hok |].
    revert Hok. apply routingOK_view. reflexivity.
Qed.

Lemma reachable_routingOK s : reachable s -> routingOK s.
Proof.
  induction 1 as [limits capture suspended | s e Hr IH].
  - unfold routingOK. cbn. repeat split.
    + apply list_elem_of_singleton. reflexivity.
    + intros d Hd. apply list_elem_of_singleton in Hd. discriminate.
  - apply step_routingOK, IH.
Qed.

(** *** An export from the click to the download *)

(** The video ends while the export handler is installed. *)
Lemma videoEnded_export s r :
  isRendering (hooks s) = true -> v_onended (video s) = EndedExport r ->
  video (videoEnded s)
  = mkVideo (v_currentTime (video s)) true EndedPlain
      (v_captureStream (video s))
  /\ graph (videoEnded s) = set_sources (stoppedSources s) (graph s)
  /\ refs (videoEnded s) = clearSourceRefs (refs s)
  /\ hooks (videoEnded s)
     = mkHooks false (isReady (hooks s)) true (renderType (hooks s))
         (currentTime (hooks s))
  /\ mixer (videoEnded s) = mixer s
  /\ page (videoEnded s)
     = set_recorders (alter recorderStopCall r (recorders (page s))) (page s).
Proof.
  intros Hrend Hoe. unfold videoEnded. cbv zeta. rewrite Hrend. fields.
  rewrite Hoe. forms. rewrite Hrend. repeat split.
Qed.

(** Then nothing sounds any more. *)
Lemma videoEnded_export_quiet s r :
  sessionOK s ->
  isRendering (hooks s) = true -> v_onended (video s) = EndedExport r ->
  quiet (videoEnded s).
Proof.
  intros Hok Hrend Hoe.
  destruct (videoEnded_export s r Hrend Hoe) as (_ & Hg & Hr & _).
  apply (quiet_view (stopSources s)); [| apply stopSources_quiet, Hok].
  unfold sessionView. rewrite Hg, Hr, stopSources_form. reflexivity.
Qed.

Lemma fresh_capture s c :
  routingOK s -> Capture (destinations (graph s)) ∉ gain_outputs (gainNode c s).
Proof.
  unfold routingOK, routes. intros (Hvb & Hbo & _ & Hcap) Hin.
  assert (Hv : Capture (destinations (graph s))
               ∈ gain_outputs (voiceGain (graph s))).
  { destruct c; cbn [gainNode] in Hin; congruence. }
  specialize (Hcap _ Hv). lia.
Qed.

Lemma export_round_trip_aux (type : ExportType) (s : State) :
  reachable s ->
  isReady (hooks s) = true -> isRendering (hooks s) = false ->
  type = ExportAudio \/ v_captureStream (video s) = true ->
  let s' :=
    run s [ClickExport type; VideoEnded;
           RecorderStopped (length (recorders (page s)))] in
  page s'
  = mkPage
      (recorders (page s)
       ++ [mkRecorder type (destinations (graph s)) RecDone])
      (exportFileName type :: downloads (page s))
      (alerts (page s))
  /\ (forall c, gainNode c s' = gainNode c s)
  /\ hooks s'
     = mkHooks false true false None (currentTime (hooks s))
  /\ mixer s' = mixer s
  /\ quiet s'.
Proof.
  intros Hreach Hready Hidle Hc. cbv zeta.
  destruct (reachable_transportOK s Hreach) as (_ & H2 & _).
  destruct (H2 Hready) as [b Hb].
  pose proof (reachable_routingOK s Hreach) as Hroute.
  cbn [run fold_left]. cbn [step]. rewrite Hidle, Hready. cbn [orb negb].
  destruct (performExport_accepted type s b Hb Hc)
    as (Hv & Hg & Hr & Hh & Hm & Hp). cbv zeta in *.
  remember (performExport type s) as s1 eqn:Es1.
  rewrite Hv. cbn [v_paused].
  destruct (videoEnded_export s1 (length (recorders (page s))))
    as (Hv2 & Hg2 & Hr2 & Hh2 & Hm2 & Hp2);
    [rewrite Hh; reflexivity | rewrite Hv; reflexivity |].
  rewrite Hp in Hp2. unfold set_recorders in Hp2.
  cbn [recorders downloads alerts] in Hp2.
  rewrite alter_last in Hp2.
  unfold recorderStopCall, set_rec_state in Hp2.
  cbn [rec_state rec_type rec_dest] in Hp2.
  assert (Hq : quiet (videoEnded s1)).
  { apply (videoEnded_export_quiet s1 (length (recorders (page s))));
      [| rewrite Hh; reflexivity | rewrite Hv; reflexivity].
    rewrite Es1. apply performExport_sessionOK, reachable_sessionOK, Hreach. }
  remember (videoEnded s1) as s2 eqn:Es2.
  unfold recorderOnStop. rewrite Hp2. cbn [recorders].
  rewrite list_lookup_middle by reflexivity. cbn [rec_state rec_type rec_dest].
  split; [| split; [| split; [| split]]].
  - fields. rewrite Hp2. fields. rewrite alter_last. reflexivity.
  - intros c. pose proof (fresh_capture s c Hroute) as Hfresh.
    destruct c; cbn [gainNode] in *; fields; rewrite Hg2, Hg; fields;
      apply disconnect_connect, Hfresh.
  - fields. rewrite Hh2, Hh, Hready. reflexivity.
  - fields. rewrite Hm2, Hm. reflexivity.
  - unfold quiet in *. fields. exact Hq.
Qed.

(** Paused by the component means silent. *)
Lemma idle_quiet s : driven s -> isPlaying (hooks s) = false -> quiet s.
Proof.
  intros Hd Hp.
  destruct (driven_controlOK s Hd) as (_ & _ & _ & H4 & _).
  destruct (H4 Hp) as [Hv Hb]. split; [exact Hv |]. split; [exact Hb |].
  intros i n Hi. destruct (live n) eqn:Hl; [| reflexivity].
  destruct (reachable_sessionOK s (driven_reachable s Hd) i n Hi Hl)
    as [[H _] | [H _]]; congruence.
Qed.

Lemma driven_scenario : driven scenario.
Proof.
  apply driven_run; [constructor | repeat constructor].
Qed.

Lemma videoEnded_pause_aux s :
  isRendering (hooks s) = false ->
  (forall r, v_onended (video s) <> EndedExport r) ->
  videoEnded s = pause s.
Proof.
  destruct s as [[t pa oe cs] [sus vg bg og src dn lim]
                 [[iv|] [ib|] vb bb d mr] [ip ir irend rt ct] m p f].
  all: cbn; intros -> Hoe; destruct oe as [| r |];
    try (exfalso; exact (Hoe r eq_refl)); vm_compute; reflexivity.
Qed.

(** *** What holds in every state of the player *)



(** The element started past the component: [isPlaying] is set although
    nothing was decoded and the context is still suspended. *)
Example element_play_unready :
  let s := step (mounted wideLimits true true) ElementPlay in
  isPlaying (hooks s) = true /\ isReady (hooks s) = false
  /\ ctx_suspended (graph s) = true /\ voiceSourceRef (refs s) = None.
Proof. repeat split. Qed.

(** X8. [isReady] is only ever true once the voice buffer is there, so the
    guard at the head of [performExport] never fires on a click: an export
    button that is enabled either starts a rendering or raises the alert
    about video capture. *)
Theorem ready_means_decoded (s : State) :
  reachable s -> isReady (hooks s) = true ->
  is_Some (voiceBufferRef (refs s))
  /\ (isRendering (hooks s) = false ->
      forall type,
        isRendering (hooks (step s (ClickExport type))) = true
        \/ alerts (page (step s (ClickExport type)))
           = "Video capture is not supported in this browser."%string
               :: alerts (page s)).
Proof.
  intros Hreach Hready.
  destruct (reachable_transportOK s Hreach) as (_ & H2 & _).
  destruct (H2 Hready) as [b Hb]. split; [exists b; exact Hb |].
  intros Hidle type. cbn [step]. rewrite Hidle, Hready. cbn [orb negb].
  assert (Hcase :
    (type = ExportAudio \/ v_captureStream (video s) = true)
    \/ (type = ExportVideo /\ v_captureStream (video s) = false)).
  { destruct type, (v_captureStream (video s)); auto. }
  destruct Hcase as [Hc | [-> Hc]].
  - left. destruct (performExport_accepted type s b Hb Hc)
      as (_ & _ & _ & Hh & _). rewrite Hh. reflexivity.
  - right. unfold performExport. rewrite Hb. cbv zeta.
    rewrite !pause_form. fields. rewrite Hc. reflexivity.
Qed.

Lemma ready_means_decoded_witness :
  is_Some (voiceBufferRef (refs noCapture))
  /\ (isRendering (hooks (step noCapture (ClickExport ExportVideo))) = true
      \/ alerts (page (step noCapture (ClickExport ExportVideo)))
         = "Video capture is not supported in this browser."%string
             :: alerts (page noCapture)).
Proof.
  destruct (ready_means_decoded noCapture) as [H1 H2];
    [apply reachable_run; constructor | vm_compute; reflexivity |].
  split; [exact H1 |]. apply H2. vm_compute. reflexivity.
Defined.

(** X9. In every reachable state, whoever paused the element, no source
    is live once both source cells are empty.  In the states reached while
    the element is started and paused by the component alone, whenever the
    player is not playing no sound source is live and both source cells are
    empty: nothing keeps sounding after a pause, the end of the video or an
    export. *)
Theorem paused_is_silent (s : State) :
  reachable s ->
  (voiceSourceRef (refs s) = None -> bgSourceRef (refs s) = None -> quiet s)
  /\ (driven s -> isPlaying (hooks s) = false -> quiet s).
Proof.
  intros Hreach. split; [| apply idle_quiet].
  intros Hv Hb. split; [exact Hv |]. split; [exact Hb |].
  intros i n Hi. destruct (live n) eqn:Hl; [| reflexivity].
  destruct (reachable_sessionOK s Hreach i n Hi Hl) as [[H _] | [H _]];
    congruence.
Qed.

Lemma paused_is_silent_witness :
  quiet (run scenario [ClickOverlay; Seek 2%Q; ClickPlayButton]).
Proof.
  destruct (paused_is_silent
              (run scenario [ClickOverlay; Seek 2%Q; ClickPlayButton]))
    as [_ H]; [apply reachable_run, reachable_run; constructor |].
  apply H; [| vm_compute; reflexivity].
  apply driven_run; [exact driven_scenario | repeat constructor].
Defined.

(** The browser pauses the element while the player plays: [isPlaying]
    goes off and the Voice source of the session is still wired and
    running. *)
Example element_pause_leaves_sources :
  let s := run scenario [Seek 2%Q; ClickOverlay; ElementPause] in
  isPlaying (hooks s) = false /\ v_paused (video s) = true
  /\ exists i n,
       voiceSourceRef (refs s) = Some i /\ sources (graph s) !! i = Some n
       /\ live n = true /\ src_started n = Some 2%Q /\ src_stopped n = false.
Proof.
  split; [vm_compute; reflexivity |]. split; [vm_compute; reflexivity |].
  eexists _, _. vm_compute. repeat split.
Qed.

(** X10. In every reachable state a source cell that is set holds a node
    that is wired to the gain of its channel and has not been stopped: the
    voice cell a node that does not loop, the background cell a looping node
    that was started.  In the states reached while the element is started
    and paused by the component alone, the voice cell is set while the
    player plays. *)
Theorem playing_sources_are_wired (s : State) :
  reachable s ->
  (forall i, voiceSourceRef (refs s) = Some i ->
     exists n,
       sources (graph s) !! i = Some n
       /\ src_output n = Some Voice /\ src_loop n = false
       /\ src_stopped n = false /\ live n = true)
  /\ (forall j, bgSourceRef (refs s) = Some j ->
       exists m,
         sources (graph s) !! j = Some m
         /\ src_output m = Some Background /\ src_loop m = true
         /\ src_stopped m = false /\ is_Some (src_started m)
         /\ live m = true)
  /\ (driven s -> isPlaying (hooks s) = true ->
      is_Some (voiceSourceRef (refs s))).
Proof.
  intros Hreach.
  destruct (reachable_cellsOK s Hreach) as [Hv Hb]. split; [| split].
  - intros i Hi. destruct (Hv i Hi) as (n & Hn & Ho & Hl & Hs).
    exists n. repeat split; try assumption.
    unfold live. rewrite Ho. reflexivity.
  - intros j Hj. destruct (Hb j Hj) as (m & Hm & Ho & Hl & Hs & Hst).
    exists m. repeat split; try assumption.
    unfold live. rewrite Ho. reflexivity.
  - intros Hd Hp.
    destruct (driven_controlOK s Hd) as (_ & _ & H3 & _).
    destruct (H3 Hp) as (_ & _ & Hi). exact Hi.
Qed.

Lemma playing_sources_are_wired_witness :
  exists i n,
    voiceSourceRef (refs (step scenario ClickOverlay)) = Some i
    /\ sources (graph (step scenario ClickOverlay)) !! i = Some n
    /\ src_output n = Some Voice.
Proof.
  destruct (playing_sources_are_wired (step scenario ClickOverlay))
    as (Hv & _ & Hset).
  - apply reach_step, reachable_run. constructor.
  - destruct Hset as [i Hi];
      [constructor; [exact driven_scenario | reflexivity]
      | vm_compute; reflexivity |].
    destruct (Hv i Hi) as (n & Hn & Ho & _).
    exists i, n. auto.
Defined.

(** X11. Outside an export the end of the video is a pause: the [onEnded]
    prop and whatever [onended] handler an earlier export left behind
    together do what [pause] does, and nothing more. *)
Theorem videoEnded_is_pause (s : State) :
  reachable s -> isRendering (hooks s) = false -> videoEnded s = pause s.
Proof.
  intros Hreach Hidle. apply videoEnded_pause_aux; [exact Hidle |].
  intros r Hr.
  destruct (reachable_transportOK s Hreach) as (_ & _ & H5).
  destruct (H5 r Hr) as (Hrend & _). congruence.
Qed.

Lemma videoEnded_is_pause_witness :
  videoEnded
    (run scenario [ClickExport ExportAudio; VideoEnded; RecorderStopped 0;
                   ClickOverlay])
  = pause
      (run scenario [ClickExport ExportAudio; VideoEnded; RecorderStopped 0;
                     ClickOverlay]).
Proof.
  apply videoEnded_is_pause; [| vm_compute; reflexivity].
  apply reachable_run, reachable_run. constructor.
Defined.

(** X12. In every reachable state, whoever started or paused the element,
    the [onended] handler that stops the recorder is only installed while an
    export is rendering; the recorder it names exists and is recording, so
    its [stop()] is never called on an idle recorder, and when the video ends
    that recorder is the one that goes to stopping.  In the states reached
    while the element is started and paused by the component alone, the
    handler is installed exactly while an export is playing. *)
Theorem export_handler_armed (s : State) :
  reachable s ->
  (forall r, v_onended (video s) = EndedExport r ->
     isRendering (hooks s) = true
     /\ exists rc,
          recorders (page s) !! r = Some rc
          /\ rec_state rc = RecRecording
          /\ (v_paused (video s) = false ->
              recorders (page (step s VideoEnded)) !! r
              = Some (set_rec_state RecStopping rc)))
  /\ (driven s ->
      (forall r, v_onended (video s) = EndedExport r ->
         isPlaying (hooks s) = true)
      /\ (isRendering (hooks s) = true -> isPlaying (hooks s) = true ->
          exists r, v_onended (video s) = EndedExport r)).
Proof.
  intros Hreach.
  destruct (reachable_transportOK s Hreach) as (H1 & _ & H5).
  split.
  - intros r Hr. destruct (H5 r Hr) as (Hrend & (rc & Hrc & Hst) & _).
    split; [exact Hrend |]. exists rc. repeat split; try assumption.
    intros Hrun. cbn [step]. rewrite Hrun.
    destruct (videoEnded_export s r Hrend Hr) as (_ & _ & _ & _ & _ & Hpg).
    rewrite Hpg. cbn [recorders set_recorders].
    rewrite list_lookup_alter, Hrc. cbn.
    unfold recorderStopCall. rewrite Hst.
    destruct (decide (r = r)); [reflexivity | congruence].
  - intros Hd.
    destruct (driven_controlOK s Hd) as (_ & _ & _ & _ & H5' & H6).
    split; [| exact H6].
    intros r Hr. destruct (H5' r Hr) as (_ & Hp & _). exact Hp.
Qed.

Lemma export_handler_armed_witness :
  exists r rc,
    v_onended (video (step scenario (ClickExport ExportAudio)))
    = EndedExport r
    /\ recorders (page (step scenario (ClickExport ExportAudio))) !! r
       = Some rc
    /\ rec_state rc = RecRecording.
Proof.
  destruct (export_handler_armed (step scenario (ClickExport ExportAudio)))
    as [Hgen Hdr]; [apply reach_step, reachable_run; constructor |].
  destruct Hdr as [_ H];
    [constructor; [exact driven_scenario | reflexivity] |].
  destruct H as [r Hr]; [vm_compute; reflexivity | vm_compute; reflexivity |].
  destruct (Hgen r Hr) as (_ & rc & Hrc & Hst & _).
  exists r, rc. auto.
Defined.

(** The browser pauses the element during an export: the handler stays
    installed and the recorder keeps recording while nothing plays. *)
Example element_pause_during_export :
  let s := run scenario [ClickExport ExportAudio; ElementPause] in
  v_onended (video s) = EndedExport 0 /\ isRendering (hooks s) = true
  /\ isPlaying (hooks s) = false.
Proof. vm_compute. repeat split. Qed.

(** X13. In every reachable state the three gain nodes are connected to the
    same outputs, the speakers are among them (an export never takes the
    sound away from the listener), and every capture destination they feed
    is one that [performExport] created. *)
Theorem routing_invariant (s : State) (c : Channel) :
  reachable s ->
  gain_outputs (gainNode c s) = gain_outputs (gainNode Voice s)
  /\ Speakers ∈ gain_outputs (gainNode c s)
  /\ (forall d, Capture d ∈ gain_outputs (gainNode c s) ->
        (d < destinations (graph s))%nat).
Proof.
  intros Hreach. pose proof (reachable_routingOK s Hreach) as Hok.
  unfold routingOK, routes in Hok. destruct Hok as (Hvb & Hbo & Hsp & Hcap).
  assert (He : gain_outputs (gainNode c s) = gain_outputs (gainNode Voice s)).
  { destruct c; cbn [gainNode]; congruence. }
  rewrite He. cbn [gainNode]. auto.
Qed.

Lemma routing_invariant_witness :
  Speakers ∈ gain_outputs (gainNode Original
                             (step scenario (ClickExport ExportAudio))).
Proof.
  apply (routing_invariant (step scenario (ClickExport ExportAudio)) Original).
  apply reach_step, reachable_run. constructor.
Defined.

(** X14. A whole export, from the click on an enabled export button over
    the end of the video to the recorder's [onstop]: exactly one file is
    downloaded, under the name of the export kind; no alert is raised; the
    recorder created for it is done; every gain node is as it was before
    the click, in value and in routing; the mixer is untouched; the player
    is idle again and silent. *)
Theorem export_round_trip (type : ExportType) (s : State) :
  reachable s ->
  isReady (hooks s) = true -> isRendering (hooks s) = false ->
  type = ExportAudio \/ v_captureStream (video s) = true ->
  let s' :=
    run s [ClickExport type; VideoEnded;
           RecorderStopped (length (recorders (page s)))] in
  downloads (page s') = exportFileName type :: downloads (page s)
  /\ alerts (page s') = alerts (page s)
  /\ recorders (page s')
     = recorders (page s)
       ++ [mkRecorder type (destinations (graph s)) RecDone]
  /\ (forall c, gainNode c s' = gainNode c s)
  /\ mixer s' = mixer s
  /\ isRendering (hooks s') = false /\ renderType (hooks s') = None
  /\ isPlaying (hooks s') = false
  /\ quiet s'.
Proof.
  intros Hreach Hready Hidle Hc s'.
  destruct (export_round_trip_aux type s Hreach Hready Hidle Hc)
    as (Hp & Hg & Hh & Hm & Hq).
  fold s' in Hp, Hg, Hh, Hm, Hq. rewrite Hp, Hh.
  cbn [downloads alerts recorders isRendering renderType isPlaying].
  do 3 (split; [reflexivity |]). split; [exact Hg |]. split; [exact Hm |].
  do 3 (split; [reflexivity |]). exact Hq.
Qed.

Lemma export_round_trip_witness :
  downloads (page (run scenario
                     [ClickExport ExportVideo; VideoEnded; RecorderStopped 0]))
  = ["dubbed_video_export.webm"%string]
  /\ gainNode Voice (run scenario
                       [ClickExport ExportVideo; VideoEnded; RecorderStopped 0])
     = gainNode Voice scenario.
Proof.
  destruct (export_round_trip ExportVideo scenario)
    as (Hd & _ & _ & Hg & _).
  - apply reachable_run. constructor.
  - vm_compute. reflexivity.
  - vm_compute. reflexivity.
  - right. vm_compute. reflexivity.
  - split; [exact Hd | exact (Hg Voice)].
Defined.

(** *** The life of a source node *)

Lemma stopNode_idem n : stopNode (stopNode n) = stopNode n.
Proof. destruct n as [b l o [t |] st]; reflexivity. Qed.

Lemma ages_refl n : ages n n.
Proof. left. reflexivity. Qed.

Lemma ages_trans n1 n2 n3 : ages n1 n2 -> ages n2 n3 -> ages n1 n3.
Proof.
  intros [-> | ->] [-> | ->]; unfold ages; rewrite ?stopNode_idem; auto.
Qed.

Lemma evolve_refl l : evolve l l.
Proof.
  split.
  - intros i n Hi. exists n. split; [exact Hi | apply ages_refl].
  - intros i n Hi Hn. congruence.
Qed.

Lemma evolve_trans l1 l2 l3 : evolve l1 l2 -> evolve l2 l3 -> evolve l1 l3.
Proof.
  intros [Ha Hb] [Hc Hd]. split.
  - intros i n Hi. destruct (Ha i n Hi) as (n2 & H2 & A2).
    destruct (Hc i n2 H2) as (n3 & H3 & A3).
    exists n3. split; [exact H3 | exact (ages_trans _ _ _ A2 A3)].
  - intros i n3 H3 H1. destruct (l2 !! i) as [n2 |] eqn:H2.
    + destruct (Hc i n2 H2) as (n3' & H3' & A3).
      assert (n3' = n3) as -> by congruence.
      destruct (Hb i n2 H2 H1) as (n & Hn & A2).
      exists n. split; [exact Hn | exact (ages_trans _ _ _ A2 A3)].
    + exact (Hd i n3 H3 H2).
Qed.

Lemma evolve_alter k l : evolve l (alter stopNode k l).
Proof.
  split.
  - intros i n Hi. destruct (decide (i = k)) as [-> | Hne].
    + exists (stopNode n). split; [| right; reflexivity].
      rewrite list_lookup_alter, Hi. cbn.
      destruct (decide (k = k)); [reflexivity | congruence].
    + exists n. split; [| apply ages_refl].
      rewrite list_lookup_alter_ne by congruence. exact Hi.
  - intros i n Hi Hn. apply lookup_ge_None in Hn.
    apply lookup_lt_Some in Hi. rewrite length_alter in Hi. lia.
Qed.

Lemma evolve_stopAll rv rb l : evolve l (stopAll rv rb l).
Proof.
  unfold stopAll. destruct rv as [i |], rb as [j |];
    eauto using evolve_refl, evolve_alter, evolve_trans.
Qed.

Lemma evolve_snoc l n : created n -> evolve l (l ++ [n]).
Proof.
  intros Hn. split.
  - intros i m Hi. exists m. split; [| apply ages_refl].
    apply lookup_app_l_Some. exact Hi.
  - intros i m Hi Hnone. apply lookup_app_Some in Hi as [Hi | [_ Hi]];
      [congruence |].
    destruct (i - length l)%nat; cbn in Hi; [| discriminate].
    injection Hi as <-. exists n. split; [exact Hn | apply ages_refl].
Qed.

Lemma evolve_addVoice vb t l : evolve l (addVoice vb t l).
Proof.
  destruct vb as [b |]; [| apply evolve_refl].
  apply evolve_snoc. exists b, t. left. reflexivity.
Qed.

Lemma evolve_addBackground bb t l : evolve l (addBackground bb t l).
Proof.
  destruct bb as [b |]; [| apply evolve_refl].
  apply evolve_snoc. exists b, t. right. reflexivity.
Qed.

Lemma evolve_started rv rb vb bb t l :
  evolve l (addBackground bb t (addVoice vb t (stopAll rv rb l))).
Proof.
  eauto using evolve_stopAll, evolve_addVoice, evolve_addBackground,
    evolve_trans.
Qed.

Lemma evolve_play s : evolve (sources (graph s)) (sources (graph (play s))).
Proof. rewrite play_form. fields. apply evolve_started. Qed.

Lemma evolve_pause s : evolve (sources (graph s)) (sources (graph (pause s))).
Proof. rewrite pause_form. fields. apply evolve_stopAll. Qed.

Lemma evolve_performExport type s :
  evolve (sources (graph s)) (sources (graph (performExport type s))).
Proof.
  unfold performExport.
  destruct (voiceBufferRef (refs s)); [| apply evolve_refl]. cbv zeta.
  rewrite !pause_form. fields.
  destruct type, (v_captureStream (video s)); try rewrite play_form; forms;
    eauto using evolve_stopAll, evolve_addVoice, evolve_addBackground,
      evolve_trans.
Qed.

Lemma evolve_videoEnded s :
  evolve (sources (graph s)) (sources (graph (videoEnded s))).
Proof.
  unfold videoEnded. cbv zeta.
  destruct (isRendering (hooks s)); rewrite ?stopSources_form; fields;
    destruct (v_onended (video s)); rewrite ?stopSources_form; forms;
    eauto using evolve_refl, evolve_stopAll, evolve_trans.
Qed.

Lemma evolve_step s e :
  evolve (sources (graph s)) (sources (graph (step s e))).
Proof.
  destruct e; cbn [step].
  - destruct (_ && _); [apply evolve_play | apply evolve_refl].
  - destruct (_ || _); [apply evolve_refl |]. unfold togglePlay.
    destruct (isPlaying _); [apply evolve_pause | apply evolve_play].
  - destruct (isRendering _); [apply evolve_refl |].
    unfold handleSeek. cbv zeta.
    destruct (isPlaying _); [| apply evolve_refl].
    rewrite play_form. forms. apply evolve_started.
  - destruct (_ || _); [apply evolve_refl | apply evolve_performExport].
  - destruct (v_paused _); [apply evolve_refl | apply evolve_videoEnded].
  - destruct (v_paused _); apply evolve_refl.
  - unfold recorderOnStop. destruct (_ !! _) as [rc |]; [| apply evolve_refl].
    destruct (rec_state rc); apply evolve_refl.
  - match goal with |- context [if ?d then _ else _] => destruct d end;
      [| destruct c]; apply evolve_refl.
  - match goal with |- context [if ?d then _ else _] => destruct d end;
      [| destruct c]; apply evolve_refl.
  - unfold decodeTTS. destruct (AudioUtils.decodeVoice _ _ _); apply evolve_refl.
  - destruct file as [[b | err] |]; apply evolve_refl.
  - destruct (v_paused _); apply evolve_refl.
  - destruct (v_paused _); apply evolve_refl.
Qed.

Lemma evolve_run es s :
  evolve (sources (graph s)) (sources (graph (run s es))).
Proof.
  revert s. induction es as [| e es IH]; intros s; [apply evolve_refl |].
  cbn [run fold_left]. eapply evolve_trans; [apply evolve_step | apply IH].
Qed.

Lemma nodeOK_created n : created n -> nodeOK n.
Proof.
  intros (b & t & [-> | ->]); unfold nodeOK, voiceNode, backgroundNode;
    cbn [src_output src_loop src_started src_stopped src_buffer].
  - repeat split; try discriminate.
    intros _ t' Ht. destruct (Qltb t (duration b)) eqn:Hlt; [| discriminate].
    injection Ht as <-. apply Qltb_true. exact Hlt.
  - repeat split; try discriminate. intros _. eexists. reflexivity.
Qed.

Lemma nodeOK_ages n n' : ages n n' -> nodeOK n -> nodeOK n'.
Proof.
  intros [-> | ->]; [auto |].
  intros (H1 & H2 & H3 & H4 & H5 & H6). unfold nodeOK, stopNode.
  cbn [src_output src_loop src_started src_stopped src_buffer].
  repeat split; try discriminate; try assumption.
  destruct (src_started n) eqn:Hs; [eexists; reflexivity |].
  match goal with H : src_stopped n = true |- _ => apply H5 in H as [_ H] end.
  assumption.
Qed.

Lemma reachable_nodeOK s :
  reachable s -> forall i n, sources (graph s) !! i = Some n -> nodeOK n.
Proof.
  induction 1 as [limits capture suspended | s e Hr IH]; intros i n Hi.
  - discriminate.
  - destruct (evolve_step s e) as [Hold Hnew].
    destruct (sources (graph s) !! i) as [m |] eqn:Hm.
    + destruct (Hold i m Hm) as (n' & Hn' & Ha).
      assert (n' = n) as -> by congruence.
      exact (nodeOK_ages _ _ Ha (IH i m Hm)).
    + destruct (Hnew i n Hi Hm) as (m & Hc & Ha).
      exact (nodeOK_ages _ _ Ha (nodeOK_created m Hc)).
Qed.

(** X15. A source node is single-use: whatever happens to the player, a
    node that exists keeps its place, its buffer, its loop flag and its
    start offset; all that can change is that it is stopped and
    disconnected once.  A node that is no longer live never sounds again. *)
Theorem source_nodes_single_use (s : State) (es : list Event) (i : nat)
    (n : SourceNode) :
  sources (graph s) !! i = Some n ->
  exists n',
    sources (graph (run s es)) !! i = Some n'
    /\ (n' = n \/ n' = stopNode n)
    /\ src_buffer n' = src_buffer n /\ src_loop n' = src_loop n
    /\ src_started n' = src_started n
    /\ (live n = false -> live n' = false).
Proof.
  intros Hi. destruct (evolve_run es s) as [Hold _].
  destruct (Hold i n Hi) as (n' & Hn' & Ha).
  exists n'. split; [exact Hn' |]. split; [exact Ha |].
  destruct Ha as [-> | ->]; repeat split; auto.
  intros _. apply live_stopNode.
Qed.

Lemma source_nodes_single_use_witness :
  exists n',
    sources (graph (run (step scenario ClickOverlay)
                      [Seek 1%Q; ClickPlayButton; ClickOverlay]))
    !! 0%nat = Some n'
    /\ src_started n' = None.
Proof.
  destruct (source_nodes_single_use (step scenario ClickOverlay)
              [Seek 1%Q; ClickPlayButton; ClickOverlay] 0
              (mkSource decoded5 false (Some Voice) None false))
    as (n' & Hn' & _ & _ & _ & Hs & _); [vm_compute; reflexivity |].
  exists n'. split; [exact Hn' | exact Hs].
Defined.

(** X16. Every source node of a reachable state is one [play] made: none is
    wired to the gain of the original track; a node on the voice gain does
    not loop and one on the background gain loops; a looping node has been
    started; a node that does not loop was started, if at all, at an offset
    inside its buffer; a stopped node is disconnected. *)
Theorem source_nodes_well_formed (s : State) (i : nat) (n : SourceNode) :
  reachable s -> sources (graph s) !! i = Some n ->
  src_output n <> Some Original
  /\ (src_output n = Some Voice -> src_loop n = false)
  /\ (src_output n = Some Background -> src_loop n = true)
  /\ (src_loop n = true -> is_Some (src_started n))
  /\ (src_stopped n = true ->
      src_output n = None /\ is_Some (src_started n))
  /\ (src_loop n = false ->
      forall t, src_started n = Some t -> (t < duration (src_buffer n))%Q).
Proof. intros Hreach Hi. exact (reachable_nodeOK s Hreach i n Hi). Qed.

Lemma source_nodes_well_formed_witness :
  sources (graph (play scenario)) !! 1%nat
  = Some (mkSource bg3 true (Some Background) (Some 0%Q) false)
  /\ is_Some (src_started
                (mkSource bg3 true (Some Background) (Some 0%Q) false)).
Proof.
  split; [vm_compute; reflexivity |].
  destruct (source_nodes_well_formed (play scenario) 1
              (mkSource bg3 true (Some Background) (Some 0%Q) false))
    as (_ & _ & _ & H & _).
  - apply (reach_step scenario ClickOverlay), reachable_run. constructor.
  - vm_compute. reflexivity.
  - apply H. reflexivity.
Defined.

(** *** The mixer *)

Lemma levels_step s e : ~ mixerEvent e -> levels (step s e) = levels s.
Proof.
  intros Hne. destruct e; cbn [step].
  - destruct (_ && _); [apply levels_play | reflexivity].
  - destruct (_ || _); [reflexivity |]. unfold togglePlay.
    destruct (isPlaying _); [apply levels_pause | apply levels_play].
  - destruct (isRendering _); [reflexivity |]. unfold handleSeek. cbv zeta.
    destruct (isPlaying _); [rewrite levels_play |]; reflexivity.
  - destruct (_ || _); [reflexivity | apply levels_performExport].
  - destruct (v_paused _); [reflexivity | apply levels_videoEnded].
  - destruct (v_paused _); reflexivity.
  - apply levels_recorderOnStop.
  - exfalso. apply Hne. left. eauto.
  - exfalso. apply Hne. right. eauto.
  - unfold decodeTTS. destruct (AudioUtils.decodeVoice _ _ _); reflexivity.
  - destruct file as [[b | err] |]; reflexivity.
  - destruct (v_paused _); reflexivity.
  - destruct (v_paused _); reflexivity.
Qed.

Lemma levels_channel s s' c :
  levels s' = levels s ->
  storedGain c s' = storedGain c s /\ muted c s' = muted c s
  /\ effectiveGain c s' = effectiveGain c s.
Proof.
  unfold levels. intros H. injection H as Hm Hv Hb Ho.
  unfold storedGain, muted, effectiveGain, gainNode.
  destruct c; rewrite Hm; auto.
Qed.

Lemma changeVolume_other c c' v s :
  c <> c' ->
  storedGain c' (changeVolume c v s) = storedGain c' s
  /\ muted c' (changeVolume c v s) = muted c' s
  /\ gainNode c' (changeVolume c v s) = gainNode c' s.
Proof. intros Hne. destruct c, c'; try congruence; repeat split. Qed.

Lemma toggleMute_other c c' s :
  c <> c' ->
  storedGain c' (toggleMute c s) = storedGain c' s
  /\ muted c' (toggleMute c s) = muted c' s
  /\ gainNode c' (toggleMute c s) = gainNode c' s.
Proof. intros Hne. destruct c, c'; try congruence; repeat split. Qed.

Lemma step_frozen s e c :
  muted c s = true -> e <> ClickMute c ->
  muted c (step s e) = true /\ storedGain c (step s e) = storedGain c s.
Proof.
  intros Hm Hne.
  assert (Hother : ~ mixerEvent e ->
    muted c (step s e) = true /\ storedGain c (step s e) = storedGain c s).
  { intros Hnm. destruct (levels_channel s (step s e) c (levels_step s e Hnm))
      as (Hs & Hmu & _). split; congruence. }
  destruct e as [| | | | | | | c' v | c' | | | |];
    try (apply Hother; intros [(? & ? & ?) | (? & ?)]; discriminate).
  - cbn [step].
    assert (Hdec : c' = c \/ c' <> c)
      by (destruct c, c'; auto; right; discriminate).
    destruct Hdec as [-> | Hc].
    + assert (Hdis :
        match c with
        | Voice => isVoiceMuted (mixer s)
        | Background => negb (hasBackgroundFile s) || isBgMuted (mixer s)
        | Original => isOriginalMuted (mixer s)
        end = true).
      { destruct c; cbn [muted] in Hm; rewrite Hm;
          rewrite ?orb_true_r; reflexivity. }
      rewrite Hdis. cbn [orb]. split; [exact Hm | reflexivity].
    + match goal with |- context [if ?d then _ else _] => destruct d end;
        [split; [exact Hm | reflexivity] |].
      destruct (changeVolume_other c' c v s Hc) as (Hs & Hmu & _).
      split; congruence.
  - cbn [step]. assert (Hc : c' <> c) by congruence.
    match goal with |- context [if ?d then _ else _] => destruct d end;
      [split; [exact Hm | reflexivity] |].
    destruct (toggleMute_other c' c s Hc) as (Hs & Hmu & _).
    split; congruence.
Qed.

(** X17. Only the sliders and the mute buttons move the mixer: every other
    event (play, pause, seek, export, the end of the video, a decoded
    voice or background file, the element started or paused by the
    browser) leaves the three stored gains, the three
    mute flags and the values on the three gain nodes as they are. *)
Theorem only_mixer_events_change_levels (s : State) (e : Event) :
  (forall c v, e <> Slider c v) -> (forall c, e <> ClickMute c) ->
  levels (step s e) = levels s.
Proof.
  intros Hs Hm. apply levels_step.
  intros [(c & v & ->) | (c & ->)]; [exact (Hs c v eq_refl) | exact (Hm c eq_refl)].
Qed.

Lemma only_mixer_events_change_levels_witness :
  levels (step scenario (ClickExport ExportAudio)) = levels scenario.
Proof.
  apply only_mixer_events_change_levels; intros; discriminate.
Defined.

(** X18. The channels of the mixer are independent: a slider or a mute
    button of one channel leaves the stored gain, the mute flag and the
    gain node of each other channel as they are. *)
Theorem mixer_channels_independent (s : State) (c c' : Channel) (v : Q) :
  c <> c' ->
  (storedGain c' (step s (Slider c v)) = storedGain c' s
   /\ muted c' (step s (Slider c v)) = muted c' s
   /\ gainNode c' (step s (Slider c v)) = gainNode c' s)
  /\ (storedGain c' (step s (ClickMute c)) = storedGain c' s
      /\ muted c' (step s (ClickMute c)) = muted c' s
      /\ gainNode c' (step s (ClickMute c)) = gainNode c' s).
Proof.
  intros Hne. cbn [step]. split.
  - match goal with |- context [if ?d then _ else _] => destruct d end;
      [repeat split | apply changeVolume_other, Hne].
  - match goal with |- context [if ?d then _ else _] => destruct d end;
      [repeat split | apply toggleMute_other, Hne].
Qed.

Lemma mixer_channels_independent_witness :
  gainNode Voice (step scenario (Slider Original (1 # 4)%Q))
  = gainNode Voice scenario
  /\ muted Voice (step scenario (ClickMute Background)) = muted Voice scenario.
Proof.
  destruct (mixer_channels_independent scenario Original Voice (1 # 4)%Q)
    as [(_ & _ & H) _]; [discriminate |].
  destruct (mixer_channels_independent scenario Background Voice 0%Q)
    as [_ (_ & H' & _)]; [discriminate |].
  split; assumption.
Defined.

(** X19. A muted channel is frozen: until its own mute button is clicked
    again it stays muted, its slider is dead, so its stored gain cannot
    change, and the value on its gain node stays 0, whatever else
    happens. *)
Theorem muted_channel_is_frozen (s : State) (c : Channel) (es : list Event) :
  reachable s -> muted c s = true ->
  Forall (fun e => e <> ClickMute c) es ->
  muted c (run s es) = true
  /\ storedGain c (run s es) = storedGain c s
  /\ effectiveGain c (run s es) = 0%Q.
Proof.
  intros Hreach Hm Hes.
  assert (H : muted c (run s es) = true
              /\ storedGain c (run s es) = storedGain c s).
  { clear Hreach. revert s Hm.
    induction Hes as [| e es He Hes IH]; intros s Hm; [auto |].
    cbn [run fold_left]. destruct (step_frozen s e c Hm He) as [Hm' Hs'].
    destruct (IH (step s e) Hm') as [Hm'' Hs''].
    unfold run in Hm'', Hs''. split; congruence. }
  destruct H as [Hm' Hs']. split; [exact Hm' |]. split; [exact Hs' |].
  rewrite (reachable_gainsSynced _ (reachable_run s es Hreach) c), Hm'.
  reflexivity.
Qed.

Lemma muted_channel_is_frozen_witness :
  storedGain Voice
    (run (step scenario (ClickMute Voice))
       [Slider Voice (1 # 2)%Q; ClickOverlay; ClickMute Background])
  = 1%Q
  /\ effectiveGain Voice
       (run (step scenario (ClickMute Voice))
          [Slider Voice (1 # 2)%Q; ClickOverlay; ClickMute Background])
     = 0%Q.
Proof.
  destruct (muted_channel_is_frozen (step scenario (ClickMute Voice)) Voice
              [Slider Voice (1 # 2)%Q; ClickOverlay; ClickMute Background])
    as (_ & Hs & He).
  - apply reach_step, reachable_run. constructor.
  - vm_compute. reflexivity.
  - repeat constructor; discriminate.
  - split; [rewrite Hs; vm_compute; reflexivity | exact He].
Defined.

(** *** Stopping twice, Save Voice *)

(** X20. Stopping is idempotent: [stopSources] and [pause] clear the two
    cells, so a second call finds nothing to stop and changes nothing; and
    [stopSources] after [pause] is [pause]. *)
Theorem stopping_is_idempotent (s : State) :
  stopSources (stopSources s) = stopSources s
  /\ pause (pause s) = pause s
  /\ stopSources (pause s) = pause s.
Proof.
  destruct s as [[t pa oe cs] [sus vg bg og src dn lim]
                 [[iv|] [ib|] vb bb d mr] [ip ir irend rt ct] m p f];
    repeat split; vm_compute; reflexivity.
Qed.

(** X21. Save Voice never fails, whatever the bytes and the sample rate: it
    downloads one file, named tts_voice_raw.wav, of type audio/wav, made of
    a 44-byte header and the voice bytes as they are, and it touches
    nothing else of the player: video, audio graph, cells, flags, mixer,
    recorders and alerts are as before. *)
Theorem handleDownloadTTS_spec (audioData : list byte) (sampleRate : Z)
    (s : State) :
  exists blob s',
    handleDownloadTTS audioData sampleRate s = Ok (blob, s')
    /\ AudioUtils.blob_type blob = "audio/wav"%string
    /\ length (AudioUtils.blob_bytes blob) = (44 + length audioData)%nat
    /\ drop 44 (AudioUtils.blob_bytes blob) = audioData
    /\ downloads (page s') = "tts_voice_raw.wav"%string :: downloads (page s)
    /\ recorders (page s') = recorders (page s)
    /\ alerts (page s') = alerts (page s)
    /\ video s' = video s /\ graph s' = graph s /\ refs s' = refs s
    /\ hooks s' = hooks s /\ mixer s' = mixer s
    /\ hasBackgroundFile s' = hasBackgroundFile s.
Proof.
  eexists _, _.
  split;
    [unfold handleDownloadTTS;
     rewrite AudioUtilsFacts.createWavBlob_layout; reflexivity |].
  cbn [AudioUtils.blob_type AudioUtils.blob_bytes].
  split; [reflexivity |].
  split; [rewrite length_app, AudioUtilsFacts.wavHeader_length; reflexivity |].
  split; [| repeat split].
  change 44%nat
    with (length (AudioUtils.wavHeader (Z.of_nat (length audioData))
                    sampleRate)).
  apply drop_app_length.
Qed.

End PlayerMore.

(** ** The uploader, the tables and the service *)

Module FrontFacts.
Import Constants Uploader Service.

Lemma validateAndUpload_cases (file : File) :
  validateAndUpload file
  = if String.prefix "video/" (file_type file)
    then if 1073741824 <? file_size file
         then Alerted "File size exceeds the limit of 1024MB for this demo."
         else Uploaded file
    else Alerted "Please upload a valid video file.".
Proof.
  unfold validateAndUpload.
  destruct (String.prefix "video/" (file_type file)); reflexivity.
Qed.

(** X22. The uploader hands a file on exactly when its type starts with
    video/ and its size is at most 1 GiB (a file of exactly 1 GiB passes);
    the file handed on is the one given; the type is checked first, so a
    file that is neither a video nor small enough gets the alert about the
    type; the alert about the size names the limit as 1024MB; a drop while
    loading is ignored, otherwise drop and file dialog do the same, on the
    first file only. *)
Theorem uploader_accepts_iff (file : File) :
  (validateAndUpload file = Uploaded file
   <-> String.prefix "video/" (file_type file) = true
       /\ file_size file <= 1073741824)
  /\ (forall f, validateAndUpload file = Uploaded f -> f = file)
  /\ (String.prefix "video/" (file_type file) = false ->
      validateAndUpload file = Alerted "Please upload a valid video file.")
  /\ (String.prefix "video/" (file_type file) = true ->
      1073741824 < file_size file ->
      validateAndUpload file
      = Alerted "File size exceeds the limit of 1024MB for this demo.")
  /\ (forall files more,
        handleDrop true files = Ignored
        /\ handleDrop false [] = Ignored
        /\ handleDrop false (file :: more) = validateAndUpload file
        /\ handleDrop false files = handleChange files).
Proof.
  assert (Hlast : forall files more,
    handleDrop true files = Ignored
    /\ handleDrop false [] = Ignored
    /\ handleDrop false (file :: more) = validateAndUpload file
    /\ handleDrop false files = handleChange files)
    by (intros; repeat split).
  pose proof (validateAndUpload_cases file) as Hv.
  remember (validateAndUpload file) as v eqn:Ev in *. clear Ev.
  destruct (String.prefix "video/" (file_type file)).
  - destruct (Z.ltb_spec 1073741824 (file_size file)) as [Hbig | Hok];
      subst v.
    + split; [split; [discriminate | intros [_ Hle]; lia] |].
      split; [discriminate |]. split; [discriminate |].
      split; [reflexivity |]. exact Hlast.
    + split; [split; [auto | reflexivity] |].
      split; [intros f [= <-]; reflexivity |]. split; [discriminate |].
      split; [intros _ Hlt; lia |]. exact Hlast.
  - subst v. split; [split; [discriminate | intros [Hp _]; discriminate] |].
    split; [discriminate |]. split; [reflexivity |].
    split; [discriminate |]. exact Hlast.
Qed.

Lemma uploader_accepts_iff_witness :
  validateAndUpload (mkFile "clip.mp4" "video/mp4" 1073741824)
  = Uploaded (mkFile "clip.mp4" "video/mp4" 1073741824)
  /\ validateAndUpload (mkFile "clip.mp4" "video/mp4" 1073741825)
     = Alerted "File size exceeds the limit of 1024MB for this demo.".
Proof.
  destruct (uploader_accepts_iff (mkFile "clip.mp4" "video/mp4" 1073741824))
    as (H1 & _).
  destruct (uploader_accepts_iff (mkFile "clip.mp4" "video/mp4" 1073741825))
    as (_ & _ & _ & H2 & _).
  split.
  - apply H1. split; [reflexivity | cbn; lia].
  - apply H2; [reflexivity | cbn; lia].
Defined.

(** *** The language tables *)

(** X23. The codes of each language table are pairwise different, so the
    lookup by code finds the entry itself: the target select sets
    [targetLang] to the language whose option was chosen, and the name sent
    to the analysis is that of the chosen source language.  That name is
    Auto-Detect exactly for the code auto and for a code that is not in the
    table.  No language has the same voice for both genders. *)
Theorem language_tables :
  NoDup (sl_code <$> SOURCE_LANGUAGES)
  /\ NoDup (code <$> SUPPORTED_LANGUAGES)
  /\ Forall (fun l =>
        find (fun lang => (code lang =? code l)%string) SUPPORTED_LANGUAGES
        = Some l
        /\ voiceMale l <> voiceFemale l) SUPPORTED_LANGUAGES
  /\ Forall (fun s => App.sourceLangName (sl_code s) = sl_name s)
       SOURCE_LANGUAGES
  /\ forall value,
       App.sourceLangName value = "Auto-Detect"%string
       <-> value = "auto"%string
           \/ App.isOption value (sl_code <$> SOURCE_LANGUAGES) = false.
Proof.
  split; [| split; [| split; [| split]]].
  - unfold SOURCE_LANGUAGES. cbn.
    repeat (apply NoDup_cons; split;
            [rewrite ?elem_of_cons, elem_of_nil; intuition discriminate |]).
    apply NoDup_nil. exact I.
  - unfold SUPPORTED_LANGUAGES. cbn.
    repeat (apply NoDup_cons; split;
            [rewrite ?elem_of_cons, elem_of_nil; intuition discriminate |]).
    apply NoDup_nil. exact I.
  - repeat constructor; discriminate.
  - repeat constructor.
  - intros value. unfold App.sourceLangName, App.isOption, SOURCE_LANGUAGES.
    cbn [find fmap list_fmap existsb sl_code sl_name orb].
    rewrite !(String.eqb_sym value).
    repeat match goal with
           | |- context [String.eqb ?c value] =>
               destruct (String.eqb_spec c value) as [<- | ?]
           end;
      cbn; split; try discriminate; auto;
      intros [? | ?]; congruence.
Qed.

(** *** The service *)

Lemma orElse_nonempty (x : option string) (d : string) :
  d <> ""%string -> orElse x d <> ""%string.
Proof.
  intros Hd. unfold orElse. destruct x as [s |]; [| exact Hd].
  destruct (String.eqb_spec s ""); assumption.
Qed.

Lemma orElse_given (s d : string) : s <> ""%string -> orElse (Some s) d = s.
Proof.
  intros Hs. unfold orElse. destruct (String.eqb_spec s ""); congruence.
Qed.

Lemma length_append (s t : string) :
  String.length (s ++ t) = (String.length s + String.length t)%nat.
Proof. induction s as [| c s IH]; cbn; [reflexivity | rewrite IH; reflexivity]. Qed.

Lemma substring_length_le (n : nat) (s : string) :
  (String.length (substring 0 n s) <= n)%nat.
Proof.
  revert s. induction n as [| n IH]; intros [| c s]; cbn; try lia.
  specialize (IH s). lia.
Qed.

Lemma newError_inj (m m' : string) : newError m = newError m' -> m = m'.
Proof. unfold newError. intros [= ->]. reflexivity. Qed.

Lemma fill_bytes_middle (s : string) (pre post : list byte) :
  fill_bytes s (length pre) (pre ++ replicate (String.length s) x00 ++ post)
  = pre ++ AudioUtils.ascii_bytes s ++ post.
Proof.
  revert pre. induction s as [| c s IH]; intros pre; [reflexivity |].
  cbn [fill_bytes String.length replicate].
  rewrite insert_app_r_alt by lia. rewrite Nat.sub_diag. cbn [insert list_insert].
  rewrite AudioUtilsMore.ascii_bytes_String.
  specialize (IH (pre ++ [AudioUtils.byte_of_Z (AudioUtils.charCodeAt c)])).
  rewrite length_app, Nat.add_1_r, <- !app_assoc in IH. exact IH.
Qed.

Section ServiceFacts.
Context `{Platform}.

Lemma base64ToUint8Array_bytes (base64 : string) :
  base64ToUint8Array base64
  = match atob base64 with
    | inl e => inl e
    | inr binaryString => inr (AudioUtils.ascii_bytes binaryString)
    end.
Proof.
  unfold base64ToUint8Array. destruct (atob base64) as [e | b]; [reflexivity |].
  cbv zeta. f_equal.
  pose proof (fill_bytes_middle b [] []) as Hf.
  cbn [length app] in Hf. rewrite !app_nil_r in Hf. exact Hf.
Qed.

Lemma generateSpeech_inr (api : TtsRequest -> Thrown + option string)
    (text : JsValue) (targetLang : Language) (gender : Gender)
    (voiceStyle : JsValue) (useCloning : bool) (r : DubbingResult) :
  generateSpeech api text targetLang gender voiceStyle useCloning = inr r ->
  exists t,
    text = Str t /\ t <> ""%string /\ String.length (trim t) <> 0%nat
    /\ exists base64 binaryString,
         api (mkTtsRequest
                (match gender with
                 | FEMALE => voiceFemale targetLang
                 | MALE => voiceMale targetLang
                 end)
                (if useCloning
                 then ("(Speaking in a " ++ show voiceStyle ++ " tone) "
                       ++ t)%string
                 else t))
         = inr (Some base64)
         /\ base64 <> ""%string
         /\ atob base64 = inr binaryString
         /\ r = mkDubbingResult (Str "") (Str t)
                  (Some (AudioUtils.ascii_bytes binaryString)) 24000 gender
                  voiceStyle.
Proof.
  unfold generateSpeech. cbv zeta.
  destruct (truthy text) eqn:Ht; cbn [negb]; [| discriminate].
  destruct text as [| | t | tr sh]; cbn [trimOf]; try discriminate.
  cbn [truthy] in Ht. apply negb_true_iff in Ht.
  apply String.eqb_neq in Ht.
  destruct (Nat.eqb_spec (String.length (trim t)) 0) as [Hb | Hb];
    [discriminate |].
  intros Hr. exists t. split; [reflexivity |].
  split; [exact Ht |]. split; [exact Hb |]. cbn [show] in Hr.
  destruct (api _) as [e | [[| c b64] |]]; try discriminate.
  rewrite base64ToUint8Array_bytes in Hr.
  destruct (atob (String c b64)) as [e | bin] eqn:Ha; [discriminate |].
  injection Hr as <-. exists (String c b64), bin.
  repeat split; [discriminate | exact Ha].
Qed.

Lemma handleError_message (e : Thrown) (context : string) :
  exists m,
    handleError e context = newError m /\ m <> ""%string
    /\ (String.length m <= String.length context + 115)%nat.
Proof.
  unfold handleError. cbv zeta.
  repeat match goal with
         | |- context [if ?b then _ else _] => destruct b
         end;
    try (eexists; split; [reflexivity |]; split; [discriminate | cbn; lia]).
  eexists. split; [reflexivity |]. split; [discriminate |].
  rewrite !length_append. cbn [String.length].
  assert (Hs : (String.length
                  (orElse (substring 0 100 <$> message e) "Unknown error")
                <= 100)%nat).
  { unfold orElse. destruct (message e) as [m |]; cbn; [| lia].
    destruct (String.eqb_spec (substring 0 100 m) ""); cbn; [lia |].
    apply substring_length_le. }
  lia.
Qed.

(** X24. [handleError] always throws an [Error] with a message that is not
    empty and at most 115 characters longer than the context.  The tests are
    tried in the order written: a text with 401 or api key in it is an
    invalid key whatever else it mentions.  When no keyword occurs the
    message is made of the context and of the first 100 characters of the
    cause, or of Unknown error if the cause has no message. *)
Theorem handleError_spec (e : Thrown) (context : string) :
  let msg := toLowerCase (orElse (message e) (toString e)) in
  (exists m,
     handleError e context = newError m /\ m <> ""%string
     /\ (String.length m <= String.length context + 115)%nat)
  /\ (includes msg "401" = true \/ includes msg "api key" = true ->
      handleError e context
      = newError "Invalid API Key. Please check your configuration.")
  /\ (Forall (fun k => includes msg k = false)
        ["401"; "api key"; "403"; "permission"; "429"; "quota";
         "resource exhausted"; "500"; "internal"; "503"; "overloaded";
         "safety"; "blocked"; "location"; "not supported in your region"]%string ->
      includes msg "candidate" && includes msg "finishreason" = false ->
      handleError e context
      = newError
          ("Failed to " ++ context ++ ". "
           ++ orElse (substring 0 100 <$> message e) "Unknown error"
           ++ "...")%string).
Proof.
  intros msg. split; [apply handleError_message |]. split.
  - intros Hk. unfold handleError. cbv zeta. fold msg.
    destruct Hk as [-> | ->]; rewrite ?orb_true_r; reflexivity.
  - intros Hall Hcf. unfold handleError. cbv zeta. fold msg.
    repeat match goal with
           | H : Forall _ (_ :: _) |- _ =>
               apply Forall_cons in H as [? H]
           end.
    repeat match goal with
           | H : includes msg _ = false |- _ => rewrite H; clear H
           end.
    cbn [orb]. rewrite Hcf. reflexivity.
Qed.

Lemma orDefault_truthy (x : JsValue) (d : string) :
  d <> ""%string -> truthy (orDefault x d) = true.
Proof.
  intros Hd. unfold orDefault. destruct (truthy x) eqn:Hx; [exact Hx |].
  cbn. apply negb_true_iff, String.eqb_neq, Hd.
Qed.

(** X25. [analyzeAndTranslate] on what [JSON.parse] returned.  On [null],
    and on a gender that is neither missing, nor [null], nor a string (a
    number, a boolean, an object), nothing is returned: the [TypeError] of
    the engine is caught and comes out of [handleError].  On every other
    response an analysis is returned whose transcript, translation and voice
    style are truthy: a field that is missing, [null], empty or otherwise
    falsy is replaced by its default, a field that is truthy is kept as it
    is, string or not; the gender is FEMALE exactly when the field is a
    string whose upper case is FEMALE, and MALE in every other case.  On a
    thrown value it throws an [Error] with a message that is not empty, the
    one about parsing if the value is a [SyntaxError], whatever its text. *)
Theorem analyzeAndTranslate_spec :
  (forall json,
     match speaker_gender json with
     | Other _ _ =>
         analyzeAndTranslate (inr (Some json))
         = inl (handleError
                  (newTypeError
                     (NotAFunction "json.speaker_gender?.toUpperCase"))
                  "analyze video")
     | _ =>
         exists analysis,
           analyzeAndTranslate (inr (Some json)) = inr analysis
           /\ transcript analysis
              = (if truthy (original_transcript json)
                 then original_transcript json
                 else Str "No transcript detected.")
           /\ an_translatedText analysis
              = (if truthy (translated_text json)
                 then translated_text json
                 else Str "No translation generated.")
           /\ an_voiceStyle analysis
              = (if truthy (voice_style json)
                 then voice_style json
                 else Str "neutral")
           /\ truthy (transcript analysis) = true
           /\ truthy (an_translatedText analysis) = true
           /\ truthy (an_voiceStyle analysis) = true
           /\ (gender analysis = FEMALE
               <-> exists g, speaker_gender json = Str g
                             /\ toUpperCase g = "FEMALE"%string)
           /\ (gender analysis = MALE
               <-> ~ exists g, speaker_gender json = Str g
                               /\ toUpperCase g = "FEMALE"%string)
     end)
  /\ analyzeAndTranslate (inr None)
     = inl (handleError (newTypeError (ReadOfNull "speaker_gender"))
              "analyze video")
  /\ (forall e,
       exists m,
         analyzeAndTranslate (inl e) = inl (newError m) /\ m <> ""%string
         /\ (isSyntaxError e = true ->
             m = "Failed to parse AI response. The model might have been interrupted."%string)
         /\ (isSyntaxError e = false ->
             newError m = handleError e "analyze video")).
Proof.
  split; [| split].
  - intros json.
    assert (Hok : forall genderStr,
      optionalToUpperCase "json.speaker_gender?.toUpperCase"
        (speaker_gender json) = inr genderStr ->
      (genderStr = Some "FEMALE"%string
       <-> exists g, speaker_gender json = Str g
                     /\ toUpperCase g = "FEMALE"%string) ->
      exists analysis,
        analyzeAndTranslate (inr (Some json)) = inr analysis
        /\ transcript analysis
           = (if truthy (original_transcript json)
              then original_transcript json
              else Str "No transcript detected.")
        /\ an_translatedText analysis
           = (if truthy (translated_text json)
              then translated_text json
              else Str "No translation generated.")
        /\ an_voiceStyle analysis
           = (if truthy (voice_style json)
              then voice_style json
              else Str "neutral")
        /\ truthy (transcript analysis) = true
        /\ truthy (an_translatedText analysis) = true
        /\ truthy (an_voiceStyle analysis) = true
        /\ (gender analysis = FEMALE
            <-> exists g, speaker_gender json = Str g
                          /\ toUpperCase g = "FEMALE"%string)
        /\ (gender analysis = MALE
            <-> ~ exists g, speaker_gender json = Str g
                            /\ toUpperCase g = "FEMALE"%string)).
    { intros genderStr Hg Hiff. unfold analyzeAndTranslate. cbv zeta.
      rewrite Hg. eexists. split; [reflexivity |].
      cbn [transcript an_translatedText an_voiceStyle gender].
      do 3 (split; [reflexivity |]).
      split; [apply orDefault_truthy; discriminate |].
      split; [apply orDefault_truthy; discriminate |].
      split; [apply orDefault_truthy; discriminate |].
      destruct genderStr as [g |].
      - destruct (String.eqb_spec g "FEMALE") as [-> | Hne].
        + split; split; try reflexivity; try discriminate.
          * intros _. apply Hiff. reflexivity.
          * intros Hn. exfalso. apply Hn, Hiff. reflexivity.
        + split; split; try reflexivity; try discriminate.
          * intros Hx. apply Hiff in Hx. congruence.
          * intros _ Hx. apply Hiff in Hx. congruence.
      - split; split; try reflexivity; try discriminate.
        + intros Hx. apply Hiff in Hx. discriminate.
        + intros _ Hx. apply Hiff in Hx. discriminate. }
    destruct (speaker_gender json) as [| | g | tr sh] eqn:Hsg.
    + apply (Hok None); [reflexivity |].
      split; [discriminate | intros (g & Hg & _); discriminate].
    + apply (Hok None); [reflexivity |].
      split; [discriminate | intros (g & Hg & _); discriminate].
    + apply (Hok (Some (toUpperCase g))); [reflexivity |]. split.
      * intros [= Hu]. exists g. auto.
      * intros (g' & [= <-] & Hu). rewrite Hu. reflexivity.
    + unfold analyzeAndTranslate. cbv zeta. rewrite Hsg. reflexivity.
  - reflexivity.
  - intros e. unfold analyzeAndTranslate. cbv zeta.
    destruct (isSyntaxError e).
    + eexists. split; [reflexivity |]. split; [discriminate |].
      split; [reflexivity | discriminate].
    + destruct (handleError_message e "analyze video") as (m & Hm & Hne & _).
      exists m. rewrite Hm. split; [reflexivity |]. split; [exact Hne |].
      split; [discriminate | reflexivity].
Qed.

(** X26. [generateSpeech] returns a result only for a text that is a string,
    not empty and not blank, after the model was asked for the voice of the
    gender given ([voiceFemale] for FEMALE, [voiceMale] for MALE) with the
    text as prompt, prefixed by the style direction when cloning is on, and
    answered with inline data that is not empty and that [atob] accepts; the
    result then carries the decoded bytes, one byte per character of the
    decoded string, the sample rate 24000, the text, the gender and the
    style it was given, and an empty transcript.  Every failure comes out of
    [handleError] with the context generate speech.  For a text that is
    falsy or blank the model is not asked at all, nor is it for a text that
    is truthy and not a string, on which [trim] is not a function. *)
Theorem generateSpeech_spec (api : TtsRequest -> Thrown + option string)
    (text : JsValue) (targetLang : Language) (gender : Gender)
    (voiceStyle : JsValue) (useCloning : bool) :
  (forall r,
     generateSpeech api text targetLang gender voiceStyle useCloning = inr r ->
     exists t,
       text = Str t /\ t <> ""%string /\ String.length (trim t) <> 0%nat
       /\ exists base64 binaryString,
            api (mkTtsRequest
                   (match gender with
                    | FEMALE => voiceFemale targetLang
                    | MALE => voiceMale targetLang
                    end)
                   (if useCloning
                    then ("(Speaking in a " ++ show voiceStyle ++ " tone) "
                          ++ t)%string
                    else t))
            = inr (Some base64)
            /\ base64 <> ""%string
            /\ atob base64 = inr binaryString
            /\ r = mkDubbingResult (Str "") (Str t)
                     (Some (AudioUtils.ascii_bytes binaryString)) 24000 gender
                     voiceStyle)
  /\ (forall e,
       generateSpeech api text targetLang gender voiceStyle useCloning = inl e ->
       exists cause, e = handleError cause "generate speech")
  /\ (truthy text = false
      \/ (exists t, text = Str t /\ String.length (trim t) = 0%nat) ->
      forall api',
        generateSpeech api' text targetLang gender voiceStyle useCloning
        = inl (handleError (newError "No text to generate speech from.")
                 "generate speech"))
  /\ (forall sh api',
       text = Other true sh ->
       generateSpeech api' text targetLang gender voiceStyle useCloning
       = inl (handleError (newTypeError (NotAFunction "text.trim"))
                "generate speech")).
Proof.
  split; [apply generateSpeech_inr |]. split; [| split].
  - intros e. unfold generateSpeech. cbv zeta.
    destruct (negb (truthy text));
      [intros [= <-]; eexists; reflexivity |].
    destruct (trimOf "text.trim" text) as [e' | trimmed];
      [intros [= <-]; eexists; reflexivity |].
    destruct (String.length trimmed =? 0)%nat;
      [intros [= <-]; eexists; reflexivity |].
    intros He.
    destruct (api _) as [e' | [[| c b64] |]];
      try (injection He as <-; eexists; reflexivity).
    rewrite base64ToUint8Array_bytes in He.
    destruct (atob (String c b64)) as [e' | bin]; [| discriminate].
    injection He as <-. eexists. reflexivity.
  - intros Hblank api'. unfold generateSpeech. cbv zeta.
    destruct Hblank as [Hf | (t & -> & Hb)].
    + rewrite Hf. reflexivity.
    + destruct (negb (truthy (Str t))); [reflexivity |].
      cbn [trimOf]. rewrite Hb. reflexivity.
  - intros sh api' ->. reflexivity.
Qed.

End ServiceFacts.

Lemma handleError_spec_witness :
  @handleError asciiPlatform
    (newError "Request failed: 429 Too Many Requests (API key quota)")
    "analyze video"%string
  = newError "Invalid API Key. Please check your configuration.".
Proof.
  destruct (@handleError_spec asciiPlatform
              (newError "Request failed: 429 Too Many Requests (API key quota)")
              "analyze video"%string) as (_ & H1 & _).
  apply H1. right. vm_compute. reflexivity.
Defined.

Lemma analyzeAndTranslate_spec_witness :
  (exists analysis,
     @analyzeAndTranslate asciiPlatform
       (inr (Some (mkJson (Str "female") Undefined (Other true "42")
                     (Str "Namaste"))))
     = inr analysis
     /\ gender analysis = FEMALE
     /\ transcript analysis = Other true "42"
     /\ an_voiceStyle analysis = Str "neutral")
  /\ @analyzeAndTranslate asciiPlatform
       (inr (Some (mkJson (Other true "1") Undefined Undefined Undefined)))
     = inl (newError
              "Failed to analyze video. json.speaker_gender?.toUpperCase is not a function...")
  /\ @analyzeAndTranslate asciiPlatform (inr None)
     = inl (newError
              "Failed to analyze video. Cannot read properties of null (reading 'speaker_gender')...").
Proof.
  destruct (@analyzeAndTranslate_spec asciiPlatform) as (H1 & H2 & _).
  split; [| split].
  - destruct (H1 (mkJson (Str "female") Undefined (Other true "42")
                    (Str "Namaste")))
      as (analysis & Ha & Ht & _ & Hs & _ & _ & _ & Hg & _).
    exists analysis. split; [exact Ha |].
    split; [apply Hg; eexists; split; reflexivity |].
    split; [exact Ht | exact Hs].
  - exact (H1 (mkJson (Other true "1") Undefined Undefined Undefined)).
  - exact H2.
Defined.

Lemma generateSpeech_spec_witness :
  exists base64 binaryString,
    @atob asciiPlatform base64 = inr binaryString
    /\ mkDubbingResult (Str "") (Str "Namaste") (Some [x01; x02]) 24000 FEMALE
         (Str "calm")
       = mkDubbingResult (Str "") (Str "Namaste")
           (Some (AudioUtils.ascii_bytes binaryString)) 24000 FEMALE
           (Str "calm").
Proof.
  destruct (@generateSpeech_spec asciiPlatform
              (fun _ => inr (Some (String "001" (String "002" EmptyString))))
              (Str "Namaste") (mkLanguage "hi" "Hindi" "Puck" "Kore") FEMALE
              (Str "calm") true) as (H1 & _).
  destruct (H1 (mkDubbingResult (Str "") (Str "Namaste") (Some [x01; x02])
                  24000 FEMALE (Str "calm")) eq_refl)
    as (t & Ht & _ & _ & base64 & bin & _ & _ & Ha & Hr).
  injection Ht as <-. exists base64, bin. split; [exact Ha | exact Hr].
Defined.

End FrontFacts.

(** ** The application *)

Module AppFacts.
Import Constants Uploader Service App FrontFacts.

Section WithPlatform.
Context `{Platform}.

Lemma generateSpeech_result api text targetLang gender voiceStyle useCloning r :
  generateSpeech api text targetLang gender voiceStyle useCloning = inr r ->
  is_Some (audioData r) /\ audioSampleRate r = 24000.
Proof.
  intros Hr.
  destruct (generateSpeech_inr api text targetLang gender voiceStyle useCloning
              r Hr) as (t & _ & _ & _ & b64 & bin & _ & _ & _ & ->).
  split; [eexists; reflexivity | reflexivity].
Qed.

(** The parts of [appOK] that a handler leaves alone. *)
Lemma appOK_frame a a' :
  state a' = state a -> result a' = result a -> errorMsg a' = errorMsg a ->
  jobs a' = jobs a -> targetLang a' = targetLang a ->
  sourceLangCode a' = sourceLangCode a ->
  appOK a -> appOK a'.
Proof.
  unfold appOK, busy. intros -> -> -> -> -> ->. tauto.
Qed.

Lemma appOK_idle a a' :
  state a' = IDLE -> result a' = None ->
  targetLang a' = targetLang a -> sourceLangCode a' = sourceLangCode a ->
  appOK a -> appOK a'.
Proof.
  unfold appOK, busy. intros Hs Hr -> -> (_ & _ & _ & _ & Ht & Hc).
  rewrite Hs, Hr. repeat split; try discriminate; try assumption.
  intros [? | ?]; discriminate.
Qed.

Lemma dubbingFailed_appOK e a0 a :
  result a = result a0 -> targetLang a = targetLang a0 ->
  sourceLangCode a = sourceLangCode a0 ->
  appOK a0 -> appOK (dubbingFailed e a).
Proof.
  unfold appOK, busy, dubbingFailed.
  intros Er Et Ec (_ & _ & Hr & _ & Ht & Hc). cbn.
  rewrite Er, Et, Ec.
  split; [discriminate |].
  split; [intros _; eexists; split;
          [reflexivity | apply orElse_nonempty; discriminate] |].
  split; [exact Hr |].
  split; [intros [? | ?]; discriminate |].
  split; assumption.
Qed.

Lemma step_appOK a e : appOK a -> appOK (step a e).
Proof.
  intros Hok. destruct e; cbn [step].
  - destruct (videoFile a); [exact Hok |].
    destruct (handleDrop false files); cbn [uploaded];
      first [exact Hok | revert Hok; apply appOK_idle; reflexivity].
  - destruct (videoFile a); [exact Hok |].
    destruct (handleChange files); cbn [uploaded];
      first [exact Hok | revert Hok; apply appOK_idle; reflexivity].
  - destruct (videoFile a); [| exact Hok].
    destruct (settingsEnabled a); [| exact Hok].
    destruct files; exact Hok.
  - destruct (videoFile a); [| exact Hok].
    destruct (settingsEnabled a); cbn [andb]; [| exact Hok].
    destruct (isOption value _) eqn:Hopt; [| exact Hok].
    destruct Hok as (H1 & H2 & H3 & H4 & H5 & H6).
    unfold appOK, busy. cbn [state result errorMsg jobs targetLang
                              sourceLangCode setSourceLangCode].
    repeat split; try assumption; apply H3; assumption.
  - destruct (videoFile a); [| exact Hok].
    destruct (settingsEnabled a); cbn [andb]; [| exact Hok].
    destruct (isOption value _); [| exact Hok].
    destruct (find _ SUPPORTED_LANGUAGES) as [l |] eqn:Hfind; [| exact Hok].
    apply find_some in Hfind as [Hin _].
    destruct Hok as (H1 & H2 & H3 & H4 & H5 & H6).
    unfold appOK, busy. cbn [state result errorMsg jobs targetLang
                              sourceLangCode setTargetLang].
    repeat split; try assumption; try (apply H3; assumption).
    apply list_elem_of_In. exact Hin.
  - destruct (videoFile a); [| exact Hok].
    destruct (settingsEnabled a); exact Hok.
  - destruct (videoFile a) as [vf |] eqn:Hvf; [| exact Hok].
    assert (Hd : appOK (handleDubbing a)).
    { unfold handleDubbing. rewrite Hvf.
      destruct Hok as (H1 & H2 & H3 & H4 & H5 & H6).
      unfold appOK, busy. cbn.
      split; [discriminate |]. split; [discriminate |].
      split; [exact H3 |]. split; [| split; assumption].
      intros _. exists (length (jobs a)). eexists.
      split; [apply list_lookup_middle; reflexivity | exact I]. }
    destruct (state a); try exact Hd; exact Hok.
  - destruct (videoFile a); [| exact Hok].
    revert Hok. apply appOK_idle; reflexivity.
  - destruct (videoFile a); [| exact Hok].
    destruct (result a); exact Hok.
  - destruct (videoFile a); [| exact Hok].
    destruct (result a); exact Hok.
  - destruct (jobs a !! j) as [[c | c an |] |] eqn:Hj; try exact Hok.
    unfold analysisSettled.
    destruct (analyzeAndTranslate parsed) as [e | analysis].
    + apply (dubbingFailed_appOK e a); [reflexivity.. | exact Hok].
    + destruct Hok as (H1 & H2 & H3 & H4 & H5 & H6).
      unfold appOK, busy. cbn.
      split; [discriminate |]. split; [discriminate |].
      split; [exact H3 |]. split; [| split; assumption].
      intros _. exists j. eexists.
      split; [apply list_lookup_insert_eq; eapply lookup_lt_Some; exact Hj
             | exact I].
  - destruct (jobs a !! j) as [[c | c an |] |] eqn:Hj; try exact Hok.
    unfold speechSettled. cbv zeta.
    destruct (generateSpeech _ _ _ _ _ _) as [e | r] eqn:Hg.
    + apply (dubbingFailed_appOK e a); [reflexivity.. | exact Hok].
    + destruct (generateSpeech_result _ _ _ _ _ _ _ Hg) as [Hd Hrate].
      destruct Hok as (H1 & H2 & H3 & H4 & H5 & H6).
      unfold appOK, busy. cbn.
      split; [intros _; eexists; reflexivity |]. split; [discriminate |].
      split; [intros r' [= <-]; cbn; auto |].
      split; [intros [? | ?]; discriminate | split; assumption].
Qed.

Lemma appOK_initial : appOK initial.
Proof.
  unfold appOK, busy. cbn.
  repeat split; try discriminate.
  - intros [? | ?]; discriminate.
  - left.
Qed.

Lemma reachable_appOK a : reachable a -> appOK a.
Proof.
  induction 1 as [| a e Hr IH]; [apply appOK_initial | apply step_appOK, IH].
Qed.

Lemma app_reachable_run a es : reachable a -> reachable (run a es).
Proof.
  revert a. induction es as [| e es IH]; intros a Ha; [exact Ha |].
  cbn [run fold_left]. apply IH. constructor. exact Ha.
Qed.

Lemma settings_step a e :
  settingsEnabled a = false -> e <> ClickChangeVideo ->
  targetLang (step a e) = targetLang a
  /\ sourceLangCode (step a e) = sourceLangCode a
  /\ isCloningEnabled (step a e) = isCloningEnabled a
  /\ bgAudioFile (step a e) = bgAudioFile a.
Proof.
  intros Hoff Hne. destruct e; cbn [step]; try congruence.
  - destruct (videoFile a); [auto |].
    destruct (handleDrop false files); cbn [uploaded]; auto.
  - destruct (videoFile a); [auto |].
    destruct (handleChange files); cbn [uploaded]; auto.
  - rewrite Hoff. destruct (videoFile a); auto.
  - rewrite Hoff. destruct (videoFile a); auto.
  - rewrite Hoff. destruct (videoFile a); auto.
  - rewrite Hoff. destruct (videoFile a); auto.
  - destruct (videoFile a) as [vf |] eqn:Hvf; [| auto].
    unfold handleDubbing. rewrite Hvf. destruct (state a); auto.
  - destruct (videoFile a); [| auto]. destruct (result a); auto.
  - destruct (videoFile a); [| auto]. destruct (result a); auto.
  - destruct (jobs a !! j) as [[c | c an |] |]; auto.
    unfold analysisSettled. destruct (analyzeAndTranslate parsed); auto.
  - destruct (jobs a !! j) as [[c | c an |] |]; auto.
    unfold speechSettled. cbv zeta.
    destruct (generateSpeech _ _ _ _ _ _); auto.
Qed.

(** X27. In every reachable state of the application: READY means there is
    a result; ERROR means there is an error message and it is not empty; the
    error box is on the page exactly when the state is ERROR and a video is
    chosen; a state that shows the spinner has a call of [handleDubbing]
    still waiting for the service; the target language is an entry of the
    table and the source code is the value of one of the options. *)
Theorem app_state_invariant (a : State) :
  reachable a ->
  (state a = READY -> is_Some (result a))
  /\ (state a = ERROR -> exists m, errorMsg a = Some m /\ m <> ""%string)
  /\ (errorBoxShown a <-> state a = ERROR /\ is_Some (videoFile a))
  /\ (state a = ANALYZING \/ state a = GENERATING_AUDIO ->
      exists j job, jobs a !! j = Some job /\ job <> Over)
  /\ targetLang a ∈ SUPPORTED_LANGUAGES
  /\ sourceLangCode a ∈ sl_code <$> SOURCE_LANGUAGES.
Proof.
  intros Hr. destruct (reachable_appOK a Hr) as (H1 & H2 & _ & H4 & H5 & H6).
  split; [exact H1 |]. split; [exact H2 |].
  split; [| split; [| split; [exact H5 |]]].
  - unfold errorBoxShown. split.
    + intros (Hv & He & _). auto.
    + intros (He & Hv). auto.
  - intros Hb. destruct (H4 Hb) as (j & job & Hj & Hfl).
    exists j, job. split; [exact Hj |]. intros ->. exact Hfl.
  - unfold isOption in H6. apply existsb_exists in H6 as (x & Hin & Hx).
    apply String.eqb_eq in Hx. subst x. apply list_elem_of_In. exact Hin.
Qed.

(** X28. The props of the player: whenever there is a result, its audio
    data is there (the non-null assertion at the mount of the player
    holds) and its sample rate is 24000; so when the voice is shorter than
    4 GiB the file Save Voice makes from these props has the sample rate
    24000, the byte rate 48000 and the data size of the voice in its
    header. *)
Theorem player_props (a : State) (r : DubbingResult) :
  reachable a -> result a = Some r ->
  exists audioData,
    Service.audioData r = Some audioData
    /\ audioSampleRate r = 24000
    /\ (36 + Z.of_nat (length audioData) < 2 ^ 32 ->
        exists file,
          AudioUtils.createWavBlob audioData (audioSampleRate r)
          = Ok (AudioUtils.mkBlob file "audio/wav")
          /\ AudioUtils.getUint32 file 24 = Ok 24000
          /\ AudioUtils.getUint32 file 28 = Ok 48000
          /\ AudioUtils.getUint32 file 40 = Ok (Z.of_nat (length audioData))
          /\ drop 44 file = audioData).
Proof.
  intros Hr Hres. destruct (reachable_appOK a Hr) as (_ & _ & H3 & _).
  destruct (H3 r Hres) as [[bytes Hb] Hrate].
  exists bytes. split; [exact Hb |]. split; [exact Hrate |].
  intros Hlen. rewrite Hrate. eexists.
  split; [apply AudioUtilsFacts.createWavBlob_layout |].
  destruct (AudioUtilsFacts.wav_fields_mod bytes 24000)
    as (_ & H40 & H24 & H28 & _). cbv zeta in *.
  rewrite H24, H28, H40.
  split; [reflexivity |]. split; [reflexivity |].
  split; [rewrite Z.mod_small by lia; reflexivity |].
  change 44%nat
    with (length (AudioUtils.wavHeader (Z.of_nat (length bytes)) 24000)).
  apply drop_app_length.
Qed.

(** X29. While the player stays on the page its video and its background
    file are never taken away: the only handler that resets them,
    [handleReset], takes the video and the result away with them, which
    removes the player. *)
Theorem mounted_player_keeps_props (a : State) (e : Event) :
  playerMounted a -> playerMounted (step a e) ->
  videoFile (step a e) = videoFile a
  /\ (is_Some (bgAudioFile a) -> is_Some (bgAudioFile (step a e))).
Proof.
  intros [[vf Hvf] [r Hres]] [[vf' Hvf'] [r' Hres']].
  set (P := fun a' : State =>
    videoFile a' = videoFile a
    /\ (is_Some (bgAudioFile a) -> is_Some (bgAudioFile a'))).
  assert (Hkeep : forall a',
    videoFile a' = videoFile a ->
    bgAudioFile a' = bgAudioFile a \/ is_Some (bgAudioFile a') ->
    P a').
  { intros a' Hv [Hb | Hb]; split; auto. rewrite Hb. auto. }
  change (P (step a e)). clearbody P.
  revert Hvf' Hres'. destruct e; cbn [step]; rewrite ?Hvf, ?Hres;
    try (intros; apply Hkeep; [reflexivity | left; reflexivity]).
  - destruct (settingsEnabled a);
      [| intros; apply Hkeep; [reflexivity | left; reflexivity]].
    destruct files as [| f files]; intros; apply Hkeep;
      [reflexivity | left; reflexivity | reflexivity
      | right; eexists; reflexivity].
  - destruct (_ && _); intros; apply Hkeep; try reflexivity; left; reflexivity.
  - destruct (_ && _);
      [| intros; apply Hkeep; [reflexivity | left; reflexivity]].
    destruct (find _ _); intros; apply Hkeep; try reflexivity;
      left; reflexivity.
  - destruct (settingsEnabled a); intros; apply Hkeep; try reflexivity;
      left; reflexivity.
  - unfold handleDubbing. rewrite Hvf.
    destruct (state a); intros; apply Hkeep; try reflexivity;
      left; reflexivity.
  - cbn. discriminate.
  - destruct (jobs a !! j) as [[c | c an |] |];
      try (intros; apply Hkeep; [reflexivity | left; reflexivity]).
    unfold analysisSettled. destruct (analyzeAndTranslate parsed);
      intros; apply Hkeep; try reflexivity; left; reflexivity.
  - destruct (jobs a !! j) as [[c | c an |] |];
      try (intros; apply Hkeep; [reflexivity | left; reflexivity]).
    unfold speechSettled. cbv zeta.
    destruct (generateSpeech _ _ _ _ _ _);
      intros; apply Hkeep; try reflexivity; left; reflexivity.
Qed.

(** X30. Outside the states IDLE and READY the settings are frozen: no
    event but Change Video alters the target language, the source code,
    the cloning switch or the background file (this holds in the state
    ERROR as well), and while the spinner shows a click on the dub button
    does nothing. *)
Theorem settings_frozen (a : State) (e : Event) :
  state a <> IDLE -> state a <> READY -> e <> ClickChangeVideo ->
  targetLang (step a e) = targetLang a
  /\ sourceLangCode (step a e) = sourceLangCode a
  /\ isCloningEnabled (step a e) = isCloningEnabled a
  /\ bgAudioFile (step a e) = bgAudioFile a
  /\ (state a <> ERROR -> step a ClickDub = a).
Proof.
  intros Hi Hr Hne.
  assert (Hoff : settingsEnabled a = false)
    by (unfold settingsEnabled; destruct (state a); congruence).
  destruct (settings_step a e Hoff Hne) as (H1 & H2 & H3 & H4).
  repeat split; try assumption.
  intros He. cbn [step]. destruct (videoFile a); [| reflexivity].
  destruct (state a); congruence.
Qed.

End WithPlatform.

Lemma app_state_invariant_witness :
  errorBoxShown
    (@run asciiPlatform initial
       [ChooseFiles [mkFile "clip.mp4" "video/mp4" 1000]; ClickDub;
        AnalysisSettled 0 (inl (newError "503 overloaded"))]).
Proof.
  destruct (@app_state_invariant asciiPlatform
              (@run asciiPlatform initial
                 [ChooseFiles [mkFile "clip.mp4" "video/mp4" 1000]; ClickDub;
                  AnalysisSettled 0 (inl (newError "503 overloaded"))]))
    as (_ & _ & H3 & _).
  - apply app_reachable_run. constructor.
  - apply H3. split; [vm_compute; reflexivity | eexists; vm_compute; reflexivity].
Defined.

(** Change Video while the analysis is pending, which then fails: the state
    is ERROR, the message is set, and the panel with the error box is not on
    the page. *)
Example error_without_box :
  let a :=
    @run asciiPlatform initial
      [ChooseFiles [mkFile "clip.mp4" "video/mp4" 1000]; ClickDub;
       ClickChangeVideo; AnalysisSettled 0 (inl (newError "503 overloaded"))] in
  state a = ERROR /\ videoFile a = None /\ ~ errorBoxShown a
  /\ errorMsg a
     = Some "Gemini service is currently overloaded. Please try again in a moment."%string.
Proof.
  cbv zeta. split; [vm_compute; reflexivity |].
  split; [vm_compute; reflexivity |]. split; [| vm_compute; reflexivity].
  intros ([vf Hvf] & _). vm_compute in Hvf. discriminate.
Qed.

Lemma player_props_witness :
  exists audioData,
    Service.audioData
      (mkDubbingResult (Str "No transcript detected.") (Str "Namaste")
         (Some [x41; x42]) 24000 FEMALE (Str "neutral"))
    = Some audioData
    /\ length audioData = 2%nat.
Proof.
  destruct (@player_props asciiPlatform dubbedOnce
              (mkDubbingResult (Str "No transcript detected.") (Str "Namaste")
                 (Some [x41; x42]) 24000 FEMALE (Str "neutral")))
    as (audioData & Hd & _).
  - apply app_reachable_run. constructor.
  - vm_compute. reflexivity.
  - exists audioData. split; [exact Hd |].
    cbn in Hd. injection Hd as <-. reflexivity.
Defined.

Lemma mounted_player_keeps_props_witness :
  videoFile (@step asciiPlatform dubbedOnce ClickDub) = videoFile dubbedOnce
  /\ is_Some (bgAudioFile (@step asciiPlatform dubbedOnce ClickDub)).
Proof.
  destruct (@mounted_player_keeps_props asciiPlatform dubbedOnce ClickDub)
    as [Hv Hb].
  - split; eexists; vm_compute; reflexivity.
  - split; eexists; vm_compute; reflexivity.
  - split; [exact Hv |]. apply Hb. eexists. vm_compute. reflexivity.
Defined.

Lemma settings_frozen_witness :
  targetLang
    (@step asciiPlatform (@step asciiPlatform dubbedOnce ClickDub)
       (SelectTarget "fr"))
  = targetLang (@step asciiPlatform dubbedOnce ClickDub).
Proof.
  destruct (@settings_frozen asciiPlatform
              (@step asciiPlatform dubbedOnce ClickDub) (SelectTarget "fr"))
    as (Ht & _).
  - vm_compute. discriminate.
  - vm_compute. discriminate.
  - discriminate.
  - exact Ht.
Defined.

End AppFacts.
